(** * tourist-tour-back: the aggregation and caching core, embedded in Rocq

    A shallow embedding of the booking back end's search aggregator
    ([src/app/search/search.service.ts]), offer page
    ([src/app/offer/offer.service.ts]), OAuth token manager and image
    proxy, with the properties of the specification stated over it. *)

From Stdlib Require Import ZArith QArith Qround Lia List Ascii String Sorted Permutation.
From stdpp Require Import gmap strings list pretty sorting.

Local Open Scope string_scope.
Local Open Scope list_scope.
Local Open Scope Z_scope.

(** ** JavaScript numbers

    A JS [number] is an IEEE-754 double.  The embedding keeps the four
    kinds of value the code can meet (NaN, the two infinities, a finite
    value) and takes finite values as exact rationals: the rounding
    error of double arithmetic is not modelled, and the two zeros are
    one. *)
Module Num.

Inductive number : Type :=
| NaN
| NegInf
| Fin (q : Q)
| PosInf.

Definition ofZ (z : Z) : number := Fin (inject_Z z).

(** [a < b] of JavaScript: false as soon as one side is NaN. *)
Definition lt (a b : number) : bool :=
  match a, b with
  | NaN, _ | _, NaN => false
  | NegInf, NegInf => false
  | NegInf, _ => true
  | _, NegInf => false
  | PosInf, _ => false
  | Fin _, PosInf => true
  | Fin x, Fin y => negb (Qle_bool y x)
  end.

(** [a - b]. *)
Definition sub (a b : number) : number :=
  match a, b with
  | NaN, _ | _, NaN => NaN
  | PosInf, PosInf | NegInf, NegInf => NaN
  | PosInf, _ => PosInf
  | NegInf, _ => NegInf
  | Fin _, PosInf => NegInf
  | Fin _, NegInf => PosInf
  | Fin x, Fin y => Fin (x - y)
  end.

Definition sgn (q : Q) : Z := Z.sgn (Qnum q).

(** [a / b].  A zero divisor is taken as [+0]. *)
Definition div (a b : number) : number :=
  match a, b with
  | NaN, _ | _, NaN => NaN
  | (PosInf | NegInf), (PosInf | NegInf) => NaN
  | PosInf, Fin y => if (sgn y <? 0)%Z then NegInf else PosInf
  | NegInf, Fin y => if (sgn y <? 0)%Z then PosInf else NegInf
  | Fin x, (PosInf | NegInf) => Fin 0
  | Fin x, Fin y =>
      if (sgn y =? 0)%Z then
        (if (sgn x =? 0)%Z then NaN
         else if (sgn x <? 0)%Z then NegInf else PosInf)
      else Fin (x / y)
  end.

(** [Math.max(a, b)]: NaN if either argument is NaN. *)
Definition max (a b : number) : number :=
  match a, b with
  | NaN, _ | _, NaN => NaN
  | _, _ => if lt a b then b else a
  end.

(** [Math.round(a)]: the nearest integer, ties towards +Infinity. *)
Definition round (a : number) : number :=
  match a with
  | Fin x => ofZ (Qfloor (x + (1 # 2)))
  | _ => a
  end.

End Num.

Export Num(number, NaN, NegInf, Fin, PosInf).

(** Notions used to state properties of numbers. *)
Module NumSpec.

(** A total as [rsTotal] can return it: finite or +Infinity. *)
Definition priced (a : number) : Prop :=
  match a with Fin _ | PosInf => True | _ => False end.

(** The nearest integer of [x], ties upwards. *)
Definition nearest (x : Q) : Z := Qfloor (x + (1 # 2)).

End NumSpec.

(** ** Results of calls that may throw *)
Inductive outcome (E A : Type) : Type :=
| Ok (a : A)
| Throw (e : E).
Arguments Ok {E A} a.
Arguments Throw {E A} e.

(** ** Data model ([src/shared/types.ts]) *)

Record Image := { url : string }.

Record Address := {
  addressLine : option string;
  cityName : option string;
}.

Record ContactAddress := {
  ca_addressLine : option string;
  ca_cityName : option string;
  latitude : option number;
  longitude : option number;
}.

Record ContactInfo := { address : option ContactAddress }.

Record Amenity := { code : string; displayName : option string }.

Record ContentRoomType := {
  crt_id : string;
  crt_name : option string;
  crt_images : option (list Image);
  crt_address : option Address;
  crt_amenities : option (list string);
}.

Record TLPropertyContent := {
  pc_id : string;
  pc_name : string;
  images : option (list Image);
  stars : option number;
  currency : option string;
  multiLocationProperty : option bool;
  contactInfo : option ContactInfo;
  amenities : option (list Amenity);
  roomTypes : option (list ContentRoomType);
}.

(** [total: { priceBeforeTax?: number; priceAfterTax?: number }].  The
    prices arrive in a JSON body, which carries finite numbers only. *)
Record Total := {
  priceBeforeTax : option Q;
  priceAfterTax : option Q;
}.

Inductive PaymentType := OnSite | Prepay | Guarantee.

Record CancellationPolicy := {
  freeCancellationPossible : option bool;
  freeCancellationDeadlineLocal : option string;
  freeCancellationDeadlineUtc : option string;
  penaltyAmount : option number;
}.

Record IncludedService := {
  is_id : option Z;
  is_mealPlanCode : option string;
}.

Record StayRoomType := {
  rt_id : string;
  rt_name : option string;
  rt_images : option (list Image);
  rt_address : option Address;
}.

Record TLRoomStay := {
  propertyId : string;
  availability : option number;
  currencyCode : option string;
  checksum : option string;
  total : option Total;
  cancellationPolicy : option CancellationPolicy;
  paymentPolicy : option (option PaymentType);
  paymentType : option PaymentType;
  mealPlanCode : option string;
  includedServices : option (list IncludedService);
  ratePlanId : option string;
  roomType : option StayRoomType;
}.

Record GuestCount := {
  adultCount : Z;
  childAges : option (list Z);
}.

(** ** The world around a service call

    The services are asynchronous methods that read and write the shared
    Redis store and call the upstream API.  A call is modelled as a
    function from the world before it to its outcome and the world after
    it.  The wall clock [now] (milliseconds) stands still during one
    call. *)

Inductive exn : Type :=
| UpstreamError (message : string)
| NotFoundException (message : string)
| JsError (message : string).

Record GeoProperty := { gp_id : string }.
Record TLGeoPropsResp := { properties : option (list GeoProperty) }.

(** [TLSearchAggResp]; the code reads it as [resp?.roomStays ?? []]. *)
Record TLSearchAggResp := { roomStays : option (list TLRoomStay) }.

(** The body posted to the aggregated search endpoint. *)
Record SearchBody := {
  sb_propertyIds : list string;
  sb_adults : Z;
  sb_arrivalDate : string;
  sb_departureDate : string;
  sb_currencyCode : string;
  sb_minPrice : Z;
  sb_maxPrice : Z;
}.

(** The upstream API behind [oauthService.get] and [oauthService.post]:
    what the endpoint answers, or that the call throws, when it is the
    [n]-th upstream call since the world began. *)
Record Upstream := {
  geoApi : nat -> string -> outcome exn (option TLGeoPropsResp);
  contentApi : nat -> string -> outcome exn TLPropertyContent;
  searchApi : nat -> SearchBody -> outcome exn (option TLSearchAggResp);
}.

(** An image host answering a download: the body and the
    [content-type] header, if any. *)
Record ImageResponse := {
  body : string;
  contentType : option string;
}.

(** A Redis entry: the value and, when it was set with a TTL, the
    instant (ms) at which it expires. *)
Record World := {
  now : Z;
  calls : nat;
  contentCache : gmap string (TLPropertyContent * option Z);
  files : gmap string string;
}.

Definition withCalls (n : nat) (w : World) : World :=
  {| now := now w; calls := n; contentCache := contentCache w;
     files := files w |}.

Definition withContentCache
    (c : gmap string (TLPropertyContent * option Z)) (w : World) : World :=
  {| now := now w; calls := calls w; contentCache := c; files := files w |}.

Definition withFiles (f : gmap string string) (w : World) : World :=
  {| now := now w; calls := calls w; contentCache := contentCache w;
     files := f |}.

Definition M (A : Type) : Type := World -> outcome exn A * World.

Definition ret {A} (a : A) : M A := fun w => (Ok a, w).

Definition bind {A B} (m : M A) (k : A -> M B) : M B :=
  fun w =>
    match m w with
    | (Ok a, w') => k a w'
    | (Throw e, w') => (Throw e, w')
    end.

Definition throw {A} (e : exn) : M A := fun w => (Throw e, w).

(** [try { m } catch (e) { h e }] *)
Definition tryCatch {A} (m : M A) (h : exn -> M A) : M A :=
  fun w =>
    match m w with
    | (Ok a, w') => (Ok a, w')
    | (Throw e, w') => h e w'
    end.

Notation "'let*' x ':=' m 'in' k" := (bind m (fun x => k))
  (at level 10, x name, m at level 100, k at level 200).

(** One upstream call: the endpoint answers, the call counter moves. *)
Definition upstreamCall {A} (endpoint : nat -> outcome exn A) : M A :=
  fun w => (endpoint (calls w), withCalls (S (calls w)) w).

Fixpoint mapM {A B} (f : A -> M B) (l : list A) : M (list B) :=
  match l with
  | [] => ret []
  | x :: l' => let* y := f x in let* ys := mapM f l' in ret (y :: ys)
  end.

(** [RedisService.getJson] and [RedisService.setJson] on the keys that
    hold property content. *)
Module Redis.

Definition live {V} (now : Z) (entry : V * option Z) : option V :=
  match entry with
  | (v, None) => Some v
  | (v, Some expiry) => if now <? expiry then Some v else None
  end.

Definition lookup {V} (now : Z) (store : gmap string (V * option Z))
    (key : string) : option V :=
  match store !! key with
  | Some entry => live now entry
  | None => None
  end.

(** [set(key, value, ttl)]: [setex] when [ttl] is given and non-zero,
    a plain [set] otherwise. *)
Definition store {V} (now : Z) (s : gmap string (V * option Z))
    (key : string) (v : V) (ttl : option Z) : gmap string (V * option Z) :=
  match ttl with
  | Some t => if t =? 0 then <[key := (v, None)]> s
              else <[key := (v, Some (now + t * 1000))]> s
  | None => <[key := (v, None)]> s
  end.

End Redis.

(** ** Calendar dates as [Date] parses them *)
Module JsDate.

Definition digitOf (c : ascii) : option Z :=
  let n := Z.of_nat (nat_of_ascii c) in
  if (48 <=? n) && (n <=? 57) then Some (n - 48) else None.

Definition num2 (a b : ascii) : option Z :=
  match digitOf a, digitOf b with
  | Some x, Some y => Some (10 * x + y)
  | _, _ => None
  end.

Definition num4 (a b c d : ascii) : option Z :=
  match num2 a b, num2 c d with
  | Some x, Some y => Some (100 * x + y)
  | _, _ => None
  end.

(** The date-time form [YYYY-MM-DDT00:00:00] of the ECMAScript date
    string format, with the element ranges V8 accepts (month 1..12,
    day 1..31).  Any other string is an invalid date here. *)
Definition parseLocalMidnight (s : string) : option (Z * Z * Z) :=
  match s with
  | String y1 (String y2 (String y3 (String y4 (String "-"
      (String m1 (String m2 (String "-" (String d1 (String d2 rest))))))))) =>
      if String.eqb rest "T00:00:00" then
        match num4 y1 y2 y3 y4, num2 m1 m2, num2 d1 d2 with
        | Some y, Some m, Some d =>
            if (1 <=? m) && (m <=? 12) && (1 <=? d) && (d <=? 31)
            then Some (y, m, d) else None
        | _, _, _ => None
        end
      else None
  | _ => None
  end.

Definition isLeap (y : Z) : bool :=
  ((y mod 4 =? 0) && negb (y mod 100 =? 0)) || (y mod 400 =? 0).

(** [DayFromYear] of ECMAScript: the day number of January 1st. *)
Definition dayFromYear (y : Z) : Z :=
  365 * (y - 1970) + (y - 1969) / 4 - (y - 1901) / 100 + (y - 1601) / 400.

Definition daysBeforeMonth (y m : Z) : Z :=
  nth (Z.to_nat (m - 1))
      [0; 31; 59; 90; 120; 151; 181; 212; 243; 273; 304; 334] 0
  + (if (2 <? m) && isLeap y then 1 else 0).

(** [MakeDay(y, m - 1, d)]: days since 1970-01-01. *)
Definition makeDay (ymd : Z * Z * Z) : Z :=
  let '(y, m, d) := ymd in dayFromYear y + daysBeforeMonth y m + d - 1.

Definition msPerDay : Z := 86400000.

Section Zone.
(** [LocalTZA]: the offset (ms) of local time from UTC at a local
    time value; [fun _ => 0] when the process runs in UTC. *)
Variable localTZA : Z -> Z.

(** [+new Date(s)] for a date-time string without offset: the time
    value of that local time, NaN for an invalid date. *)
Definition timeValue (s : string) : number :=
  match parseLocalMidnight s with
  | Some ymd =>
      let t := makeDay ymd * msPerDay in Num.ofZ (t - localTZA t)
  | None => NaN
  end.
End Zone.

End JsDate.

(** ** Search aggregator and content cache ([SearchService]) *)
Module Search.

(** What the platform supplies: the time zone of the process and the
    [ru-RU] date formatting behind [formatRuDate]. *)
Record Platform := {
  localTZA : Z -> Z;
  formatRuDate : string -> string;
}.

(** [rsTotal]: pre-tax total, else post-tax total, else +Infinity. *)
Definition rsTotal (rs : TLRoomStay) : number :=
  match total rs with
  | Some t =>
      match priceBeforeTax t with
      | Some p => Fin p
      | None =>
          match priceAfterTax t with
          | Some p => Fin p
          | None => PosInf
          end
      end
  | None => PosInf
  end.

(** [diffNights(a, b)] *)
Definition diffNights (P : Platform) (a b : string) : number :=
  let ms := Num.sub (JsDate.timeValue (localTZA P) (b +:+ "T00:00:00"))
                    (JsDate.timeValue (localTZA P) (a +:+ "T00:00:00")) in
  Num.max (Num.ofZ 1) (Num.round (Num.div ms (Num.ofZ 86400000))).

(** One turn of the inner loop of [getCheapestByPropertyIds]:
    [if (!cur || total < curTotal) out.set(rs.propertyId, rs)]. *)
Definition keepCheapest (out : gmap string TLRoomStay) (rs : TLRoomStay)
  : gmap string TLRoomStay :=
  let total := rsTotal rs in
  match out !! propertyId rs with
  | None => <[propertyId rs := rs]> out
  | Some cur =>
      if Num.lt total (rsTotal cur) then <[propertyId rs := rs]> out else out
  end.

Definition respList (resp : option TLSearchAggResp) : list TLRoomStay :=
  match resp with
  | Some r => match roomStays r with Some l => l | None => [] end
  | None => []
  end.

Definition CHUNK : nat := 200.

Definition searchBody (batch : list string) (arrival departure : string)
    (guests : GuestCount) (currency : string) : SearchBody :=
  {| sb_propertyIds := batch;
     sb_adults := adultCount guests;
     sb_arrivalDate := arrival;
     sb_departureDate := departure;
     sb_currencyCode := currency;
     sb_minPrice := 0;
     sb_maxPrice := 100000 |}.

Section Service.

Variable U : Upstream.

(** The loop [for (i = 0; i < ids.length; i += CHUNK)] over the ids
    that remain; [fuel] bounds the number of turns. *)
Fixpoint cheapestLoop (fuel : nat) (rest : list string)
    (arrival departure : string) (guests : GuestCount) (currency : string)
    (out : gmap string TLRoomStay) : M (gmap string TLRoomStay) :=
  match rest with
  | [] => ret out
  | _ :: _ =>
      match fuel with
      | O => ret out
      | S fuel' =>
          let batch := take CHUNK rest in
          let* resp :=
            upstreamCall (fun n =>
              searchApi U n
                (searchBody batch arrival departure guests currency)) in
          cheapestLoop fuel' (drop CHUNK rest)
            arrival departure guests currency
            (foldl keepCheapest out (respList resp))
      end
  end.

Definition getCheapestByPropertyIds (ids : list string)
    (arrival departure : string) (guests : GuestCount) (currency : string)
  : M (gmap string TLRoomStay) :=
  cheapestLoop (length ids) ids arrival departure guests currency ∅.

(** The room stays of the answers in the order the loop meets them,
    when the first call of the loop is the [n]-th upstream call: the
    answers of the calls that do not throw, up to the first that
    does. *)
Fixpoint encountered (fuel : nat) (rest : list string)
    (arrival departure : string) (guests : GuestCount) (currency : string)
    (n : nat) : list TLRoomStay :=
  match rest with
  | [] => []
  | _ :: _ =>
      match fuel with
      | O => []
      | S fuel' =>
          match searchApi U n (searchBody (take CHUNK rest) arrival departure
                                 guests currency) with
          | Throw _ => []
          | Ok resp =>
              respList resp ++
              encountered fuel' (drop CHUNK rest)
                arrival departure guests currency (S n)
          end
      end
  end.

Definition encounteredOffers (ids : list string)
    (arrival departure : string) (guests : GuestCount) (currency : string)
    (n : nat) : list TLRoomStay :=
  encountered (length ids) ids arrival departure guests currency n.

(** The [k]-th chunk of the ids and the number of chunks. *)
Definition chunkAt (k : nat) (ids : list string) : list string :=
  take CHUNK (drop (CHUNK * k) ids).

Definition chunkCount (ids : list string) : nat :=
  (length ids + (CHUNK - 1)) / CHUNK.

(** The reading of "a failing chunk does not drop the results of the
    other chunks": every offer that an answered chunk returned is
    accounted for in a map that the call returns. *)
Definition chunkResultsSurvive (ids : list string)
    (arrival departure : string) (guests : GuestCount) (currency : string)
    (w : World) : Prop :=
  forall rs,
    rs ∈ encounteredOffers ids arrival departure guests currency (calls w) ->
    exists out w',
      getCheapestByPropertyIds ids arrival departure guests currency w
        = (Ok out, w')
      /\ is_Some (out !! propertyId rs).

(** *** Content and its cache *)

Definition contentCacheKey (id : string) : string := "hotel:" +:+ id.

(** [redis.getJson(cacheKey)] and [redis.setJson(cacheKey, v, ttl)].
    The store itself is taken as reliable: these two never throw. *)
Definition getJsonContent (key : string) : M (option TLPropertyContent) :=
  fun w => (Ok (Redis.lookup (now w) (contentCache w) key), w).

Definition setJsonContent (key : string) (v : TLPropertyContent) (ttl : Z)
  : M unit :=
  fun w =>
    (Ok tt,
     withContentCache (Redis.store (now w) (contentCache w) key v (Some ttl)) w).

(** [fetchAndCacheContent]: the fetched content, written to the cache
    for a day; [null] when anything in the [try] block throws. *)
Definition fetchAndCacheContent (id : string)
  : M (option TLPropertyContent) :=
  tryCatch
    (let* data := upstreamCall (fun n => contentApi U n id) in
     let* _ := setJsonContent (contentCacheKey id) data 86400 in
     ret (Some data))
    (fun _ => ret None).

Record ContentResult := {
  cached : bool;
  data : TLPropertyContent;
  stale : option bool;
}.

(** [getPropertyContent(id, opts)]; [refresh] is [opts?.refresh]. *)
Definition getPropertyContent (id : string) (refresh : option bool)
  : M ContentResult :=
  let* cachedEntry := getJsonContent (contentCacheKey id) in
  match cachedEntry, refresh with
  | Some c, (None | Some false) =>
      ret {| cached := true; data := c; stale := None |}
  | _, _ =>
      let* fresh := fetchAndCacheContent id in
      match fresh with
      | Some f => ret {| cached := false; data := f; stale := None |}
      | None =>
          match cachedEntry with
          | Some c => ret {| cached := true; data := c; stale := Some true |}
          | None =>
              throw (NotFoundException
                       ("Property " +:+ id +:+ " content not available"))
          end
      end
  end.

Definition getPropertyIdsByCity (cityId : string) : M (list string) :=
  let* resp := upstreamCall (fun n => geoApi U n cityId) in
  ret (map gp_id (default [] (resp ≫= properties))).

(** First loop of [getContentForIds]: serve what the cache holds,
    note the misses. *)
Fixpoint scanCache (ids : list string)
    (result : gmap string TLPropertyContent) (misses : list string)
  : M (gmap string TLPropertyContent * list string) :=
  match ids with
  | [] => ret (result, misses)
  | id :: ids' =>
      let* cachedEntry := getJsonContent (contentCacheKey id) in
      match cachedEntry with
      | Some c => scanCache ids' (<[id := c]> result) misses
      | None => scanCache ids' result (misses ++ [id])
      end
  end.

Definition PARALLEL : nat := 10.

(** [loaded.forEach((c, idx) => c && result.set(chunk[idx], c))] *)
Definition recordLoaded (result : gmap string TLPropertyContent)
    (entry : string * option TLPropertyContent)
  : gmap string TLPropertyContent :=
  match entry with
  | (pid, Some c) => <[pid := c]> result
  | (_, None) => result
  end.

(** Second loop: the misses in windows of [PARALLEL]; the fetches of
    one window are started together and awaited with [Promise.all],
    here they answer in the order of the window. *)
Fixpoint loadMisses (fuel : nat) (misses : list string)
    (result : gmap string TLPropertyContent)
  : M (gmap string TLPropertyContent) :=
  match misses with
  | [] => ret result
  | _ :: _ =>
      match fuel with
      | O => ret result
      | S fuel' =>
          let chunk := take PARALLEL misses in
          let* loaded := mapM fetchAndCacheContent chunk in
          loadMisses fuel' (drop PARALLEL misses)
            (foldl recordLoaded result (zip chunk loaded))
      end
  end.

Definition getContentForIds (ids : list string)
  : M (gmap string TLPropertyContent) :=
  let* scanned := scanCache ids ∅ [] in
  loadMisses (length (snd scanned)) (snd scanned) (fst scanned).

(** *** Cards *)

Record Price := { value : number; price_currency : string; per : string }.

Inductive FreeCancel : Type :=
| FreeCancelFlag (b : bool)
| FreeCancelUntil (text : string).

Record HotelCard := {
  hc_id : string;
  hc_name : string;
  hc_address : string;
  hc_lat : option number;
  hc_lon : option number;
  hc_stars : option number;
  hc_thumbnail : list string;
  hc_amenities : list string;
  hc_roomName : string;
  hc_mealLabel : option string;
  hc_freeCancel : FreeCancel;
  hc_payOnSite : bool;
  hc_price : Price;
  hc_guestsNote : string;
}.

(** A string operand of [||] or of [filter(Boolean)]: kept when it is
    present and not empty. *)
Definition truthy (s : option string) : option string :=
  match s with
  | Some "" => None
  | _ => s
  end.

Definition orElse {A} (a b : option A) : option A :=
  match a with Some _ => a | None => b end.

(** [[a, b].filter(Boolean).join(', ')] *)
Definition joinParts (parts : list (option string)) : string :=
  String.concat ", " (omap truthy parts).

(** [String(x)] of an optional string. *)
Definition jsString (s : option string) : string := default "undefined" s.

Definition nonEmptyImages (l : option (list Image)) : bool :=
  match l with Some (_ :: _) => true | _ => false end.

Definition quote : string := String (ascii_of_nat 34) "".

(** [mealLabel(code)]: the fixed table, the empty label for a code it
    does not list. *)
Definition mealLabel (code : string) : string :=
  if String.eqb code "AllInclusive" then "Всё включено"
  else if String.eqb code "FullBoard" then "Трёхразовое питание"
  else if String.eqb code "HalfBoard" then "Полупансион"
  else if String.eqb code "Breakfast" then "Завтрак"
  else if String.eqb code "BreakFast" then "Завтрак"
  else if String.eqb code "ContinentalBreakfast" then "Континентальный завтрак"
  else if String.eqb code "BuffetDinner"
       then "Ужин " +:+ quote +:+ "Шведский стол" +:+ quote
  else "".

Definition ruPlural (n : Z) (f1 f2 f5 : string) : string :=
  let v := Z.abs n mod 100 in
  let v1 := v mod 10 in
  if (10 <? v) && (v <? 20) then f5
  else if (1 <? v1) && (v1 <? 5) then f2
  else if v1 =? 1 then f1
  else f5.

(** [[...new Set(codes)]]: first occurrences, in order. *)
Fixpoint dedup (seen l : list string) : list string :=
  match l with
  | [] => []
  | x :: l' =>
      if bool_decide (x ∈ seen) then dedup seen l'
      else x :: dedup (x :: seen) l'
  end.

(** [rs.mealPlanCode ||
     rs.includedServices?.find((s) => s.mealPlanCode)?.mealPlanCode ||
     undefined] *)
Definition mealCodeOf (rs : TLRoomStay) : option string :=
  let withMeal s := bool_decide (is_Some (truthy (is_mealPlanCode s))) in
  orElse (truthy (mealPlanCode rs))
    (truthy (List.find withMeal (default [] (includedServices rs))
             ≫= is_mealPlanCode)).

(** The per-night price shown on a card or an offer. *)
Definition perNightOf (priceTotal nights : number) : number :=
  Num.max (Num.ofZ 1)
    (Num.round (Num.div priceTotal (Num.max (Num.ofZ 1) nights))).

Variable P : Platform.

Definition freeCancelOf (rs : TLRoomStay) : FreeCancel :=
  match cancellationPolicy rs with
  | Some cp =>
      match freeCancellationPossible cp with
      | Some true =>
          match truthy (freeCancellationDeadlineLocal cp) with
          | Some deadline =>
              FreeCancelUntil ("до " +:+ formatRuDate P deadline)
          | None => FreeCancelFlag true
          end
      | _ => FreeCancelFlag false
      end
  | None => FreeCancelFlag false
  end.

Definition buildCard (content : TLPropertyContent) (rs : TLRoomStay)
    (nights : number) (guests : GuestCount) : HotelCard :=
  let priceTotal := rsTotal rs in
  let perNight := perNightOf priceTotal nights in
  let currency :=
    default "RUB" (orElse (truthy (currencyCode rs))
                          (truthy (currency content))) in
  let rtFromContent :=
    roomTypes content ≫=
      List.find (fun rt =>
        String.eqb (crt_id rt) (jsString (rt_id <$> roomType rs))) in
  let rsAddress := roomType rs ≫= rt_address in
  let rtAddress := rtFromContent ≫= crt_address in
  let contactAddress := contactInfo content ≫= address in
  let addr :=
    if default false (multiLocationProperty content)
       && bool_decide (is_Some (orElse rsAddress rtAddress))
    then joinParts
           [orElse (rsAddress ≫= addressLine) (rtAddress ≫= addressLine);
            orElse (rsAddress ≫= cityName) (rtAddress ≫= cityName)]
    else joinParts
           [contactAddress ≫= ca_addressLine;
            contactAddress ≫= ca_cityName] in
  let thumbImages :=
    default []
      (if nonEmptyImages (rtFromContent ≫= crt_images)
       then rtFromContent ≫= crt_images
       else if nonEmptyImages (roomType rs ≫= rt_images)
            then roomType rs ≫= rt_images
            else images content) in
  let mealCode := mealCodeOf rs in
  let payOnSite :=
    match paymentPolicy rs, paymentType rs with
    | Some (Some OnSite), _ | _, Some OnSite => true
    | _, _ => false
    end in
  let guestsTotal :=
    adultCount guests
    + Z.of_nat (length (default [] (childAges guests))) in
  {| hc_id := pc_id content;
     hc_name := pc_name content;
     hc_address := addr;
     hc_lat := contactAddress ≫= latitude;
     hc_lon := contactAddress ≫= longitude;
     hc_stars := stars content;
     hc_thumbnail := map url thumbImages;
     hc_amenities := dedup [] (map code (default [] (amenities content)));
     hc_roomName :=
       default "Номер"
         (orElse (roomType rs ≫= rt_name) (rtFromContent ≫= crt_name));
     hc_mealLabel := mealLabel <$> mealCode;
     hc_freeCancel := freeCancelOf rs;
     hc_payOnSite := payOnSite;
     hc_price := {| value := perNight; price_currency := currency;
                    per := "night" |};
     hc_guestsNote :=
       "за ночь для " +:+ pretty guestsTotal +:+ " гост"
       +:+ ruPlural guestsTotal "я" "ей" "ов" |}.

(** *** The listing *)

(** [Array.prototype.slice(start, end)] on integer indices. *)
Definition relativeIndex (len i : Z) : Z :=
  if i <? 0 then Z.max (len + i) 0 else Z.min i len.

Definition jsSlice {A} (l : list A) (start stop : Z) : list A :=
  let len := Z.of_nat (length l) in
  let k := relativeIndex len start in
  let final := relativeIndex len stop in
  take (Z.to_nat (final - k)) (drop (Z.to_nat k) l).

(** [cards.sort((a, b) => a.price.value - b.price.value)].  The sort
    of the platform is stable, and puts [a] after [b] only when the
    comparator is positive on [(a, b)]; it is modelled as a stable
    insertion sort. *)
Definition byPrice (a b : HotelCard) : number :=
  Num.sub (value (hc_price a)) (value (hc_price b)).

Definition positive (x : number) : bool := Num.lt (Num.ofZ 0) x.

Fixpoint insertBy {A} (cmp : A -> A -> number) (x : A) (l : list A)
  : list A :=
  match l with
  | [] => [x]
  | y :: l' => if positive (cmp x y) then y :: insertBy cmp x l'
               else x :: l
  end.

Definition sortBy {A} (cmp : A -> A -> number) (l : list A) : list A :=
  foldr (insertBy cmp) [] l.

Record ListOptions := {
  lo_currency : option string;
  lo_limit : option Z;
  lo_offset : option Z;
}.

(** The loop that glues content and cheapest offer into cards: an id
    without content or without offer is skipped. *)
Definition cardsFor (sliced : list string)
    (contentById : gmap string TLPropertyContent)
    (cheapestById : gmap string TLRoomStay)
    (nights : number) (guests : GuestCount) : list HotelCard :=
  omap (fun id =>
          match contentById !! id, cheapestById !! id with
          | Some content, Some offer =>
              Some (buildCard content offer nights guests)
          | _, _ => None
          end) sliced.

(** The page of ids the listing works on:
    [ids.slice(opts?.offset ?? 0, opts?.limit ? start + opts.limit : ids.length)]. *)
Definition pageOf (opts : option ListOptions) (ids : list string)
  : list string :=
  let start := default 0 (opts ≫= lo_offset) in
  let stop :=
    match opts ≫= lo_limit with
    | Some limit => if limit =? 0 then Z.of_nat (length ids)
                    else start + limit
    | None => Z.of_nat (length ids)
    end in
  jsSlice ids start stop.

Definition getHotelsList (cityId arrival departure : string)
    (guests : GuestCount) (opts : option ListOptions) : M (list HotelCard) :=
  let currency := default "RUB" (opts ≫= lo_currency) in
  let* ids := getPropertyIdsByCity cityId in
  match ids with
  | [] => ret []
  | _ :: _ =>
      let sliced := pageOf opts ids in
      let* contentById := getContentForIds sliced in
      let* cheapestById :=
        getCheapestByPropertyIds sliced arrival departure guests currency in
      let nights := diffNights P arrival departure in
      ret (sortBy byPrice
             (cardsFor sliced contentById cheapestById nights guests))
  end.

End Service.

(** *** Notions used to state the properties of the service *)

(** [r] is the first offer of property [pid] in [offers] whose total is
    minimal: it stands at some position [i], no offer of the property
    is strictly cheaper, and every earlier offer of the property is
    strictly dearer. *)
Definition firstCheapest (offers : list TLRoomStay) (pid : string)
    (r : TLRoomStay) : Prop :=
  exists i : nat,
    offers !! i = Some r /\ propertyId r = pid /\
    (forall o, o ∈ offers -> propertyId o = pid ->
               Num.lt (rsTotal o) (rsTotal r) = false) /\
    (forall (j : nat) o, (j < i)%nat -> offers !! j = Some o ->
               propertyId o = pid ->
               Num.lt (rsTotal r) (rsTotal o) = true).

(** What the index holds for [pid] after the offers [offers]. *)
Definition indexes (out : gmap string TLRoomStay) (offers : list TLRoomStay)
  : Prop :=
  forall pid,
    match out !! pid with
    | None => forall o, o ∈ offers -> propertyId o <> pid
    | Some r => firstCheapest offers pid r
    end.

(** The per-night price of a total over [n] nights: the nearest integer
    of the quotient, at least 1; an offer without price stays
    unpriced. *)
Definition roundedPerNight (priceTotal : number) (n : Z) : number :=
  match priceTotal with
  | Fin q => Num.ofZ (Z.max 1 (NumSpec.nearest (q / inject_Z n)))
  | other => other
  end.

Definition notCheaper (a b : HotelCard) : Prop :=
  Num.lt (value (hc_price b)) (value (hc_price a)) = false.

(** The cards of the loop, one by one: a card for each id of the page
    that has both content and a cheapest offer, in the order of the
    page, built from these two. *)
Definition hasBoth (contentById : gmap string TLPropertyContent)
    (cheapestById : gmap string TLRoomStay) (id : string) : Prop :=
  is_Some (contentById !! id) /\ is_Some (cheapestById !! id).

Definition cardOf P (contentById : gmap string TLPropertyContent)
    (cheapestById : gmap string TLRoomStay) (nights : number)
    (guests : GuestCount) (id : string) (card : HotelCard) : Prop :=
  exists content offer,
    contentById !! id = Some content /\ cheapestById !! id = Some offer
    /\ card = buildCard P content offer nights guests.

#[global] Instance hasBoth_dec contentById cheapestById id :
  Decision (hasBoth contentById cheapestById id).
Proof. unfold hasBoth. apply _. Defined.

(** The world after a content fetch that answered [fresh]. *)
Definition afterFetch (id : string) (fresh : TLPropertyContent) (w : World)
  : World :=
  withContentCache
    (<[contentCacheKey id := (fresh, Some (now w + 86400 * 1000))]>
       (contentCache w))
    (withCalls (S (calls w)) w).

End Search.

(** ** Text as bytes

    A JavaScript string is held as its UTF-8 bytes (a Rocq [string]):
    [Buffer.from(s)] is then the string itself, and
    [buffer.toString('utf-8')] keeps well-formed byte sequences and
    puts U+FFFD in place of the others. *)
Module Utf8.

Definition byte (c : ascii) : N := N_of_ascii c.

Definition within (lo hi x : N) : bool := ((lo <=? x) && (x <=? hi))%N.

(** U+FFFD in UTF-8: EF BF BD. *)
Definition replacement : string :=
  String (ascii_of_N 239) (String (ascii_of_N 191) (String (ascii_of_N 189) "")).

(** The decoder of the Encoding standard: idle, or inside a sequence
    with [needed] bytes to come, the next of them within
    [lower..upper], and the bytes read so far. *)
Inductive decoder : Type :=
| Idle
| Inside (needed : nat) (lower upper : N) (seen : string).

(** A byte met when idle. *)
Definition start (c : ascii) : string * decoder :=
  let x := byte c in
  if within 0 127 x then (String c "", Idle)
  else if within 194 223 x then ("", Inside 1 128 191 (String c ""))
  else if within 224 239 x then
    ("", Inside 2 (if (x =? 224)%N then 160 else 128)%N
                  (if (x =? 237)%N then 159 else 191)%N (String c ""))
  else if within 240 244 x then
    ("", Inside 3 (if (x =? 240)%N then 144 else 128)%N
                  (if (x =? 244)%N then 143 else 191)%N (String c ""))
  else (replacement, Idle).

(** One byte: what is emitted and the next state.  A byte that cannot
    continue the sequence ends it with U+FFFD and is read again as the
    start of a new one. *)
Definition step (st : decoder) (c : ascii) : string * decoder :=
  match st with
  | Idle => start c
  | Inside needed lower upper seen =>
      if within lower upper (byte c) then
        match needed with
        | S (S n) => ("", Inside (S n) 128 191 (seen +:+ String c ""))
        | _ => (seen +:+ String c "", Idle)
        end
      else (replacement +:+ fst (start c), snd (start c))
  end.

Fixpoint decodeFrom (st : decoder) (s : string) : string :=
  match s with
  | "" => match st with Idle => "" | Inside _ _ _ _ => replacement end
  | String c s' => fst (step st c) +:+ decodeFrom (snd (step st c)) s'
  end.

(** [buffer.toString('utf-8')] *)
Definition decode (bytes : string) : string := decodeFrom Idle bytes.

(** Well-formed UTF-8 (Unicode, table 3-7): the byte strings that stand
    for a JavaScript string. *)
Fixpoint wellFormed (s : string) : bool :=
  match s with
  | "" => true
  | String a r1 =>
      let x := byte a in
      if within 0 127 x then wellFormed r1
      else
        match r1 with
        | "" => false
        | String b r2 =>
            let y := byte b in
            if within 194 223 x then within 128 191 y && wellFormed r2
            else
              match r2 with
              | "" => false
              | String c r3 =>
                  let z := byte c in
                  if within 224 239 x then
                    within (if (x =? 224)%N then 160 else 128)%N
                           (if (x =? 237)%N then 159 else 191)%N y
                    && within 128 191 z && wellFormed r3
                  else
                    match r3 with
                    | "" => false
                    | String d r4 =>
                        within 240 244 x
                        && within (if (x =? 240)%N then 144 else 128)%N
                                  (if (x =? 244)%N then 143 else 191)%N y
                        && within 128 191 z && within 128 191 (byte d)
                        && wellFormed r4
                    end
              end
        end
  end.

End Utf8.

(** ** Base64url as Node's [Buffer] writes and reads it *)
Module Base64.

Definition alphabet : string :=
  "ABCDEFGHIJKLMNOPQRSTUVWXYZabcdefghijklmnopqrstuvwxyz0123456789-_".

Definition charOf (sextet : N) : ascii :=
  default "A"%char (String.get (N.to_nat sextet) alphabet).

(** The value of a character of either alphabet ([+] and [-] are 62,
    [/] and [_] are 63); no value for any other character. *)
Definition unbase64 (c : ascii) : option N :=
  let x := N_of_ascii c in
  if Utf8.within 65 90 x then Some (x - 65)%N
  else if Utf8.within 97 122 x then Some (x - 97 + 26)%N
  else if Utf8.within 48 57 x then Some (x - 48 + 52)%N
  else if (x =? 43)%N || (x =? 45)%N then Some 62%N
  else if (x =? 47)%N || (x =? 95)%N then Some 63%N
  else None.

(** Three bytes make four sextets; a rest of one or two bytes makes two
    or three, without padding. *)
Fixpoint sextetsOf (bytes : list N) : list N :=
  match bytes with
  | a :: b :: c :: rest =>
      (a / 4 :: (a mod 4) * 16 + b / 16 :: (b mod 16) * 4 + c / 64
         :: c mod 64 :: sextetsOf rest)%N
  | [a; b] => [a / 4; (a mod 4) * 16 + b / 16; (b mod 16) * 4]%N
  | [a] => [a / 4; (a mod 4) * 16]%N
  | [] => []
  end.

Definition bytesOfString (s : string) : list N :=
  map N_of_ascii (list_ascii_of_string s).

Definition stringOfBytes (l : list N) : string :=
  string_of_list_ascii (map ascii_of_N l).

(** [buffer.toString('base64url')] *)
Definition encode (bytes : string) : string :=
  string_of_list_ascii (map charOf (sextetsOf (bytesOfString bytes))).

(** The sextets a decoder reads off a string: characters without value
    are skipped, a [=] ends the reading. *)
Fixpoint legalSextets (s : string) : list N :=
  match s with
  | "" => []
  | String c r =>
      match unbase64 c with
      | Some v => v :: legalSextets r
      | None => if Ascii.eqb c "="%char then [] else legalSextets r
      end
  end.

(** Four sextets make three bytes; a rest of two or three sextets makes
    one or two bytes, a single sextet none. *)
Fixpoint bytesOfSextets (l : list N) : list N :=
  match l with
  | s1 :: s2 :: s3 :: s4 :: rest =>
      (s1 * 4 + s2 / 16 :: (s2 mod 16) * 16 + s3 / 4
         :: (s3 mod 4) * 64 + s4 :: bytesOfSextets rest)%N
  | [s1; s2; s3] => [s1 * 4 + s2 / 16; (s2 mod 16) * 16 + s3 / 4]%N
  | [s1; s2] => [s1 * 4 + s2 / 16]%N
  | _ => []
  end.

(** [Buffer.from(s, 'base64url')]: it never throws. *)
Definition decode (s : string) : string :=
  stringOfBytes (bytesOfSextets (legalSextets s)).

End Base64.

(** ** Image proxy ([ImageProxyService]) *)
Module ImageProxy.

(** [encodeUrl] and [decodeUrl] *)
Definition encodeUrl (url : string) : string := Base64.encode url.

Definition decodeUrl (encoded : string) : string :=
  Utf8.decode (Base64.decode encoded).

Definition includes (needle hay : string) : bool :=
  bool_decide (is_Some (String.index 0 needle hay)).

(** [transformUrl(originalUrl, baseUrl)]; [apiBaseUrl] stands for
    [baseUrl || process.env.API_BASE_URL || '']. *)
Definition transformUrl (apiBaseUrl originalUrl : string) : string :=
  if String.eqb originalUrl "" then originalUrl
  else if includes "/images/proxy" originalUrl then originalUrl
  else apiBaseUrl +:+ "/images/proxy?url=" +:+ encodeUrl originalUrl.

Definition transformUrls (apiBaseUrl : string) (urls : list string)
  : list string :=
  map (transformUrl apiBaseUrl) urls.

Definition extToContentType (ext : string) : string :=
  if String.eqb ext "jpg" then "image/jpeg"
  else if String.eqb ext "jpeg" then "image/jpeg"
  else if String.eqb ext "png" then "image/png"
  else if String.eqb ext "webp" then "image/webp"
  else if String.eqb ext "gif" then "image/gif"
  else "image/jpeg".

(** [contentType.split(';')[0]] *)
Fixpoint beforeSemicolon (s : string) : string :=
  match s with
  | "" => ""
  | String c r => if Ascii.eqb c ";"%char then "" else String c (beforeSemicolon r)
  end.

Definition contentTypeToExt (contentType : string) : string :=
  let t := beforeSemicolon contentType in
  if String.eqb t "image/jpeg" then "jpg"
  else if String.eqb t "image/jpg" then "jpg"
  else if String.eqb t "image/png" then "png"
  else if String.eqb t "image/webp" then "webp"
  else if String.eqb t "image/gif" then "gif"
  else "jpg".

Record Served := {
  buffer : string;
  served_contentType : string;
}.

Section Service.

(** [createHash('md5').update(url).digest('hex')] *)
Variable md5hex : string -> string.

(** The image hosts behind [axios.get(url)]. *)
Variable download : nat -> string -> outcome exn ImageResponse.

Definition urlToHash (url : string) : string := md5hex url.

Definition fileName (hash ext : string) : string := hash +:+ "." +:+ ext.

(** [findCachedFile(hash)]: the first of the known extensions under
    which a file exists. *)
Definition findCachedFile (fs : gmap string string) (hash : string)
  : option (string * string) :=
  (fun ext => (fileName hash ext, extToContentType ext)) <$>
    List.find (fun ext => bool_decide (is_Some (fs !! fileName hash ext)))
      ["jpg"; "jpeg"; "png"; "webp"; "gif"].

(** [downloadAndCache(hash, url)]: whatever throws inside the [try]
    block becomes the "Failed to fetch image" error. *)
Definition downloadAndCache (hash url : string) : M Served :=
  tryCatch
    (let* response := upstreamCall (fun n => download n url) in
     let contentType :=
       default "image/jpeg" (Search.truthy (contentType response)) in
     let ext := contentTypeToExt contentType in
     fun w =>
       (Ok {| buffer := body response; served_contentType := contentType |},
        withFiles (<[fileName hash ext := body response]> (files w)) w))
    (fun _ => throw (NotFoundException "Failed to fetch image")).

(** [getImageByEncodedUrl(encodedUrl)].  The [try] block around
    [decodeUrl] is kept as the code has it. *)
Definition getImageByEncodedUrl (encodedUrl : string) : M Served :=
  let* originalUrl :=
    tryCatch (ret (decodeUrl encodedUrl))
             (fun _ => throw (NotFoundException "Invalid image URL")) in
  let hash := urlToHash originalUrl in
  fun w =>
    match findCachedFile (files w) hash with
    | Some (path, contentType) =>
        (Ok {| buffer := default "" (files w !! path);
               served_contentType := contentType |}, w)
    | None => downloadAndCache hash originalUrl w
    end.

End Service.

End ImageProxy.

(** ** Offer page ([OfferService]) *)
Module Offer.

Record OfferPrice := {
  op_total : number;
  perNight : number;
  op_currency : string;
}.

Record OfferCancellation := {
  oc_freeCancellationPossible : bool;
  oc_freeCancellationDeadlineLocal : option string;
  oc_freeCancellationDeadlineUtc : option string;
  oc_penaltyAmount : option number;
  oc_penaltyCurrency : string;
}.

Record RoomOffer := {
  roomTypeId : string;
  roomTypeName : string;
  ro_mealLabel : option string;
  ro_paymentType : option PaymentType;
  price : OfferPrice;
  ro_images : list string;
  ro_addressLine : option string;
  ro_ratePlanId : option string;
  ro_amenities : list string;
  ro_availability : option number;
  ro_cancellationPolicy : OfferCancellation;
}.

Record PropertyHeader := {
  ph_id : string;
  ph_name : string;
  ph_address : string;
  ph_stars : option number;
  ph_lat : option number;
  ph_lon : option number;
  ph_thumbnail : option string;
  ph_amenities : option (list Amenity);
}.

Record PropertyOffersResponse := {
  property : PropertyHeader;
  por_nights : number;
  por_guests : GuestCount;
  por_currency : string;
  minPrice : option number;
  offers : list RoomOffer;
}.

(** [Math.min(...values)] *)
Definition min2 (a b : number) : number :=
  match a, b with
  | NaN, _ | _, NaN => NaN
  | _, _ => if Num.lt b a then b else a
  end.

Definition minOf (values : list number) : number := foldl min2 PosInf values.

(** [mapRoomStayToOffer(content, rs, nights)]; [apiBaseUrl] is the
    base the image proxy prefixes. *)
Definition mapRoomStayToOffer (apiBaseUrl : string)
    (content : TLPropertyContent) (rs : TLRoomStay) (nights : number)
  : RoomOffer :=
  let rt :=
    roomTypes content ≫=
      List.find (fun rt =>
        match roomType rs with
        | Some srt => String.eqb (crt_id rt) (rt_id srt)
        | None => false
        end) in
  let mealCode := Search.mealCodeOf rs in
  let currency :=
    default "RUB" (Search.orElse (Search.truthy (currencyCode rs))
                                 (Search.truthy (currency content))) in
  let cp := cancellationPolicy rs in
  let total := Search.rsTotal rs in
  let perNight := Search.perNightOf total nights in
  let chosenImages :=
    if Search.nonEmptyImages (rt ≫= crt_images)
    then default [] (rt ≫= crt_images)
    else default [] (roomType rs ≫= rt_images) in
  {| roomTypeId :=
       default "" (Search.orElse (rt_id <$> roomType rs) (crt_id <$> rt));
     roomTypeName :=
       default "Номер" (Search.orElse (roomType rs ≫= rt_name) (rt ≫= crt_name));
     ro_mealLabel := Search.mealLabel <$> mealCode;
     ro_paymentType :=
       match paymentPolicy rs with
       | Some (Some t) => Some t
       | _ => paymentType rs
       end;
     price := {| op_total := total; perNight := perNight;
                 op_currency := currency |};
     ro_images := ImageProxy.transformUrls apiBaseUrl (map url chosenImages);
     ro_addressLine :=
       Search.orElse ((roomType rs ≫= rt_address) ≫= addressLine)
                     ((rt ≫= crt_address) ≫= addressLine);
     ro_ratePlanId := ratePlanId rs;
     ro_amenities := default [] (rt ≫= crt_amenities);
     ro_availability := availability rs;
     ro_cancellationPolicy :=
       {| oc_freeCancellationPossible :=
            default false (cp ≫= freeCancellationPossible);
          oc_freeCancellationDeadlineLocal :=
            cp ≫= freeCancellationDeadlineLocal;
          oc_freeCancellationDeadlineUtc := cp ≫= freeCancellationDeadlineUtc;
          oc_penaltyAmount := cp ≫= penaltyAmount;
          oc_penaltyCurrency := currency |} |}.

(** [(guests.childAges ?? []).sort((a, b) => a - b)], the first thing
    [getRoomStaysWithDedup] does.  The sort is in place: from then on
    the [guests] object of the caller holds the sorted ages. *)
Fixpoint insertAge (x : Z) (l : list Z) : list Z :=
  match l with
  | [] => [x]
  | y :: l' => if y <? x then y :: insertAge x l' else x :: l
  end.

Definition sortAges (l : list Z) : list Z := foldr insertAge [] l.

Definition sortedGuests (guests : GuestCount) : GuestCount :=
  {| adultCount := adultCount guests;
     childAges := sortAges <$> childAges guests |}.

(** What [getPropertyOffers] does once its two awaits, the content and
    the room stays, have returned. *)
Definition assembleOffers (P : Search.Platform) (apiBaseUrl : string)
    (content : TLPropertyContent) (roomStays : list TLRoomStay)
    (arrival departure : string) (guests : GuestCount) (currency : string)
  : PropertyOffersResponse :=
  let nights := Search.diffNights P arrival departure in
  let offers := map (fun rs => mapRoomStayToOffer apiBaseUrl content rs nights)
                    roomStays in
  let minPerNight :=
    match offers with
    | [] => None
    | _ :: _ => Some (minOf (map (fun o => perNight (price o)) offers))
    end in
  let contactAddress := contactInfo content ≫= address in
  let rawThumbnail :=
    Search.orElse (url <$> (images content ≫= head))
      (url <$> (((head roomStays ≫= roomType) ≫= rt_images) ≫= head)) in
  {| property :=
       {| ph_id := pc_id content;
          ph_name := pc_name content;
          ph_address :=
            Search.joinParts [contactAddress ≫= ca_addressLine;
                              contactAddress ≫= ca_cityName];
          ph_stars := stars content;
          ph_lat := contactAddress ≫= latitude;
          ph_lon := contactAddress ≫= longitude;
          ph_thumbnail :=
            ImageProxy.transformUrl apiBaseUrl <$> Search.truthy rawThumbnail;
          ph_amenities := amenities content |};
     por_nights := nights;
     por_guests := sortedGuests guests;
     por_currency := currency;
     minPrice := minPerNight;
     offers := offers |}.

(** *** Room stays with deduplication *)

Record Request := {
  rq_propertyId : string;
  rq_arrival : string;
  rq_departure : string;
  rq_guests : GuestCount;
  rq_currency : string;
}.

Definition requestKey (r : Request) : string :=
  "rs:" +:+ rq_propertyId r +:+ ":" +:+ rq_arrival r +:+ ":"
  +:+ rq_departure r +:+ ":" +:+ pretty (adultCount (rq_guests r)) +:+ ":"
  +:+ String.concat "," (map pretty (sortAges (default [] (childAges (rq_guests r)))))
  +:+ ":" +:+ rq_currency r.

Definition cacheKey (r : Request) : string :=
  "search:room-stays:" +:+ requestKey r.

(** [(result?.roomStays ?? []).filter((rs) => rs.propertyId === propertyId)],
    applied to the answer of the fetch by its owner and by its
    followers (and, in the revision of [getPropertyOffers] without
    deduplication, to the answer of the upstream call itself). *)
Definition ownStays (pid : string) (result : option TLSearchAggResp)
  : list TLRoomStay :=
  List.filter (fun rs => String.eqb (propertyId rs) pid)
    (Search.respList result).

(** What the two upstream shapes answer to one [fetchRoomStays]: the GET
    with query parameters and the POST it falls back to. *)
Record FetchAnswers := {
  viaGet : outcome exn (option TLSearchAggResp);
  viaPost : outcome exn (option TLSearchAggResp);
}.

(** [fetchRoomStays]: the GET, and the POST when the GET throws. *)
Definition fetchRoomStays (answers : FetchAnswers)
  : outcome exn (option TLSearchAggResp) :=
  match viaGet answers with
  | Ok r => Ok r
  | Throw _ => viaPost answers
  end.

(** The promise that [fetchRoomStays] returns. *)
Inductive promise : Type :=
| Pending
| Settled (result : outcome exn (option TLSearchAggResp)).

(** Where a call of [getRoomStaysWithDedup] stands.  The call suspends
    at each [await]: on the Redis reads and writes and on the fetch. *)
Inductive phase : Type :=
| CacheGetIssued
| CacheGetServed (cachedStays : option (list TLRoomStay))
| AwaitingAsFollower (p : nat)
| AwaitingAsOwner (p : nat)
| CacheSetIssued (p : nat) (roomStays : list TLRoomStay)
| CacheSetServed (p : nat) (roomStays : list TLRoomStay)
| Returned (roomStays : list TLRoomStay)
| Thrown (e : exn).

(** A call: its arguments, where it stands, and the fetch it joined, if
    it joined one. *)
Record task := {
  request : Request;
  at_ : phase;
  joined : option nat;
}.

(** The service and its Redis connection.  [promises] lists the calls
    of [fetchRoomStays] so far, each with the task that made it;
    [redisSent] are the tasks whose Redis command is on its way to the
    server and [redisReplies] those whose reply is on its way back,
    oldest first. *)
Record State := {
  clock : Z;
  staysCache : gmap string (list TLRoomStay * option Z);
  inFlightRequests : gmap string nat;
  promises : list (nat * promise);
  tasks : list task;
  redisSent : list nat;
  redisReplies : list nat;
}.


(** What may happen next.  [Resume t] runs the continuation of a task
    that awaits a settled fetch. *)
Inductive event : Type :=
| Advance (ms : Z)
| Invoke (r : Request)
| RedisServe
| RedisReply
| Settle (p : nat) (answers : FetchAnswers)
| Resume (t : nat).

Definition setTask (t : nat) (ph : phase) (j : option nat) (st : State)
  : State :=
  match tasks st !! t with
  | Some tk =>
      {| clock := clock st; staysCache := staysCache st;
         inFlightRequests := inFlightRequests st; promises := promises st;
         tasks := <[t := {| request := request tk; at_ := ph; joined := j |}]>
                    (tasks st);
         redisSent := redisSent st; redisReplies := redisReplies st |}
  | None => st
  end.

Definition withRedis (sent replies : list nat) (st : State) : State :=
  {| clock := clock st; staysCache := staysCache st;
     inFlightRequests := inFlightRequests st; promises := promises st;
     tasks := tasks st; redisSent := sent; redisReplies := replies |}.

Definition withStaysCache (c : gmap string (list TLRoomStay * option Z))
    (st : State) : State :=
  {| clock := clock st; staysCache := c;
     inFlightRequests := inFlightRequests st; promises := promises st;
     tasks := tasks st; redisSent := redisSent st;
     redisReplies := redisReplies st |}.

Definition withInFlight (m : gmap string nat) (st : State) : State :=
  {| clock := clock st; staysCache := staysCache st;
     inFlightRequests := m; promises := promises st;
     tasks := tasks st; redisSent := redisSent st;
     redisReplies := redisReplies st |}.

Definition withPromises (ps : list (nat * promise)) (st : State) : State :=
  {| clock := clock st; staysCache := staysCache st;
     inFlightRequests := inFlightRequests st; promises := ps;
     tasks := tasks st; redisSent := redisSent st;
     redisReplies := redisReplies st |}.

(** The continuation after [await this.redis.getJson(cacheKey)]: a
    cache hit returns; else a registered handle is awaited; else the
    fetch is started and registered, in one synchronous stretch. *)
Definition afterCacheGet (t : nat) (tk : task)
    (cachedStays : option (list TLRoomStay)) (st : State) : State :=
  match cachedStays with
  | Some stays => setTask t (Returned stays) None st
  | None =>
      match inFlightRequests st !! requestKey (request tk) with
      | Some p => setTask t (AwaitingAsFollower p) (Some p) st
      | None =>
          let p := length (promises st) in
          setTask t (AwaitingAsOwner p) (Some p)
            (withInFlight (<[requestKey (request tk) := p]> (inFlightRequests st))
               (withPromises (promises st ++ [(t, Pending)]) st))
      end
  end.

(** The [finally] block: [this.inFlightRequests.delete(requestKey)]. *)
Definition finally (tk : task) (st : State) : State :=
  withInFlight (delete (requestKey (request tk)) (inFlightRequests st)) st.

Definition step (st : State) (ev : event) : option State :=
  match ev with
  | Advance ms =>
      if 0 <=? ms then
        Some {| clock := clock st + ms; staysCache := staysCache st;
                inFlightRequests := inFlightRequests st;
                promises := promises st; tasks := tasks st;
                redisSent := redisSent st; redisReplies := redisReplies st |}
      else None
  | Invoke r =>
      let t := length (tasks st) in
      Some {| clock := clock st; staysCache := staysCache st;
              inFlightRequests := inFlightRequests st;
              promises := promises st;
              tasks := tasks st ++ [{| request := r; at_ := CacheGetIssued;
                                       joined := None |}];
              redisSent := redisSent st ++ [t];
              redisReplies := redisReplies st |}
  | RedisServe =>
      match redisSent st with
      | [] => None
      | t :: sent =>
          match tasks st !! t with
          | Some tk =>
              match at_ tk with
              | CacheGetIssued =>
                  let v := Redis.lookup (clock st) (staysCache st)
                             (cacheKey (request tk)) in
                  Some (setTask t (CacheGetServed v) (joined tk)
                          (withRedis sent (redisReplies st ++ [t]) st))
              | CacheSetIssued p stays =>
                  Some (setTask t (CacheSetServed p stays) (joined tk)
                          (withStaysCache
                             (Redis.store (clock st) (staysCache st)
                                (cacheKey (request tk)) stays (Some 300))
                             (withRedis sent (redisReplies st ++ [t]) st)))
              | _ => None
              end
          | None => None
          end
      end
  | RedisReply =>
      match redisReplies st with
      | [] => None
      | t :: replies =>
          match tasks st !! t with
          | Some tk =>
              match at_ tk with
              | CacheGetServed v =>
                  Some (afterCacheGet t tk v
                          (withRedis (redisSent st) replies st))
              | CacheSetServed p stays =>
                  Some (setTask t (Returned stays) (joined tk)
                          (finally tk (withRedis (redisSent st) replies st)))
              | _ => None
              end
          | None => None
          end
      end
  | Settle p answers =>
      match promises st !! p with
      | Some (owner, Pending) =>
          Some (withPromises
                  (<[p := (owner, Settled (fetchRoomStays answers))]>
                     (promises st))
                  st)
      | _ => None
      end
  | Resume t =>
      match tasks st !! t with
      | Some tk =>
          match at_ tk with
          | AwaitingAsFollower p =>
              match promises st !! p with
              | Some (_, Settled (Ok result)) =>
                  Some (setTask t
                          (Returned (ownStays (rq_propertyId (request tk)) result))
                          (joined tk) st)
              | Some (_, Settled (Throw e)) =>
                  Some (setTask t (Thrown e) (joined tk) st)
              | _ => None
              end
          | AwaitingAsOwner p =>
              match promises st !! p with
              | Some (_, Settled (Ok result)) =>
                  let stays := ownStays (rq_propertyId (request tk)) result in
                  Some (setTask t (CacheSetIssued p stays) (joined tk)
                          (withRedis (redisSent st ++ [t]) (redisReplies st) st))
              | Some (_, Settled (Throw e)) =>
                  Some (setTask t (Thrown e) (joined tk) (finally tk st))
              | _ => None
              end
          | _ => None
          end
      | None => None
      end
  end.

(** A property id without [:], the separator of the request key. *)
Fixpoint colonFree (s : string) : bool :=
  match s with
  | "" => true
  | String c r => negb (Ascii.eqb c ":"%char) && colonFree r
  end.




(** *** Notions used to state the properties of the runs *)










End Offer.

(** ** OAuth token manager ([OAuthService]) *)
Module OAuth.

Record TokenResponse := {
  access_token : string;
  expires_in : Z;
}.

(** The service instance (its in-memory tier), the shared Redis entry
    under [oauth:access_token], the wall clock (ms) and the number of
    requests the token endpoint has received.  Calls are taken one at a
    time, so [refreshingPromise] is [null] between them. *)
Record State := {
  now : Z;
  memoryToken : option string;
  memoryTokenExpiresAt : option Z;
  redisToken : option (string * option Z);
  requests : nat;
}.

Definition tokenCacheKey : string := "oauth:access_token".

(** [redisService.get(tokenCacheKey)] *)
Definition redisGet (s : State) : option string :=
  redisToken s ≫= Redis.live (now s).

(** A string in a condition: [null] and the empty string are false. *)
Definition truthy (t : option string) : option string :=
  match t with
  | Some "" => None
  | _ => t
  end.

Definition adopt (cachedToken : string) (s : State) : State :=
  {| now := now s; memoryToken := Some cachedToken;
     memoryTokenExpiresAt := None; redisToken := redisToken s;
     requests := requests s |}.

Section Service.

(** The token endpoint: what it answers to the [n]-th request. *)
Variable endpoint : nat -> outcome exn TokenResponse.

(** [getAccessToken] *)
Definition getAccessToken (s : State) : outcome exn string * State :=
  match truthy (redisGet s) with
  | Some cachedToken => (Ok cachedToken, adopt cachedToken s)
  | None =>
      match endpoint (requests s) with
      | Ok response =>
          let ttl := Z.max (expires_in response - 120) 60 in
          (Ok (access_token response),
           {| now := now s;
              memoryToken := Some (access_token response);
              memoryTokenExpiresAt := Some (now s + ttl * 1000);
              redisToken :=
                Some (access_token response, Some (now s + ttl * 1000));
              requests := S (requests s) |})
      | Throw _ =>
          (Throw (JsError "OAuth authentication failed"),
           {| now := now s; memoryToken := memoryToken s;
              memoryTokenExpiresAt := memoryTokenExpiresAt s;
              redisToken := redisToken s; requests := S (requests s) |})
      end
  end.

(** The test of the in-memory tier:
    [memoryToken && (!memoryTokenExpiresAt || Date.now() < memoryTokenExpiresAt)]. *)
Definition memoryFresh (s : State) : option string :=
  match truthy (memoryToken s) with
  | Some t =>
      match memoryTokenExpiresAt s with
      | None => Some t
      | Some expiresAt =>
          if (expiresAt =? 0) || (now s <? expiresAt) then Some t else None
      end
  | None => None
  end.

(** [getValidAccessToken]: memory, then Redis, then the endpoint. *)
Definition getValidAccessToken (s : State) : outcome exn string * State :=
  match memoryFresh s with
  | Some t => (Ok t, s)
  | None =>
      match truthy (redisGet s) with
      | Some cachedToken => (Ok cachedToken, adopt cachedToken s)
      | None => getAccessToken s
      end
  end.

(** [refreshToken]: both tiers are cleared first. *)
Definition refreshToken (s : State) : outcome exn string * State :=
  getValidAccessToken
    {| now := now s; memoryToken := None; memoryTokenExpiresAt := None;
       redisToken := None; requests := requests s |}.

(** What happens to a service instance over time. *)
Inductive event : Type :=
| Advance (ms : Z)
| Restart
| CallGetValidAccessToken
| CallGetAccessToken
| CallRefreshToken.

Definition advance (ms : Z) (s : State) : State :=
  {| now := now s + ms; memoryToken := memoryToken s;
     memoryTokenExpiresAt := memoryTokenExpiresAt s;
     redisToken := redisToken s; requests := requests s |}.

(** A new process: the memory tier starts empty, Redis stays. *)
Definition restart (s : State) : State :=
  {| now := now s; memoryToken := None; memoryTokenExpiresAt := None;
     redisToken := redisToken s; requests := requests s |}.

(** One event: the state after it and, for a call, what it returned
    and when. *)
Definition step (s : State) (ev : event)
  : State * option (Z * outcome exn string) :=
  match ev with
  | Advance ms => (advance (Z.max 0 ms) s, None)
  | Restart => (restart s, None)
  | CallGetValidAccessToken =>
      let '(r, s') := getValidAccessToken s in (s', Some (now s, r))
  | CallGetAccessToken =>
      let '(r, s') := getAccessToken s in (s', Some (now s, r))
  | CallRefreshToken =>
      let '(r, s') := refreshToken s in (s', Some (now s, r))
  end.

(** The returns of the calls of a history, with their instants. *)
Fixpoint returns (s : State) (evs : list event)
  : list (Z * outcome exn string) :=
  match evs with
  | [] => []
  | ev :: evs' =>
      match step s ev with
      | (s', Some r) => r :: returns s' evs'
      | (s', None) => returns s' evs'
      end
  end.

End Service.

Definition start : State :=
  {| now := 0; memoryToken := None; memoryTokenExpiresAt := None;
     redisToken := None; requests := 0 |}.

End OAuth.

(** ** Sample data *)
Module Samples.
Import Search.

Definition guests2 : GuestCount := {| adultCount := 2; childAges := None |}.

(** A room stay of [pid] with a pre-tax total and a checksum to tell it
    from its neighbours. *)
Definition stay (pid : string) (beforeTax : option Q) (sum : string)
  : TLRoomStay :=
  {| propertyId := pid; availability := None; currencyCode := None;
     checksum := Some sum;
     total := Some {| priceBeforeTax := beforeTax; priceAfterTax := None |};
     cancellationPolicy := None; paymentPolicy := None; paymentType := None;
     mealPlanCode := None; includedServices := None; ratePlanId := None;
     roomType := None |}.

Definition content (pid title : string) : TLPropertyContent :=
  {| pc_id := pid; pc_name := title; images := None; stars := None;
     currency := None; multiLocationProperty := None; contactInfo := None;
     amenities := None; roomTypes := None |}.

Definition world0 : World :=
  {| now := 0; calls := 0; contentCache := ∅; files := ∅ |}.

Definition answer (l : list TLRoomStay)
  : outcome exn (option TLSearchAggResp) :=
  Ok (Some {| roomStays := Some l |}).

Definition noGeo (n : nat) (city : string)
  : outcome exn (option TLGeoPropsResp) := Throw (UpstreamError "geo").

Definition noContent (n : nat) (id : string)
  : outcome exn TLPropertyContent := Throw (UpstreamError "content").

(** Three offers of property A: 100, then 90 twice. *)
Definition offersA : list TLRoomStay :=
  [stay "A" (Some 100%Q) "first"; stay "A" (Some 90%Q) "second";
   stay "A" (Some 90%Q) "third"].

(** An image host that cannot be reached. *)
Definition noDownload (n : nat) (u : string) : outcome exn ImageResponse :=
  Throw (UpstreamError "ENOTFOUND").

(** A token endpoint that issues hour-long tokens, [T1] first. *)
Definition hourTokens (n : nat) : outcome exn OAuth.TokenResponse :=
  Ok {| OAuth.access_token := match n with O => "T1" | _ => "T2" end;
        OAuth.expires_in := 3600 |}.

(** A token is fetched; ten seconds later the process restarts and asks
    again; it asks once more 4000 seconds after that. *)
Definition restartHistory : list OAuth.event :=
  [OAuth.CallGetValidAccessToken; OAuth.Advance 10000; OAuth.Restart;
   OAuth.CallGetValidAccessToken; OAuth.Advance 4000000;
   OAuth.CallGetValidAccessToken].

(** A city with two properties: both have content, the pricing search
    returns an offer of 10000 for P1 only. *)
Definition upstreamCity : Upstream :=
  {| geoApi := fun _ _ =>
       Ok (Some {| properties := Some [{| gp_id := "P1" |}; {| gp_id := "P2" |}] |});
     contentApi := fun _ pid => Ok (content pid ("Hotel " +:+ pid));
     searchApi := fun _ _ => answer [stay "P1" (Some 10000%Q) "p1"] |}.

Definition utc : Search.Platform :=
  {| Search.localTZA := fun _ => 0; Search.formatRuDate := fun s => s |}.

(** Moscow time: three hours ahead of UTC all year. *)
Definition moscow : Search.Platform :=
  {| Search.localTZA := fun _ => 10800000; Search.formatRuDate := fun s => s |}.

(** A request for P1 and what the upstream may answer to a fetch. *)
Definition requestP1 : Offer.Request :=
  {| Offer.rq_propertyId := "P1"; Offer.rq_arrival := "2025-09-26";
     Offer.rq_departure := "2025-09-28";
     Offer.rq_guests := {| adultCount := 2; childAges := Some [7; 3] |};
     Offer.rq_currency := "RUB" |}.

Definition answers (l : list TLRoomStay) : Offer.FetchAnswers :=
  {| Offer.viaGet := Ok (Some {| roomStays := Some l |});
     Offer.viaPost := Throw (UpstreamError "unused") |}.











Definition upstreamA : Upstream :=
  {| geoApi := noGeo; contentApi := noContent;
     searchApi := fun _ _ => answer offersA |}.

(** 201 property ids, hence two chunks; the upstream answers the first
    chunk and fails on the second. *)
Definition ids201 : list string :=
  map (fun n : nat => "p" +:+ pretty n) (seq 0 201).

Definition upstreamSecondChunkFails : Upstream :=
  {| geoApi := noGeo; contentApi := noContent;
     searchApi := fun n _ =>
       match n with
       | O => answer [stay "p0" (Some 100%Q) "only"]
       | _ => Throw (UpstreamError "503")
       end |}.

End Samples.

(** ** Notions used to state the properties of the listing *)
Module Listing.
Import Search.

(** The world [ms] milliseconds later. *)
Definition later (ms : Z) (w : World) : World :=
  {| now := now w + ms; calls := calls w; contentCache := contentCache w;
     files := files w |}.

(** What the content cache holds for [id] in the world [w]. *)
Definition cachedContent (w : World) (id : string) : option TLPropertyContent :=
  Redis.lookup (now w) (contentCache w) (contentCacheKey id).




End Listing.

(** Notions used to state the properties of the cards. *)
Module Cards.
Import Search.

(** A card with another guests note. *)
Definition withGuestsNote (note : string) (c : HotelCard) : HotelCard :=
  {| hc_id := hc_id c; hc_name := hc_name c; hc_address := hc_address c;
     hc_lat := hc_lat c; hc_lon := hc_lon c; hc_stars := hc_stars c;
     hc_thumbnail := hc_thumbnail c; hc_amenities := hc_amenities c;
     hc_roomName := hc_roomName c; hc_mealLabel := hc_mealLabel c;
     hc_freeCancel := hc_freeCancel c; hc_payOnSite := hc_payOnSite c;
     hc_price := hc_price c; hc_guestsNote := note |}.

(** Two cards that differ in the guests note at most. *)
Definition sameButNote (a b : HotelCard) : Prop :=
  b = withGuestsNote (hc_guestsNote b) a.

End Cards.

(** Notions used to state the properties of the image proxy. *)
Module ImageSpec.
Import ImageProxy.

(** A character that a URL carries unescaped in a query value: a
    letter, a digit, [-] or [_]. *)
Definition urlSafe (c : ascii) : bool :=
  let x := N_of_ascii c in
  Utf8.within 65 90 x || Utf8.within 97 122 x || Utf8.within 48 57 x
  || (x =? 45)%N || (x =? 95)%N.

(** The names every JavaScript object inherits from [Object.prototype]:
    looked up in an object literal used as a table, they are found
    although the table does not list them. *)
Definition inheritedNames : list string :=
  ["constructor"; "__defineGetter__"; "__defineSetter__"; "hasOwnProperty";
   "__lookupGetter__"; "__lookupSetter__"; "isPrototypeOf";
   "propertyIsEnumerable"; "toString"; "valueOf"; "__proto__";
   "toLocaleString"].

(** The content type [downloadAndCache] takes from a response. *)
Definition contentTypeOf (response : ImageResponse) : string :=
  default "image/jpeg" (Search.truthy (contentType response)).

End ImageSpec.

(** Notions used to state the properties of the room-stays cache. *)
Module OfferSpec.
Import Offer.


End OfferSpec.

(** ** Offer page without deduplication ([src/app/offer/offer.service.ts]) *)
Module OfferPlain.
Import Search.

Record OfferPrice := {
  op_total : number;
  perNight : number;
  op_currency : string;
}.

Record RoomOffer := {
  roomTypeId : string;
  roomTypeName : string;
  ro_mealLabel : option string;
  ro_freeCancel : FreeCancel;
  ro_paymentType : option PaymentType;
  price : OfferPrice;
  ro_images : list string;
  ro_addressLine : option string;
  ro_ratePlanId : option string;
  ro_amenities : list string;
  ro_availability : option number;
}.

Record PropertyHeader := {
  ph_id : string;
  ph_name : string;
  ph_address : string;
  ph_stars : option number;
  ph_lat : option number;
  ph_lon : option number;
  ph_thumbnail : option string;
  ph_amenities : option (list Amenity);
}.

Record PropertyOffersResponse := {
  property : PropertyHeader;
  por_nights : number;
  por_guests : GuestCount;
  por_currency : string;
  minPrice : option number;
  offers : list RoomOffer;
}.

Section Service.

Variable U : Upstream.
Variable P : Platform.

(** The room-stays endpoint of one property: what it answers to the
    GET with query parameters and to the POST, as the [n]-th upstream
    call. *)
Variable roomStaysGet : nat -> Offer.Request -> outcome exn (option TLSearchAggResp).
Variable roomStaysPost : nat -> Offer.Request -> outcome exn (option TLSearchAggResp).

(** [mapRoomStayToOffer(content, rs, nights)] *)
Definition mapRoomStayToOffer (content : TLPropertyContent) (rs : TLRoomStay)
    (nights : number) : RoomOffer :=
  let rt :=
    roomTypes content ≫=
      List.find (fun rt =>
        match roomType rs with
        | Some srt => String.eqb (crt_id rt) (rt_id srt)
        | None => false
        end) in
  let mealCode := mealCodeOf rs in
  let total := rsTotal rs in
  let currency :=
    default "RUB" (orElse (truthy (currencyCode rs))
                          (truthy (currency content))) in
  let perNight := perNightOf total nights in
  let chosenImages :=
    if nonEmptyImages (rt ≫= crt_images)
    then default [] (rt ≫= crt_images)
    else default [] (roomType rs ≫= rt_images) in
  {| roomTypeId := default "" (orElse (rt_id <$> roomType rs) (crt_id <$> rt));
     roomTypeName :=
       default "Номер" (orElse (roomType rs ≫= rt_name) (rt ≫= crt_name));
     ro_mealLabel := mealLabel <$> mealCode;
     ro_freeCancel := freeCancelOf P rs;
     ro_paymentType :=
       match paymentPolicy rs with
       | Some (Some t) => Some t
       | _ => paymentType rs
       end;
     price := {| op_total := total; perNight := perNight;
                 op_currency := currency |};
     ro_images := map url chosenImages;
     ro_addressLine :=
       orElse ((roomType rs ≫= rt_address) ≫= addressLine)
              ((rt ≫= crt_address) ≫= addressLine);
     ro_ratePlanId := ratePlanId rs;
     ro_amenities := default [] (rt ≫= crt_amenities);
     ro_availability := availability rs |}.

(** [getPropertyOffers(propertyId, arrival, departure, guests, opts)];
    [currency] is [opts?.currency]. *)
Definition getPropertyOffers (pid arrival departure : string)
    (guests : GuestCount) (currency : option string)
  : M PropertyOffersResponse :=
  let currency := default "RUB" currency in
  let* found := getPropertyContent U pid None in
  let content := data found in
  let query :=
    {| Offer.rq_propertyId := pid; Offer.rq_arrival := arrival;
       Offer.rq_departure := departure; Offer.rq_guests := guests;
       Offer.rq_currency := currency |} in
  let* rsResp :=
    tryCatch (upstreamCall (fun n => roomStaysGet n query))
             (fun _ => upstreamCall (fun n => roomStaysPost n query)) in
  let roomStays := Offer.ownStays pid rsResp in
  let nights := diffNights P arrival departure in
  let offers := map (fun rs => mapRoomStayToOffer content rs nights) roomStays in
  let minPerNight :=
    match offers with
    | [] => None
    | _ :: _ => Some (Offer.minOf (map (fun o => perNight (price o)) offers))
    end in
  let contactAddress := contactInfo content ≫= address in
  let thumbnail :=
    orElse (url <$> (images content ≫= head))
      (url <$> (((head roomStays ≫= roomType) ≫= rt_images) ≫= head)) in
  ret {| property :=
           {| ph_id := pc_id content;
              ph_name := pc_name content;
              ph_address :=
                joinParts [contactAddress ≫= ca_addressLine;
                           contactAddress ≫= ca_cityName];
              ph_stars := stars content;
              ph_lat := contactAddress ≫= latitude;
              ph_lon := contactAddress ≫= longitude;
              ph_thumbnail := thumbnail;
              ph_amenities := amenities content |};
         por_nights := nights;
         por_guests := guests;
         por_currency := currency;
         minPrice := minPerNight;
         offers := offers |}.

End Service.

End OfferPlain.

(** ** The authorized API client ([OAuthService.request]) *)
Module Api.
Import OAuth.

(** An error of a request: the HTTP status when the API has responded
    ([error.response?.status]), and the message. *)
Record Failure := {
  status : option Z;
  failure_message : string;
}.

(** The service with its API client: the token tiers and the number of
    requests the client has sent to the API. *)
Record Client := {
  oauth : OAuth.State;
  dispatched : nat;
}.

(** The plain [Error] that the request interceptor rejects with when
    [getValidAccessToken] throws: it carries no response. *)
Definition plainError (e : exn) : Failure :=
  {| status := None;
     failure_message :=
       match e with
       | UpstreamError m | NotFoundException m | JsError m => m
       end |}.

(** [error.response?.status === 401 || error.response?.status === 403] *)
Definition unauthorized (f : Failure) : bool :=
  match status f with
  | Some code => (code =? 401) || (code =? 403)
  | None => false
  end.

Section Client.

Variable endpoint : nat -> outcome exn TokenResponse.

Context {A : Type}.

(** The partner API: what it answers to the [n]-th request it
    receives, sent with the bearer token [token]. *)
Variable server : nat -> string -> outcome Failure A.

(** [this.api.request(original)] once [original._retry] is set: the
    request interceptor puts the valid token in, the response
    interceptor rejects with whatever error comes back. *)
Definition retry (c : Client) : outcome Failure A * Client :=
  match getValidAccessToken endpoint (oauth c) with
  | (Throw e, s1) =>
      (Throw (plainError e), {| oauth := s1; dispatched := dispatched c |})
  | (Ok token, s1) =>
      (server (dispatched c) token,
       {| oauth := s1; dispatched := S (dispatched c) |})
  end.

(** [request(config)]: the request interceptor, the request, and the
    response interceptor, which on a 401 or 403 refreshes the token and
    sends the request once more. *)
Definition request (c : Client) : outcome Failure A * Client :=
  match getValidAccessToken endpoint (oauth c) with
  | (Throw e, s1) =>
      (Throw (plainError e), {| oauth := s1; dispatched := dispatched c |})
  | (Ok token, s1) =>
      match server (dispatched c) token with
      | Ok data => (Ok data, {| oauth := s1; dispatched := S (dispatched c) |})
      | Throw f =>
          if unauthorized f then
            match refreshToken endpoint s1 with
            | (Ok newToken, s2) =>
                retry {| oauth := s2; dispatched := S (dispatched c) |}
            | (Throw _, s2) =>
                (Throw f, {| oauth := s2; dispatched := S (dispatched c) |})
            end
          else (Throw f, {| oauth := s1; dispatched := S (dispatched c) |})
      end
  end.

End Client.

End Api.

(** ** Text and numbers of the platform *)
Module Js.

(** One WhiteSpace or LineTerminator code point (ECMAScript: TAB, VT,
    FF, SP, NBSP, ZWNBSP, the space separators of Unicode, LF, CR, LS,
    PS) at the head of a text held in UTF-8: the text after it. *)
Definition afterSpace (s : string) : option string :=
  match s with
  | "" => None
  | String c1 r1 =>
      let x := N_of_ascii c1 in
      if Utf8.within 9 13 x || (x =? 32)%N then Some r1
      else
        match r1 with
        | "" => None
        | String c2 r2 =>
            let y := N_of_ascii c2 in
            if (x =? 194)%N && (y =? 160)%N then Some r2
            else
              match r2 with
              | "" => None
              | String c3 r3 =>
                  let z := N_of_ascii c3 in
                  if (x =? 225)%N && (y =? 154)%N && (z =? 128)%N then Some r3
                  else if (x =? 226)%N && (y =? 128)%N
                          && (Utf8.within 128 138 z || Utf8.within 168 169 z
                              || (z =? 175)%N) then Some r3
                  else if (x =? 226)%N && (y =? 129)%N && (z =? 159)%N
                       then Some r3
                  else if (x =? 227)%N && (y =? 128)%N && (z =? 128)%N
                       then Some r3
                  else if (x =? 239)%N && (y =? 187)%N && (z =? 191)%N
                       then Some r3
                  else None
              end
        end
  end.

Fixpoint dropSpaces (fuel : nat) (s : string) : string :=
  match fuel with
  | O => s
  | S fuel' =>
      match afterSpace s with
      | Some r => dropSpaces fuel' r
      | None => s
      end
  end.

Definition trimStart (s : string) : string := dropSpaces (String.length s) s.

Definition blank (s : string) : bool := String.eqb (trimStart s) "".

Fixpoint trimEnd (s : string) : string :=
  match s with
  | "" => ""
  | String c r => if blank s then "" else String c (trimEnd r)
  end.

(** [s.trim()] *)
Definition trim (s : string) : string := trimEnd (trimStart s).

(** [s.split(sep)] for a separator of one ASCII character. *)
Fixpoint split (sep : ascii) (s : string) : list string :=
  match s with
  | "" => [""]
  | String c r =>
      if Ascii.eqb c sep then "" :: split sep r
      else
        match split sep r with
        | h :: t => String c h :: t
        | [] => [String c ""]
        end
  end.

(** *** [Number(text)] *)

Definition digit (c : ascii) : option N :=
  let x := N_of_ascii c in
  if Utf8.within 48 57 x then Some (x - 48)%N else None.

Definition hexDigit (c : ascii) : option N :=
  let x := N_of_ascii c in
  if Utf8.within 48 57 x then Some (x - 48)%N
  else if Utf8.within 97 102 x then Some (x - 87)%N
  else if Utf8.within 65 70 x then Some (x - 55)%N
  else None.

Definition octalDigit (c : ascii) : option N :=
  let x := N_of_ascii c in
  if Utf8.within 48 55 x then Some (x - 48)%N else None.

Definition binaryDigit (c : ascii) : option N :=
  let x := N_of_ascii c in
  if Utf8.within 48 49 x then Some (x - 48)%N else None.

(** The value of a text made of digits of a base only. *)
Fixpoint digitsValue (base : N) (digitOf : ascii -> option N) (acc : N)
    (s : string) : option N :=
  match s with
  | "" => Some acc
  | String c r =>
      match digitOf c with
      | Some d => digitsValue base digitOf (acc * base + d)%N r
      | None => None
      end
  end.

(** The decimal digits at the head of a text, and the rest. *)
Fixpoint spanDigits (s : string) : string * string :=
  match s with
  | "" => ("", "")
  | String c r =>
      match digit c with
      | Some _ => let '(ds, rest) := spanDigits r in (String c ds, rest)
      | None => ("", s)
      end
  end.

(** The least magnitude that rounds to an infinite double:
    [2^1024 - 2^970]. *)
Definition overflow : Z := 2 ^ 1024 - 2 ^ 970.

(** [2^e] *)
Definition pow2 (e : Z) : Q :=
  if 0 <=? e then inject_Z (2 ^ e) else 1 # Z.to_pos (2 ^ (- e)).

(** The nearest integer, a tie going to the even one. *)
Definition roundHalfEven (q : Q) : Z :=
  let f := Qfloor q in
  match (q - inject_Z f ?= 1 # 2)%Q with
  | Lt => f
  | Gt => f + 1
  | Eq => if Z.even f then f else f + 1
  end.

(** The exponent of the last binary place of the doubles around a
    positive rational in lowest terms: 52 below the exponent of the
    rational, and never below the exponent of the subnormal numbers. *)
Definition lastPlace (q : Q) : Z :=
  let e0 := Z.log2 (Qnum q) - Z.log2 (Zpos (Qden q)) in
  let e := if Qle_bool (pow2 e0) q then e0 else e0 - 1 in
  Z.max (e - 52) (-1074).

(** The double nearest to a non-negative rational below [overflow]. *)
Definition toDouble (q : Q) : Q :=
  let r := Qred q in
  if Qnum r =? 0 then 0
  else
    let p := lastPlace r in
    Qred (inject_Z (roundHalfEven (r / pow2 p)) * pow2 p).

(** The number of a non-negative rational: the nearest double, which
    is +Infinity from [overflow] on. *)
Definition clip (q : Q) : number :=
  if Qle_bool (inject_Z overflow) q then PosInf else Fin (toDouble q).

(** [a - b] of two finite numbers that does not overflow. *)
Definition minus (a b : Q) : Q :=
  let r := (a - b)%Q in
  if Qle_bool 0 r then toDouble r else (- toDouble (- r))%Q.

(** [m * 10^k] *)
Definition scaled (m : N) (k : Z) : number :=
  if 0 <=? k then clip (inject_Z (Z.of_N m * 10 ^ k))
  else clip (Z.of_N m # Z.to_pos (10 ^ (- k))).

(** The exponent part of a decimal literal, the empty one included. *)
Definition exponentOf (s : string) : option Z :=
  match s with
  | "" => Some 0
  | String c r =>
      if Ascii.eqb c "e" || Ascii.eqb c "E" then
        let '(negative, ds) :=
          match r with
          | String sign r' =>
              if Ascii.eqb sign "+" then (false, r')
              else if Ascii.eqb sign "-" then (true, r')
              else (false, r)
          | "" => (false, r)
          end in
        match ds with
        | "" => None
        | String _ _ =>
            match digitsValue 10 digit 0 ds with
            | Some v => Some (if negative then - Z.of_N v else Z.of_N v)
            | None => None
            end
        end
      else None
  end.

(** [StrUnsignedDecimalLiteral]: [Infinity], or digits with an
    optional fraction and an optional exponent; NaN for any other
    text. *)
Definition unsignedDecimal (s : string) : number :=
  if String.eqb s "Infinity" then PosInf
  else
    let '(whole, r1) := spanDigits s in
    let '(fraction, r2) :=
      match r1 with
      | String c r => if Ascii.eqb c "." then spanDigits r else ("", r1)
      | "" => ("", r1)
      end in
    if String.eqb whole "" && String.eqb fraction "" then NaN
    else
      match exponentOf r2, digitsValue 10 digit 0 (whole +:+ fraction) with
      | Some e, Some m => scaled m (e - Z.of_nat (String.length fraction))
      | _, _ => NaN
      end.

Definition negate (x : number) : number :=
  match x with
  | NaN => NaN
  | NegInf => PosInf
  | PosInf => NegInf
  | Fin q => Fin (- q)
  end.

(** A literal of base 2, 8 or 16 after its prefix. *)
Definition nonDecimal (base : N) (digitOf : ascii -> option N) (s : string)
  : number :=
  match s with
  | "" => NaN
  | String _ _ =>
      match digitsValue base digitOf 0 s with
      | Some v => clip (inject_Z (Z.of_N v))
      | None => NaN
      end
  end.

(** A text that is not a signed literal: a literal of base 16, 8 or 2
    when it starts with [0x], [0o] or [0b] (in either case), else a
    decimal literal. *)
Definition unsigned (t : string) : number :=
  match t with
  | String c (String p r) =>
      if Ascii.eqb c "0" && (Ascii.eqb p "x" || Ascii.eqb p "X")
      then nonDecimal 16 hexDigit r
      else if Ascii.eqb c "0" && (Ascii.eqb p "o" || Ascii.eqb p "O")
      then nonDecimal 8 octalDigit r
      else if Ascii.eqb c "0" && (Ascii.eqb p "b" || Ascii.eqb p "B")
      then nonDecimal 2 binaryDigit r
      else unsignedDecimal t
  | _ => unsignedDecimal t
  end.

(** [Number(text)] *)
Definition Number (text : string) : number :=
  match trim text with
  | "" => Fin 0
  | String c r as t =>
      if Ascii.eqb c "+" then unsignedDecimal r
      else if Ascii.eqb c "-" then negate (unsignedDecimal r)
      else unsigned t
  end.

(** [Number.isFinite(x)] for a value that may be [undefined]. *)
Definition isFinite (x : option number) : bool :=
  match x with
  | Some (Fin _) => true
  | _ => false
  end.

(** [String(n).padStart(2, '0')] for the text of a number. *)
Definition padStart2 (s : string) : string :=
  match s with
  | "" => "00"
  | String c "" => String "0" s
  | _ => s
  end.

End Js.

(** ** Dates of a request ([src/utils/date.ts]) *)
Module Dates.
Import JsDate Js.

Inductive HttpError : Type :=
| BadRequestException (message : string).

(** [ToIntegerOrInfinity] of a finite number: towards zero. *)
Definition truncate (q : Q) : Z := Z.quot (Qnum q) (Zpos (Qden q)).

(** The last time value of the [Date] range, in milliseconds. *)
Definition maxTime : Z := 8640000000000000.

(** [lo <= q <= hi] *)
Definition between (lo hi : Z) (q : Q) : bool :=
  Qle_bool (inject_Z lo) q && Qle_bool q (inject_Z hi).

(** [Date.UTC(year, month, date)] of finite numbers ([month] counts
    from 0): the time value, or no value beyond the range of [Date].
    Years 0 to 99 stand for 1900 to 1999; V8 makes a day of a year
    within a million years and a month within ten million months of
    the epoch only. *)
Definition dateUTC (year month date : Q) : option Z :=
  let y := truncate year in
  let fullYear :=
    if (0 <=? y) && (y <=? 99) then inject_Z (1900 + y) else year in
  if between (-1000000) 1000000 fullYear
     && between (-10000000) 10000000 month
  then
    let m := truncate month in
    let day :=
      makeDay (truncate fullYear + m / 12, m mod 12 + 1, 1)
      + truncate date - 1 in
    let tv := day * msPerDay in
    if Z.abs tv <=? maxTime then Some tv else None
  else None.

(** [YearFromTime], on day numbers: the year whose first day is the
    last first day not after [day]. *)
Definition yearFromDay (day : Z) : Z :=
  let y := 1970 + (400 * day) / 146097 in
  if dayFromYear (y + 1) <=? day then y + 1
  else if day <? dayFromYear y then y - 1 else y.

(** [MonthFromTime] (counting from 1) and [DateFromTime]. *)
Definition monthFromDay (day : Z) : Z :=
  let y := yearFromDay day in
  1 + Z.of_nat
        (length (List.filter (fun m => daysBeforeMonth y m <=? day - dayFromYear y)
                   [2; 3; 4; 5; 6; 7; 8; 9; 10; 11; 12])).

Definition dateFromDay (day : Z) : Z :=
  let y := yearFromDay day in
  day - dayFromYear y - daysBeforeMonth y (monthFromDay day) + 1.

(** [getUTCFullYear()], [getUTCMonth() + 1] and [getUTCDate()] of a
    valid [Date]. *)
Definition utcFields (tv : Z) : Z * Z * Z :=
  let day := tv / msPerDay in
  (yearFromDay day, monthFromDay day, dateFromDay day).

(** [a === b] of a number read from the date and a number of the
    text. *)
Definition sameNumber (a : Z) (b : Q) : bool := Qeq_bool (inject_Z a) b.

(** The validity test of [parseDatesRange]: the fields of the date are
    the numbers it was made from. *)
Definition fieldsAre (date : option Z) (y m d : Q) : bool :=
  match date with
  | Some tv =>
      let '(year, month, day) := utcFields tv in
      sameNumber year y && sameNumber month m && sameNumber day d
  | None => false
  end.

(** [format(date)]: the year as it is, month and day on two digits. *)
Definition format (tv : Z) : string :=
  let '(year, month, day) := utcFields tv in
  pretty year +:+ "-" +:+ padStart2 (pretty month) +:+ "-"
  +:+ padStart2 (pretty day).

(** [raw.split('.').map(Number)], read as [[d, m, y]]: a missing
    element is [undefined]. *)
Definition numbersOf (raw : string) : option number * option number * option number :=
  let parts := map Number (split "." raw) in
  (parts !! 0%nat, parts !! 1%nat, parts !! 2%nat).

Definition finite (x : option number) : option Q :=
  match x with
  | Some (Fin q) => Some q
  | _ => None
  end.

(** [parseDatesRange(dates)] *)
Definition parseDatesRange (dates : string) : outcome HttpError (string * string) :=
  let parts := map trim (split "-" dates) in
  match parts !! 0%nat, parts !! 1%nat with
  | Some (String _ _ as rawArrival), Some (String _ _ as rawDeparture) =>
      let '(d1, m1, y1) := numbersOf rawArrival in
      let '(d2, m2, y2) := numbersOf rawDeparture in
      match finite d1, finite m1, finite y1, finite d2, finite m2, finite y2 with
      | Some d1, Some m1, Some y1, Some d2, Some m2, Some y2 =>
          let arrival := dateUTC y1 (minus m1 1) d1 in
          let departure := dateUTC y2 (minus m2 1) d2 in
          match arrival, departure with
          | Some a, Some b =>
              if fieldsAre arrival y1 m1 d1 && fieldsAre departure y2 m2 d2
              then Ok (format a, format b)
              else Throw (BadRequestException "dates are invalid")
          | _, _ => Throw (BadRequestException "dates are invalid")
          end
      | _, _, _, _, _, _ => Throw (BadRequestException "dates are invalid")
      end
  | _, _ =>
      Throw (BadRequestException
               "dates must be in format DD.MM.YYYY-DD.MM.YYYY")
  end.

End Dates.

(** Notions used to state the properties of the dates. *)
Module DateSpec.
Import JsDate Js Dates.

Definition daysInMonth (y m : Z) : Z :=
  if m =? 2 then (if isLeap y then 29 else 28)
  else if (m =? 4) || (m =? 6) || (m =? 9) || (m =? 11) then 30 else 31.

(** A day of the (proleptic Gregorian) calendar. *)
Definition calendarDate (y m d : Z) : Prop :=
  1 <= m <= 12 /\ 1 <= d <= daysInMonth y m.

(** The two ways of writing a day: [YYYY-MM-DD] and [DD.MM.YYYY]. *)
Definition isoDate (y m d : Z) : string :=
  pretty y +:+ "-" +:+ padStart2 (pretty m) +:+ "-" +:+ padStart2 (pretty d).

Definition ruDate (y m d : Z) : string :=
  padStart2 (pretty d) +:+ "." +:+ padStart2 (pretty m) +:+ "." +:+ pretty y.

End DateSpec.

(** Notions used to state the properties of texts and of the numbers
    read from them. *)
Module TextSpec.
Import Js.

(** A text without the character [x]. *)
Fixpoint lacks (x : ascii) (s : string) : bool :=
  match s with
  | "" => true
  | String c r => negb (Ascii.eqb c x) && lacks x r
  end.

(** A text of decimal digits. *)
Definition digitsOnly (s : string) : Prop :=
  Forall (fun c => is_Some (digit c)) (list_ascii_of_string s).

(** A printable ASCII character other than the space. *)
Definition printable (c : ascii) : bool := Utf8.within 33 126 (N_of_ascii c).

(** A text without white space. *)
Definition solid (s : string) : Prop :=
  Forall (fun c => printable c = true) (list_ascii_of_string s).

(** A number that is not below zero, NaN apart. *)
Definition notNegative (x : number) : Prop :=
  match x with
  | Fin q => (0 <= q)%Q
  | NegInf => False
  | _ => True
  end.

End TextSpec.

(** ** Guests of a request ([SearchController.getHotels],
    [OfferController.getHotelOffers]) *)
Module Guests.
Import Js Dates.

(** [n >= 0] *)
Definition notBelowZero (n : number) : bool :=
  match n with
  | Fin q => Qle_bool 0 q
  | PosInf => true
  | _ => false
  end.

(** [Number(adultCountRaw ?? '1')] and its test; a missing parameter
    is ['1']. *)
Definition adultCountOf (adultCountRaw : option string)
  : outcome HttpError number :=
  let adultCount := Number (default "1" adultCountRaw) in
  if negb (isFinite (Some adultCount)) || Num.lt adultCount (Num.ofZ 1)
  then Throw (BadRequestException "You must have at least 1 adult")
  else Ok adultCount.

(** The child ages of [childAgesRaw]: the parts between commas,
    trimmed, the empty ones dropped, as numbers, those that are not
    finite or are negative dropped. *)
Definition childAgesOf (childAgesRaw : option string) : list number :=
  List.filter (fun n => isFinite (Some n) && notBelowZero n)
    (map Number
       (List.filter (fun s => negb (String.eqb s ""))
          (map trim (split "," (default "" childAgesRaw))))).

End Guests.

(** ** More sample data *)
Module Cases.
Import Search.

(** Two adults with two children. *)
Definition family : GuestCount :=
  {| adultCount := 2; childAges := Some [7; 3] |}.

(** The request [Samples.requestP1] with the ages the other way
    round. *)
Definition requestP1' : Offer.Request :=
  {| Offer.rq_propertyId := "P1"; Offer.rq_arrival := "2025-09-26";
     Offer.rq_departure := "2025-09-28";
     Offer.rq_guests := {| adultCount := 2; childAges := Some [3; 7] |};
     Offer.rq_currency := "RUB" |}.

(** An image host that answers with a PNG, and a digest that tells the
    URLs of the example apart. *)
Definition pngHost (n : nat) (u : string) : outcome exn ImageResponse :=
  Ok {| body := "PNG of " +:+ u;
        contentType := Some "image/png; charset=binary" |}.

Definition digest (u : string) : string := pretty (String.length u).

Definition imageToken : string :=
  Eval vm_compute in ImageProxy.encodeUrl "https://cdn.example/room.png".

End Cases.

(* ================================================================== *)
(** * Properties *)
(* ================================================================== *)

(** ** Order facts on the totals *)
Module NumFacts.
Import NumSpec.

Lemma lt_irrefl a : Num.lt a a = false.
Proof.
  destruct a as [| |q|]; simpl; try reflexivity.
  apply negb_false_iff, Qle_bool_iff, Qle_refl.
Qed.

Lemma lt_fin x y : Num.lt (Fin x) (Fin y) = true <-> (x < y)%Q.
Proof.
  simpl. rewrite negb_true_iff. split.
  - intros H. apply Qnot_le_lt. intros Hle.
    apply Qle_bool_iff in Hle. congruence.
  - intros H. destruct (Qle_bool y x) eqn:E; [|reflexivity].
    apply Qle_bool_iff in E. exfalso. eapply Qlt_not_le; eauto.
Qed.

Lemma lt_fin_false x y : Num.lt (Fin x) (Fin y) = false <-> (y <= x)%Q.
Proof.
  simpl. rewrite negb_false_iff. apply Qle_bool_iff.
Qed.

Lemma lt_trans a b c :
  Num.lt a b = true -> Num.lt b c = true -> Num.lt a c = true.
Proof.
  destruct a as [| |x|], b as [| |y|], c as [| |z|];
    try (simpl; congruence); try reflexivity.
  rewrite !lt_fin. apply Qlt_trans.
Qed.

(** Among totals, "not below" composes with "below". *)
Lemma lt_le_trans a b c :
  priced a -> priced b -> priced c ->
  Num.lt a b = true -> Num.lt c b = false -> Num.lt a c = true.
Proof.
  destruct a as [| |x|], b as [| |y|], c as [| |z|];
    try (simpl; tauto); try (simpl; congruence); intros _ _ _.
  rewrite !lt_fin, lt_fin_false. intros. eapply Qlt_le_trans; eauto.
Qed.

Lemma le_le_trans a b c :
  priced a -> priced b -> priced c ->
  Num.lt b a = false -> Num.lt c b = false -> Num.lt c a = false.
Proof.
  destruct a as [| |x|], b as [| |y|], c as [| |z|];
    try (simpl; tauto); try (simpl; congruence); intros _ _ _.
  rewrite !lt_fin_false. intros. eapply Qle_trans; eauto.
Qed.

Lemma lt_asym a b : Num.lt a b = true -> Num.lt b a = false.
Proof.
  destruct a as [| |x|], b as [| |y|]; try (simpl; congruence).
  rewrite lt_fin, lt_fin_false. apply Qlt_le_weak.
Qed.

Lemma lt_ofZ (a b : Z) : Num.lt (Num.ofZ a) (Num.ofZ b) = (a <? b).
Proof.
  unfold Num.ofZ, Num.lt, Qle_bool, inject_Z. simpl.
  rewrite !Z.mul_1_r. destruct (Z.leb_spec b a), (Z.ltb_spec a b);
    simpl; try reflexivity; lia.
Qed.

Lemma max_ofZ (a b : Z) : Num.max (Num.ofZ a) (Num.ofZ b) = Num.ofZ (Z.max a b).
Proof.
  unfold Num.max. change (Num.ofZ a) with (Fin (inject_Z a)) at 1.
  change (Num.ofZ b) with (Fin (inject_Z b)) at 1. cbv iota beta.
  change (Fin (inject_Z a)) with (Num.ofZ a).
  change (Fin (inject_Z b)) with (Num.ofZ b).
  rewrite lt_ofZ. destruct (Z.ltb_spec a b).
  - by rewrite Z.max_r by lia.
  - by rewrite Z.max_l by lia.
Qed.

Lemma div_fin_ofZ x n :
  1 <= n -> Num.div (Fin x) (Num.ofZ n) = Fin (x / inject_Z n).
Proof.
  intros Hn. unfold Num.div, Num.ofZ, Num.sgn. simpl.
  destruct (Z.eqb_spec (Z.sgn n) 0) as [E|_]; [|reflexivity].
  apply Z.sgn_null_iff in E. lia.
Qed.

Lemma div_posinf_ofZ n : 1 <= n -> Num.div PosInf (Num.ofZ n) = PosInf.
Proof.
  intros Hn. unfold Num.div, Num.ofZ, Num.sgn. simpl.
  destruct (Z.ltb_spec (Z.sgn n) 0) as [E|_]; [|reflexivity].
  apply Z.sgn_neg_iff in E. lia.
Qed.

Lemma round_fin x : Num.round (Fin x) = Num.ofZ (nearest x).
Proof. reflexivity. Qed.

(** [nearest] of a quotient of integers, by integer division. *)
Lemma nearest_quotient n d :
  0 < d -> nearest (inject_Z n / inject_Z d) = (2 * n + d) / (2 * d).
Proof.
  intros Hd. destruct d as [|p|p]; try lia.
  unfold nearest, Qfloor, Qplus, Qdiv, Qmult, Qinv, inject_Z. simpl.
  f_equal; lia.
Qed.

(** A quotient that misses a whole number by less than half a divisor
    rounds to that number. *)
Lemma nearest_near k d r :
  0 < d -> - d <= 2 * r < d ->
  nearest (inject_Z (k * d + r) / inject_Z d) = k.
Proof.
  intros Hd Hr. rewrite nearest_quotient by exact Hd.
  symmetry. apply (Z.div_unique _ _ _ (2 * r + d)); lia.
Qed.

Lemma one_le_max (b : Z) : Num.lt (Num.max (Num.ofZ 1) (Num.ofZ b)) (Num.ofZ 1) = false.
Proof. rewrite max_ofZ, lt_ofZ. apply Z.ltb_ge. lia. Qed.

(** [positive (a - b)] is [b < a]. *)
Lemma lt_zero_sub a b : Num.lt (Num.ofZ 0) (Num.sub a b) = Num.lt b a.
Proof.
  destruct a as [| |x|], b as [| |y|]; try reflexivity.
  unfold Num.sub, Num.ofZ, Num.lt. f_equal.
  destruct (Qle_bool (x - y) (inject_Z 0)) eqn:E1, (Qle_bool x y) eqn:E2;
    try reflexivity.
  - apply Qle_bool_iff in E1. exfalso.
    assert (Hle : (x <= y)%Q).
    { apply (Qplus_le_l _ _ (- y)). rewrite Qplus_opp_r. exact E1. }
    apply Qle_bool_iff in Hle. congruence.
  - apply Qle_bool_iff in E2. exfalso.
    assert (Hle : (x - y <= inject_Z 0)%Q).
    { apply (Qplus_le_l _ _ (- y)) in E2. rewrite Qplus_opp_r in E2.
      exact E2. }
    apply Qle_bool_iff in Hle. congruence.
Qed.

End NumFacts.

(** ** The cheapest offer per property *)
Module SearchFacts.
Import NumSpec Search NumFacts.

Lemma rsTotal_priced rs : priced (rsTotal rs).
Proof.
  unfold rsTotal. destruct (total rs) as [t|]; simpl; [|exact I].
  destruct (priceBeforeTax t); simpl; [exact I|].
  destruct (priceAfterTax t); exact I.
Qed.

Lemma indexes_nil : indexes ∅ [].
Proof.
  intros pid. rewrite lookup_empty. intros o Ho.
  apply elem_of_nil in Ho. destruct Ho.
Qed.

Lemma firstCheapest_snoc_keep offers pid r rs :
  firstCheapest offers pid r ->
  (propertyId rs = pid -> Num.lt (rsTotal rs) (rsTotal r) = false) ->
  firstCheapest (offers ++ [rs]) pid r.
Proof.
  intros (i & Hi & Hp & Hmin & Hfirst) Hrs.
  exists i. split; [|split; [exact Hp|split]].
  - rewrite lookup_app_l; [exact Hi|]. eapply lookup_lt_Some; eauto.
  - intros o Ho Hpo. apply elem_of_app in Ho as [Ho|Ho]; [eauto|].
    apply list_elem_of_singleton in Ho. subst o. auto.
  - intros j o Hj Hjo Hpo. apply (Hfirst j o Hj); [|exact Hpo].
    rewrite lookup_app_l in Hjo; [exact Hjo|].
    apply lookup_lt_Some in Hi. lia.
Qed.

Lemma keepCheapest_indexes out offers rs :
  indexes out offers -> indexes (keepCheapest out rs) (offers ++ [rs]).
Proof.
  intros Hinv pid. unfold keepCheapest.
  destruct (out !! propertyId rs) as [cur|] eqn:Hcur.
  - pose proof (Hinv (propertyId rs)) as Hc. rewrite Hcur in Hc.
    destruct (Num.lt (rsTotal rs) (rsTotal cur)) eqn:Hlt.
    + (* strictly cheaper: [rs] replaces [cur] *)
      destruct (decide (propertyId rs = pid)) as [<-|Hne].
      * rewrite lookup_insert_eq.
        destruct Hc as (i & Hi & Hp & Hmin & Hfirst).
        exists (length offers). split; [|split; [reflexivity|split]].
        -- rewrite lookup_app_r by lia. by rewrite Nat.sub_diag.
        -- intros o Ho Hpo. apply elem_of_app in Ho as [Ho|Ho].
           ++ apply (le_le_trans _ (rsTotal cur) _);
                auto using rsTotal_priced.
              apply lt_asym, Hlt.
           ++ apply list_elem_of_singleton in Ho. subst o. apply lt_irrefl.
        -- intros j o Hj Hjo Hpo.
           rewrite lookup_app_l in Hjo by exact Hj.
           apply (lt_le_trans _ (rsTotal cur) _);
             auto using rsTotal_priced.
           apply Hmin; [|exact Hpo]. eapply list_elem_of_lookup_2; eauto.
      * rewrite lookup_insert_ne by exact Hne.
        pose proof (Hinv pid) as Hq. destruct (out !! pid) as [r|].
        -- apply firstCheapest_snoc_keep; [exact Hq|]. intros E. contradiction.
        -- intros o Ho. apply elem_of_app in Ho as [Ho|Ho]; [eauto|].
           apply list_elem_of_singleton in Ho. by subst o.
    + (* not strictly cheaper: the index is left as it is *)
      pose proof (Hinv pid) as Hq. destruct (out !! pid) as [r|] eqn:Hr.
      * apply firstCheapest_snoc_keep; [exact Hq|]. intros E.
        rewrite E in Hcur. congruence.
      * intros o Ho. apply elem_of_app in Ho as [Ho|Ho]; [eauto|].
        apply list_elem_of_singleton in Ho. subst o. intros E.
        rewrite E in Hcur. congruence.
  - (* first offer of this property *)
    pose proof (Hinv (propertyId rs)) as Hc. rewrite Hcur in Hc.
    destruct (decide (propertyId rs = pid)) as [<-|Hne].
    + rewrite lookup_insert_eq.
      exists (length offers). split; [|split; [reflexivity|split]].
      * rewrite lookup_app_r by lia. by rewrite Nat.sub_diag.
      * intros o Ho Hpo. apply elem_of_app in Ho as [Ho|Ho].
        -- exfalso. eapply Hc; eauto.
        -- apply list_elem_of_singleton in Ho. subst o. apply lt_irrefl.
      * intros j o Hj Hjo Hpo. rewrite lookup_app_l in Hjo by exact Hj.
        exfalso. eapply Hc; [|exact Hpo]. eapply list_elem_of_lookup_2; eauto.
    + rewrite lookup_insert_ne by exact Hne.
      pose proof (Hinv pid) as Hq. destruct (out !! pid) as [r|].
      * apply firstCheapest_snoc_keep; [exact Hq|]. intros E. contradiction.
      * intros o Ho. apply elem_of_app in Ho as [Ho|Ho]; [eauto|].
        apply list_elem_of_singleton in Ho. by subst o.
Qed.

Lemma foldl_keepCheapest_indexes more : forall out offers,
  indexes out offers ->
  indexes (foldl keepCheapest out more) (offers ++ more).
Proof.
  induction more as [|rs more IH]; intros out offers Hinv; simpl.
  - by rewrite app_nil_r.
  - replace (offers ++ rs :: more) with ((offers ++ [rs]) ++ more)
      by (by rewrite <- app_assoc).
    apply IH, keepCheapest_indexes, Hinv.
Qed.

Lemma cheapestLoop_foldl U fuel : forall rest a d g c out w out' w',
  cheapestLoop U fuel rest a d g c out w = (Ok out', w') ->
  out' = foldl keepCheapest out (encountered U fuel rest a d g c (calls w)).
Proof.
  induction fuel as [|fuel IH]; intros rest a d g c out w out' w' H;
    destruct rest as [|x rest]; simpl in *;
    try (unfold ret in H; congruence).
  unfold bind, upstreamCall in H.
  destruct (searchApi U (calls w) _) as [resp|e]; [|discriminate].
  rewrite foldl_app. apply IH in H. exact H.
Qed.

(** What [rsTotal] takes as the total price of an offer. *)
Lemma rsTotal_rule rs :
  rsTotal rs =
    match total rs ≫= priceBeforeTax, total rs ≫= priceAfterTax with
    | Some p, _ => Fin p
    | None, Some p => Fin p
    | None, None => PosInf
    end.
Proof.
  unfold rsTotal. destruct (total rs) as [t|]; simpl; [|reflexivity].
  destruct (priceBeforeTax t), (priceAfterTax t); reflexivity.
Qed.

(** C1.  When [getCheapestByPropertyIds] returns, its map holds for
    every property id the first offer, in the order the answers were
    met, whose total ([rsTotal]: pre-tax, else post-tax, else
    +Infinity) is minimal for that property; a property without offer
    has no entry.  An equal total never replaces an earlier offer. *)
Theorem cheapest_is_first_minimum U ids arrival departure guests currency
    w out w' :
  getCheapestByPropertyIds U ids arrival departure guests currency w
    = (Ok out, w') ->
  forall pid,
    match out !! pid with
    | None =>
        forall o,
          o ∈ encounteredOffers U ids arrival departure guests currency (calls w) ->
          propertyId o <> pid
    | Some r =>
        firstCheapest
          (encounteredOffers U ids arrival departure guests currency (calls w))
          pid r
    end.
Proof.
  intros H. apply cheapestLoop_foldl in H. subst out.
  apply (foldl_keepCheapest_indexes _ ∅ []), indexes_nil.
Qed.

(** The example of the specification: of the offers 100, 90, 90 of one
    property the second is selected. *)
Lemma cheapest_is_first_minimum_witness :
  getCheapestByPropertyIds Samples.upstreamA ["A"] "2025-09-26" "2025-09-28"
      Samples.guests2 "RUB" Samples.world0
    = (Ok {[ "A" := Samples.stay "A" (Some 90%Q) "second" ]},
       withCalls 1 Samples.world0)
  /\ firstCheapest Samples.offersA "A" (Samples.stay "A" (Some 90%Q) "second").
Proof.
  assert (E : getCheapestByPropertyIds Samples.upstreamA ["A"] "2025-09-26"
                "2025-09-28" Samples.guests2 "RUB" Samples.world0
              = (Ok {[ "A" := Samples.stay "A" (Some 90%Q) "second" ]},
                 withCalls 1 Samples.world0)) by reflexivity.
  split; [exact E|].
  exact (cheapest_is_first_minimum _ _ _ _ _ _ _ _ _ E "A").
Defined.

Lemma chunkCount_nil : chunkCount [] = 0%nat.
Proof. reflexivity. Qed.

Lemma chunkCount_cons x (rest : list string) :
  chunkCount (x :: rest) = S (chunkCount (drop CHUNK (x :: rest))).
Proof.
  unfold chunkCount. rewrite length_drop. unfold CHUNK.
  set (n := length (x :: rest)).
  assert (Hn : (1 <= n)%nat) by (subst n; simpl; lia).
  clearbody n. change (200 - 1)%nat with 199%nat.
  destruct (le_lt_dec n 200) as [Hle|Hgt].
  - replace (n - 200)%nat with 0%nat by lia. simpl (0 + 199)%nat.
    rewrite (Nat.div_small 199 200) by lia.
    assert (E : (n + 199 = 1 * 200 + (n - 1))%nat) by lia. rewrite E.
    rewrite Nat.div_add_l by lia. rewrite (Nat.div_small (n - 1)) by lia. lia.
  - assert (E : (n + 199 = 1 * 200 + (n - 200 + 199))%nat) by lia. rewrite E.
    rewrite Nat.div_add_l by lia. lia.
Qed.

Lemma chunkAt_S k (ids : list string) :
  chunkAt (S k) ids = chunkAt k (drop CHUNK ids).
Proof.
  unfold chunkAt. rewrite drop_drop. f_equal. f_equal. lia.
Qed.

Lemma chunkAt_0 (ids : list string) : chunkAt 0 ids = take CHUNK ids.
Proof. unfold chunkAt. by rewrite Nat.mul_0_r. Qed.

(** The loop, call by call: it returns when every chunk was answered,
    and throws at the first chunk whose call throws. *)
Lemma cheapestLoop_calls U fuel : forall rest a d g c out w,
  (length rest <= fuel)%nat ->
  match cheapestLoop U fuel rest a d g c out w with
  | (Ok out', w') =>
      (forall k, (k < chunkCount rest)%nat ->
         exists resp,
           searchApi U (calls w + k) (searchBody (chunkAt k rest) a d g c)
             = Ok resp)
      /\ out' = foldl keepCheapest out
                  (encountered U fuel rest a d g c (calls w))
      /\ calls w' = (calls w + chunkCount rest)%nat
  | (Throw e, w') =>
      exists k, (k < chunkCount rest)%nat
        /\ searchApi U (calls w + k) (searchBody (chunkAt k rest) a d g c)
             = Throw e
        /\ (forall j, (j < k)%nat ->
              exists resp,
                searchApi U (calls w + j) (searchBody (chunkAt j rest) a d g c)
                  = Ok resp)
        /\ calls w' = S (calls w + k)
  end.
Proof.
  induction fuel as [|fuel IH]; intros rest a d g c out w Hfuel.
  - destruct rest as [|x rest]; [|simpl in Hfuel; lia].
    simpl. split; [|split; [reflexivity|rewrite chunkCount_nil; lia]].
    intros k Hk. rewrite chunkCount_nil in Hk. lia.
  - destruct rest as [|x rest].
    + simpl. split; [|split; [reflexivity|rewrite chunkCount_nil; lia]].
      intros k Hk. rewrite chunkCount_nil in Hk. lia.
    + rewrite chunkCount_cons.
      cbn [cheapestLoop encountered]. unfold bind at 1. unfold upstreamCall at 1.
      destruct (searchApi U (calls w) _) as [resp|e] eqn:Hcall.
      * specialize (IH (drop CHUNK (x :: rest)) a d g c
                      (foldl keepCheapest out (respList resp))
                      (withCalls (S (calls w)) w)).
        assert (Hlen : (length (drop CHUNK (x :: rest)) <= fuel)%nat).
        { rewrite length_drop. simpl in Hfuel |- *. unfold CHUNK. lia. }
        specialize (IH Hlen). simpl calls in IH.
        destruct (cheapestLoop U fuel _ a d g c _ _) as [[out'|e] w'].
        -- destruct IH as (Hall & Hout & Hcalls).
           split; [|split].
           ++ intros [|k] Hk.
              ** rewrite Nat.add_0_r, chunkAt_0. eauto.
              ** rewrite chunkAt_S.
                 replace (calls w + S k)%nat with (S (calls w) + k)%nat by lia.
                 apply Hall. lia.
           ++ rewrite foldl_app. exact Hout.
           ++ lia.
        -- destruct IH as (k & Hk & Hthrow & Hbefore & Hcalls).
           exists (S k). split; [lia|split; [|split]].
           ++ rewrite chunkAt_S.
              replace (calls w + S k)%nat with (S (calls w) + k)%nat by lia.
              exact Hthrow.
           ++ intros [|j] Hj.
              ** rewrite Nat.add_0_r, chunkAt_0. eauto.
              ** rewrite chunkAt_S.
                 replace (calls w + S j)%nat with (S (calls w) + j)%nat by lia.
                 apply Hbefore. lia.
           ++ lia.
      * exists 0%nat. split; [lia|split; [|split]].
        -- rewrite Nat.add_0_r, chunkAt_0. exact Hcall.
        -- intros j Hj. lia.
        -- simpl. lia.
Qed.

(** C3, as the code has it.  The ids go upstream in consecutive chunks
    of 200, one call per chunk, in order.  When every call answers, the
    result is the cheapest-offer index over all the answers.  When a
    call throws, the whole aggregation throws that error: the chunks
    after it are not attempted and no index is returned. *)
Theorem chunk_failure_fails_aggregation U ids arrival departure guests
    currency w :
  match getCheapestByPropertyIds U ids arrival departure guests currency w with
  | (Ok out, w') =>
      (forall k, (k < chunkCount ids)%nat ->
         exists resp,
           searchApi U (calls w + k)
             (searchBody (chunkAt k ids) arrival departure guests currency)
             = Ok resp)
      /\ out = foldl keepCheapest ∅
                 (encounteredOffers U ids arrival departure guests currency
                    (calls w))
      /\ calls w' = (calls w + chunkCount ids)%nat
  | (Throw e, w') =>
      exists k, (k < chunkCount ids)%nat
        /\ searchApi U (calls w + k)
             (searchBody (chunkAt k ids) arrival departure guests currency)
             = Throw e
        /\ (forall j, (j < k)%nat ->
              exists resp,
                searchApi U (calls w + j)
                  (searchBody (chunkAt j ids) arrival departure guests currency)
                  = Ok resp)
        /\ calls w' = S (calls w + k)
  end.
Proof.
  apply cheapestLoop_calls. reflexivity.
Qed.

(** C3 as stated fails: of 201 ids the first chunk is answered with an
    offer and the second call throws; the aggregation throws and the
    offer of the first chunk is lost. *)
Lemma chunk_failure_drops_other_chunks :
  ~ chunkResultsSurvive Samples.upstreamSecondChunkFails Samples.ids201
      "2025-09-26" "2025-09-28" Samples.guests2 "RUB" Samples.world0.
Proof.
  intros H.
  destruct (H (Samples.stay "p0" (Some 100%Q) "only")) as (out & w' & E & _).
  - vm_compute. apply list_elem_of_here.
  - vm_compute in E. discriminate E.
Qed.

(** ** Nights and the per-night price *)

Lemma perNightOf_fin q n :
  1 <= n ->
  perNightOf (Fin q) (Num.ofZ n)
    = Num.ofZ (Z.max 1 (nearest (q / inject_Z n))).
Proof.
  intros Hn. unfold perNightOf. rewrite max_ofZ, Z.max_r by lia.
  rewrite div_fin_ofZ by exact Hn. rewrite round_fin. apply max_ofZ.
Qed.

Lemma perNightOf_posinf n : 1 <= n -> perNightOf PosInf (Num.ofZ n) = PosInf.
Proof.
  intros Hn. unfold perNightOf. rewrite max_ofZ, Z.max_r by lia.
  by rewrite div_posinf_ofZ by exact Hn.
Qed.

Lemma perNightOf_nan t : perNightOf t NaN = NaN.
Proof. unfold perNightOf. simpl. by destruct t. Qed.

Lemma perNightOf_rounded rs n :
  1 <= n -> perNightOf (rsTotal rs) (Num.ofZ n) = roundedPerNight (rsTotal rs) n.
Proof.
  intros Hn. pose proof (rsTotal_priced rs) as Hp.
  destruct (rsTotal rs) as [| |q|]; try contradiction.
  - by apply perNightOf_fin.
  - by apply perNightOf_posinf.
Qed.


Lemma timeValue_valid tz s ymd :
  JsDate.parseLocalMidnight s = Some ymd ->
  JsDate.timeValue tz s
    = Num.ofZ (JsDate.makeDay ymd * JsDate.msPerDay
               - tz (JsDate.makeDay ymd * JsDate.msPerDay)).
Proof. intros H. unfold JsDate.timeValue. by rewrite H. Qed.

(** Between two valid dates [diffNights] is the difference of the day
    numbers, at least 1, as long as the offsets of local time at the
    two midnights differ by less than half a day. *)
Lemma diffNights_valid P a b ya yb :
  JsDate.parseLocalMidnight (a +:+ "T00:00:00") = Some ya ->
  JsDate.parseLocalMidnight (b +:+ "T00:00:00") = Some yb ->
  Z.abs (localTZA P (JsDate.makeDay yb * JsDate.msPerDay)
         - localTZA P (JsDate.makeDay ya * JsDate.msPerDay)) < 43200000 ->
  diffNights P a b
    = Num.ofZ (Z.max 1 (JsDate.makeDay yb - JsDate.makeDay ya)).
Proof.
  intros Ha Hb Htz. unfold diffNights.
  rewrite (timeValue_valid _ _ _ Ha), (timeValue_valid _ _ _ Hb).
  set (da := JsDate.makeDay ya) in *. set (db := JsDate.makeDay yb) in *.
  set (ta := localTZA P (da * JsDate.msPerDay)) in *.
  set (tb := localTZA P (db * JsDate.msPerDay)) in *.
  change (Num.sub (Num.ofZ (db * JsDate.msPerDay - tb))
                  (Num.ofZ (da * JsDate.msPerDay - ta)))
    with (Fin (inject_Z (db * JsDate.msPerDay - tb)
               - inject_Z (da * JsDate.msPerDay - ta))).
  rewrite div_fin_ofZ by lia. rewrite round_fin, max_ofZ.
  do 2 f_equal. unfold nearest.
  assert (Hq : (inject_Z (db * JsDate.msPerDay - tb)
                - inject_Z (da * JsDate.msPerDay - ta)
                == inject_Z ((db - da) * 86400000 + (ta - tb)))%Q).
  { unfold Qminus. rewrite <- inject_Z_opp, <- inject_Z_plus.
    unfold JsDate.msPerDay.
    replace (db * 86400000 - tb + - (da * 86400000 - ta))
      with ((db - da) * 86400000 + (ta - tb)) by lia.
    reflexivity. }
  rewrite Hq. apply nearest_near; lia.
Qed.

(** ** The listing *)

Lemma insertBy_perm {A} (cmp : A -> A -> number) x l :
  Permutation (insertBy cmp x l) (x :: l).
Proof.
  induction l as [|y l IH]; simpl; [reflexivity|].
  destruct (positive (cmp x y)); [|reflexivity].
  rewrite IH. apply perm_swap.
Qed.

Lemma sortBy_perm {A} (cmp : A -> A -> number) l :
  Permutation (sortBy cmp l) l.
Proof.
  induction l as [|x l IH]; simpl; [reflexivity|].
  unfold sortBy in *. simpl. rewrite insertBy_perm. by constructor.
Qed.

Lemma positive_byPrice a b :
  positive (byPrice a b) = Num.lt (value (hc_price b)) (value (hc_price a)).
Proof. apply lt_zero_sub. Qed.

Lemma insertBy_sorted x l :
  priced (value (hc_price x)) ->
  Forall (fun c => priced (value (hc_price c))) l ->
  StronglySorted notCheaper l ->
  StronglySorted notCheaper (insertBy byPrice x l).
Proof.
  intros Hx Hl Hs. induction l as [|y l IH]; simpl.
  - repeat constructor.
  - apply Forall_cons in Hl as [Hy Hl].
    apply StronglySorted_inv in Hs as [Hs Hall0].
    pose proof (proj1 (Forall_forall _ _) Hall0) as Hall.
    rewrite positive_byPrice.
    destruct (Num.lt (value (hc_price y)) (value (hc_price x))) eqn:Hlt.
    + constructor; [by apply IH|].
      apply Forall_forall. intros z Hz.
      rewrite insertBy_perm in Hz. apply elem_of_cons in Hz as [->|Hz].
      * apply lt_asym, Hlt.
      * by apply Hall.
    + constructor; [constructor; [exact Hs|exact Hall0]|].
      constructor; [exact Hlt|].
      apply Forall_forall. intros z Hz. unfold notCheaper.
      rewrite Forall_forall in Hl.
      apply (le_le_trans _ (value (hc_price y)) _); auto.
      by apply Hall.
Qed.

Lemma sortBy_sorted l :
  Forall (fun c => priced (value (hc_price c))) l ->
  StronglySorted notCheaper (sortBy byPrice l).
Proof.
  induction 1 as [|x l Hx Hl IH]; [constructor|].
  unfold sortBy in *. simpl. apply insertBy_sorted; auto.
  apply Forall_forall. intros z Hz.
  change (foldr (insertBy byPrice) [] l) with (sortBy byPrice l) in Hz.
  rewrite sortBy_perm in Hz.
  rewrite Forall_forall in Hl. by apply Hl.
Qed.

Lemma all_nan_sorted l :
  Forall (fun c => value (hc_price c) = NaN) l ->
  StronglySorted notCheaper l.
Proof.
  induction 1 as [|x l Hx Hl IH]; constructor; [exact IH|].
  apply Forall_forall. intros z Hz. unfold notCheaper.
  rewrite Forall_forall in Hl. rewrite (Hl z Hz). reflexivity.
Qed.

Lemma diffNights_kind P a b :
  diffNights P a b = NaN
  \/ exists n, 1 <= n /\ diffNights P a b = Num.ofZ n.
Proof.
  unfold diffNights, JsDate.timeValue.
  destruct (JsDate.parseLocalMidnight (b +:+ "T00:00:00")) as [yb|];
    [|left; reflexivity].
  destruct (JsDate.parseLocalMidnight (a +:+ "T00:00:00")) as [ya|];
    [|left; reflexivity].
  right. unfold Num.ofZ at 2 3. cbn [Num.sub].
  rewrite div_fin_ofZ by lia. rewrite round_fin, max_ofZ.
  eexists. split; [|reflexivity]. lia.
Qed.


Lemma cardsFor_one_per_property P sliced contentById cheapestById nights guests :
  Forall2 (cardOf P contentById cheapestById nights guests)
    (filter (hasBoth contentById cheapestById) sliced)
    (cardsFor P sliced contentById cheapestById nights guests).
Proof.
  unfold cardsFor. induction sliced as [|id sliced IH]; [constructor|].
  rewrite filter_cons. cbn [omap list_omap].
  destruct (contentById !! id) as [c|] eqn:Hc,
           (cheapestById !! id) as [o|] eqn:Ho.
  - rewrite decide_True by (split; [rewrite Hc|rewrite Ho]; eauto).
    constructor; [|exact IH]. exists c, o. auto.
  - rewrite decide_False; [exact IH|].
    intros [_ [? H]]. rewrite Ho in H. discriminate.
  - rewrite decide_False; [exact IH|].
    intros [[? H] _]. rewrite Hc in H. discriminate.
  - rewrite decide_False; [exact IH|].
    intros [[? H] _]. rewrite Hc in H. discriminate.
Qed.

Lemma cardsFor_prices P sliced contentById cheapestById nights guests :
  Forall (fun c => exists rs, value (hc_price c) = perNightOf (rsTotal rs) nights)
    (cardsFor P sliced contentById cheapestById nights guests).
Proof.
  unfold cardsFor. induction sliced as [|id sliced IH]; [constructor|].
  cbn [omap list_omap].
  destruct (contentById !! id) as [c|], (cheapestById !! id) as [o|];
    try exact IH.
  constructor; [|exact IH]. exists o. reflexivity.
Qed.

Lemma cards_sorted P sliced contentById cheapestById a b guests :
  StronglySorted notCheaper
    (sortBy byPrice
       (cardsFor P sliced contentById cheapestById (diffNights P a b) guests)).
Proof.
  pose proof (cardsFor_prices P sliced contentById cheapestById
                (diffNights P a b) guests) as Hp.
  destruct (diffNights_kind P a b) as [E|(n & Hn & E)]; rewrite E in *.
  - apply all_nan_sorted. apply Forall_forall. intros c Hc.
    rewrite sortBy_perm in Hc. rewrite Forall_forall in Hp.
    destruct (Hp c Hc) as (rs & ->). apply perNightOf_nan.
  - apply sortBy_sorted. eapply Forall_impl; [exact Hp|].
    intros c (rs & ->). rewrite perNightOf_rounded by exact Hn.
    pose proof (rsTotal_priced rs).
    destruct (rsTotal rs); simpl; auto.
Qed.

(** C5.  When [getHotelsList] returns, its cards are, sorted by price,
    exactly the cards of the loop: one card for each id of the
    requested page that has both content and a cheapest offer, built
    from these two; an id that lacks either gives no card and no
    error.  In the returned list no card is cheaper per night than a
    card before it. *)
Theorem hotels_list_cards U P cityId arrival departure guests opts w cards w' :
  getHotelsList U P cityId arrival departure guests opts w = (Ok cards, w') ->
  exists ids contentById cheapestById w1 w2 built,
    getPropertyIdsByCity U cityId w = (Ok ids, w1)
    /\ getContentForIds U (pageOf opts ids) w1 = (Ok contentById, w2)
    /\ getCheapestByPropertyIds U (pageOf opts ids) arrival departure guests
         (default "RUB" (opts ≫= lo_currency)) w2 = (Ok cheapestById, w')
    /\ Forall2 (cardOf P contentById cheapestById
                  (diffNights P arrival departure) guests)
         (filter (hasBoth contentById cheapestById) (pageOf opts ids)) built
    /\ Permutation cards built
    /\ StronglySorted notCheaper cards.
Proof.
  unfold getHotelsList. unfold bind at 1.
  destruct (getPropertyIdsByCity U cityId w) as [[ids|e] w1] eqn:Hids;
    [|discriminate].
  destruct ids as [|i ids].
  - intros [= <- <-].
    assert (Hpage : pageOf opts [] = []).
    { unfold pageOf, jsSlice. by rewrite drop_nil, take_nil. }
    exists [], ∅, ∅, w1, w1, []. rewrite Hpage.
    repeat split; try constructor.
  - set (page := pageOf opts (i :: ids)). unfold bind at 1.
    destruct (getContentForIds U page w1) as [[contentById|e] w2] eqn:Hc;
      [|discriminate].
    unfold bind at 1.
    destruct (getCheapestByPropertyIds U page arrival departure guests _ w2)
      as [[cheapestById|e] w3] eqn:Hp; [|discriminate].
    intros [= <- <-].
    exists (i :: ids), contentById, cheapestById, w1, w2,
      (cardsFor P page contentById cheapestById
         (diffNights P arrival departure) guests).
    fold page. repeat split; auto.
    + apply cardsFor_one_per_property.
    + apply sortBy_perm.
    + apply cards_sorted.
Qed.

(** The scenario of the specification: P1 has content and an offer of
    10000 for two nights, P2 has content and no offer; the listing is
    the one card of P1, at 5000 a night. *)
Lemma hotels_list_cards_witness :
  exists card w',
    getHotelsList Samples.upstreamCity Samples.utc "city" "2025-09-26"
      "2025-09-28" Samples.guests2 None Samples.world0 = (Ok [card], w')
    /\ hc_id card = "P1"
    /\ value (hc_price card) = Num.ofZ 5000
    /\ StronglySorted notCheaper [card].
Proof.
  eexists. eexists. split; [vm_compute; reflexivity|].
  split; [reflexivity|]. split; [reflexivity|].
  destruct (hotels_list_cards Samples.upstreamCity Samples.utc "city"
              "2025-09-26" "2025-09-28" Samples.guests2 None Samples.world0
              _ _ eq_refl)
    as (ids & cm & om & w1 & w2 & built & _ & _ & _ & _ & _ & Hs).
  exact Hs.
Defined.

(** ** Content with stale fallback *)

Lemma getPropertyContent_unfold U id refresh w :
  getPropertyContent U id refresh w =
    let entry := Redis.lookup (now w) (contentCache w) (contentCacheKey id) in
    match entry, refresh with
    | Some c, (None | Some false) =>
        (Ok {| cached := true; data := c; stale := None |}, w)
    | _, _ =>
        match contentApi U (calls w) id with
        | Ok fresh =>
            (Ok {| cached := false; data := fresh; stale := None |},
             afterFetch id fresh w)
        | Throw _ =>
            (match entry with
             | Some c => Ok {| cached := true; data := c; stale := Some true |}
             | None =>
                 Throw (NotFoundException
                          ("Property " +:+ id +:+ " content not available"))
             end,
             withCalls (S (calls w)) w)
        end
    end.
Proof.
  unfold getPropertyContent, bind, getJsonContent, fetchAndCacheContent,
    tryCatch, bind, upstreamCall, setJsonContent, ret, throw, afterFetch,
    Redis.store.
  cbv zeta.
  destruct (Redis.lookup (now w) (contentCache w) (contentCacheKey id));
    destruct refresh as [[|]|];
    destruct (contentApi U (calls w) id); reflexivity.
Qed.

(** C4.  [getPropertyContent]: with an entry in the cache and no forced
    refresh it returns the entry with [cached = true] and makes no
    upstream call.  Otherwise it makes one content call: an answer is
    returned with [cached = false] (and written to the cache for a
    day); when the call fails, the cached entry, if there is one, is
    returned with [stale = true] and nothing is thrown; only without
    cached entry and with a failed call does it throw, and what it
    throws is the not-found error. *)
Theorem content_cached_fresh_or_stale U id refresh w :
  let key := contentCacheKey id in
  let entry := Redis.lookup (now w) (contentCache w) key in
  let result := getPropertyContent U id refresh w in
  match entry, refresh with
  | Some c, (None | Some false) =>
      result = (Ok {| cached := true; data := c; stale := None |}, w)
  | _, _ =>
      calls (snd result) = S (calls w) /\
      match contentApi U (calls w) id with
      | Ok fresh =>
          fst result = Ok {| cached := false; data := fresh; stale := None |}
          /\ contentCache (snd result) !! key
               = Some (fresh, Some (now w + 86400 * 1000))
      | Throw _ =>
          contentCache (snd result) = contentCache w /\
          match entry with
          | Some c =>
              fst result
                = Ok {| cached := true; data := c; stale := Some true |}
          | None =>
              fst result
                = Throw (NotFoundException
                           ("Property " +:+ id +:+ " content not available"))
          end
      end
  end.
Proof.
  cbv zeta. rewrite getPropertyContent_unfold. cbv zeta.
  destruct (Redis.lookup (now w) (contentCache w) (contentCacheKey id))
    as [c|]; destruct refresh as [[|]|]; try reflexivity;
    destruct (contentApi U (calls w) id) as [fresh|e]; simpl;
    repeat split; try reflexivity; apply lookup_insert_eq.
Qed.

End SearchFacts.

(** ** The proxy token of an image URL *)
Module ImageFacts.
Import ImageProxy.

Local Open Scope N_scope.

Lemma pack_div h l d : l < d -> (h * d + l) / d = h.
Proof.
  intros Hl. rewrite N.div_add_l by lia. rewrite N.div_small by exact Hl. lia.
Qed.

Lemma pack_mod h l d : l < d -> (h * d + l) mod d = l.
Proof.
  intros Hl. rewrite N.add_comm, N.Div0.mod_add. by apply N.mod_small.
Qed.

Lemma unpack x d : d <> 0 -> (x / d) * d + x mod d = x.
Proof. intros Hd. rewrite N.mul_comm. symmetry. by apply N.div_mod. Qed.

Lemma high_bound x d e : d <> 0 -> x < e * d -> x / d < e.
Proof. intros Hd Hx. apply N.Div0.div_lt_upper_bound. lia. Qed.

Lemma low_bound x d : d <> 0 -> x mod d < d.
Proof. intros. by apply N.mod_lt. Qed.

(** Reading back the sextets of a byte list gives the bytes. *)
Lemma bytesOfSextets_sextetsOf (n : nat) : forall bytes : list N,
  (length bytes <= n)%nat -> Forall (fun b => b < 256) bytes ->
  Base64.bytesOfSextets (Base64.sextetsOf bytes) = bytes.
Proof.
  induction n as [|n IH]; intros bytes Hn Hb.
  - destruct bytes; [reflexivity|simpl in Hn; lia].
  - destruct bytes as [|a [|b [|c rest]]]; [reflexivity| | |].
    + apply Forall_cons in Hb as [Ha _]. simpl. f_equal.
      rewrite N.div_mul by lia. by apply unpack.
    + apply Forall_cons in Hb as [Ha Hb]. apply Forall_cons in Hb as [Hb _].
      simpl. f_equal; [|f_equal].
      * rewrite pack_div by (apply high_bound; lia). by apply unpack.
      * rewrite pack_mod by (apply high_bound; lia).
        rewrite N.div_mul by lia. by apply unpack.
    + apply Forall_cons in Hb as [Ha Hb]. apply Forall_cons in Hb as [Hb Hc].
      apply Forall_cons in Hc as [Hc Hrest].
      cbn [Base64.sextetsOf Base64.bytesOfSextets].
      f_equal; [|f_equal; [|f_equal]].
      * rewrite pack_div by (apply high_bound; lia). by apply unpack.
      * rewrite pack_mod by (apply high_bound; lia).
        rewrite pack_div by (apply high_bound; lia). by apply unpack.
      * rewrite pack_mod by (apply high_bound; lia). by apply unpack.
      * apply IH; [simpl in Hn; lia|exact Hrest].
Qed.

Lemma sextetsOf_bound (n : nat) : forall bytes : list N,
  (length bytes <= n)%nat -> Forall (fun b => b < 256) bytes ->
  Forall (fun x => x < 64) (Base64.sextetsOf bytes).
Proof.
  assert (Hpack : forall h l, h < 4 -> l < 16 -> h * 16 + l < 64) by lia.
  assert (Hpack' : forall h l, h < 16 -> l < 4 -> h * 4 + l < 64) by lia.
  induction n as [|n IH]; intros bytes Hn Hb.
  - destruct bytes; [constructor|simpl in Hn; lia].
  - destruct bytes as [|a [|b [|c rest]]]; [constructor| | |].
    + apply Forall_cons in Hb as [Ha _]. simpl.
      repeat constructor.
      * apply high_bound; lia.
      * pose proof (low_bound a 4). lia.
    + apply Forall_cons in Hb as [Ha Hb]. apply Forall_cons in Hb as [Hb _].
      simpl. repeat constructor.
      * apply high_bound; lia.
      * apply Hpack; [apply low_bound|apply high_bound]; lia.
      * pose proof (low_bound b 16). lia.
    + apply Forall_cons in Hb as [Ha Hb]. apply Forall_cons in Hb as [Hb Hc].
      apply Forall_cons in Hc as [Hc Hrest].
      cbn [Base64.sextetsOf]. repeat apply Forall_cons_2.
      * apply high_bound; lia.
      * apply Hpack; [apply low_bound|apply high_bound]; lia.
      * apply Hpack'; [apply low_bound|apply high_bound]; lia.
      * apply low_bound; lia.
      * apply IH; [simpl in Hn; lia|exact Hrest].
Qed.

(** Every character of the alphabet reads back as its sextet and is
    not the padding character. *)
Lemma unbase64_charOf x :
  x < 64 -> Base64.unbase64 (Base64.charOf x) = Some x.
Proof.
  intros Hx.
  assert (Hall : forallb (fun n : nat =>
            match Base64.unbase64 (Base64.charOf (N.of_nat n)) with
            | Some y => y =? N.of_nat n
            | None => false
            end) (seq 0 64) = true) by (vm_compute; reflexivity).
  rewrite forallb_forall in Hall.
  specialize (Hall (N.to_nat x)). rewrite N2Nat.id in Hall.
  assert (Hin : In (N.to_nat x) (seq 0 64)) by (apply in_seq; lia).
  specialize (Hall Hin).
  destruct (Base64.unbase64 (Base64.charOf x)) as [y|]; [|discriminate].
  apply N.eqb_eq in Hall. by subst.
Qed.

Lemma legalSextets_chars sextets :
  Forall (fun x => x < 64) sextets ->
  Base64.legalSextets (string_of_list_ascii (map Base64.charOf sextets))
    = sextets.
Proof.
  induction 1 as [|x l Hx _ IH]; [reflexivity|].
  simpl. rewrite unbase64_charOf by exact Hx. by rewrite IH.
Qed.

Lemma bytesOfString_bound s :
  Forall (fun b => b < 256) (Base64.bytesOfString s).
Proof.
  unfold Base64.bytesOfString. apply Forall_map, Forall_forall.
  intros a _. apply N_ascii_bounded.
Qed.

Lemma stringOfBytes_bytesOfString s :
  Base64.stringOfBytes (Base64.bytesOfString s) = s.
Proof.
  unfold Base64.stringOfBytes, Base64.bytesOfString.
  rewrite map_map.
  rewrite (map_ext _ (fun a => a)) by (intros a; apply ascii_N_embedding).
  rewrite map_id. apply string_of_list_ascii_of_string.
Qed.

(** Base64url decoding undoes base64url encoding, on every byte
    string. *)
Lemma base64_decode_encode s : Base64.decode (Base64.encode s) = s.
Proof.
  unfold Base64.decode, Base64.encode.
  rewrite legalSextets_chars
    by (eapply sextetsOf_bound; [reflexivity|apply bytesOfString_bound]).
  rewrite (bytesOfSextets_sextetsOf (length (Base64.bytesOfString s)))
    by (try reflexivity; apply bytesOfString_bound).
  apply stringOfBytes_bytesOfString.
Qed.

Local Close Scope N_scope.

(** The token that the API documentation of the proxy route gives as
    its example. *)
Example encodeUrl_documented :
  encodeUrl "https://example.com/image.jpg"
    = "aHR0cHM6Ly9leGFtcGxlLmNvbS9pbWFnZS5qcGc".
Proof. reflexivity. Qed.

Example transformUrl_passes_proxied :
  transformUrl "https://api.test"
    (transformUrl "https://api.test" "https://example.com/image.jpg")
  = "https://api.test/images/proxy?url=aHR0cHM6Ly9leGFtcGxlLmNvbS9pbWFnZS5qcGc".
Proof. reflexivity. Qed.

(** Decoding keeps a well-formed byte string as it is. *)
Lemma utf8_decode_wellFormed (n : nat) : forall s : string,
  (String.length s <= n)%nat -> Utf8.wellFormed s = true ->
  Utf8.decodeFrom Utf8.Idle s = s.
Proof.
  induction n as [|n IH]; intros s Hn Hwf.
  - destruct s; [reflexivity|simpl in Hn; lia].
  - destruct s as [|a r1]; [reflexivity|].
    cbn [Utf8.wellFormed] in Hwf. cbn [Utf8.decodeFrom Utf8.step].
    unfold Utf8.start.
    destruct (Utf8.within 0 127 (Utf8.byte a)) eqn:H1.
    { cbv [String.append fst snd]. f_equal.
      apply IH; [simpl in Hn; lia|exact Hwf]. }
    destruct r1 as [|b r2]; [discriminate|].
    destruct (Utf8.within 194 223 (Utf8.byte a)) eqn:H2.
    { apply andb_true_iff in Hwf as [Hb Hwf].
      cbn [fst snd Utf8.decodeFrom Utf8.step]. rewrite Hb.
      cbv [String.append fst snd].
      do 2 f_equal. apply IH; [simpl in Hn; lia|exact Hwf]. }
    destruct r2 as [|c r3]; [discriminate|].
    destruct (Utf8.within 224 239 (Utf8.byte a)) eqn:H3.
    { apply andb_true_iff in Hwf as [Hwf Hr].
      apply andb_true_iff in Hwf as [Hb Hc].
      cbn [fst snd Utf8.decodeFrom Utf8.step]. rewrite Hb.
      cbn [fst snd Utf8.decodeFrom Utf8.step]. rewrite Hc.
      cbv [String.append fst snd].
      do 3 f_equal. apply IH; [simpl in Hn; lia|exact Hr]. }
    destruct r3 as [|d r4]; [discriminate|].
    apply andb_true_iff in Hwf as [Hwf Hr].
    apply andb_true_iff in Hwf as [Hwf Hd].
    apply andb_true_iff in Hwf as [Hwf Hc].
    apply andb_true_iff in Hwf as [H4 Hb].
    rewrite H4.
    cbn [fst snd Utf8.decodeFrom Utf8.step]. rewrite Hb.
    cbn [fst snd Utf8.decodeFrom Utf8.step]. rewrite Hc.
    cbn [fst snd Utf8.decodeFrom Utf8.step]. rewrite Hd.
    cbv [String.append fst snd].
    do 4 f_equal. apply IH; [simpl in Hn; lia|exact Hr].
Qed.

(** C8.  Decoding the proxy token of a URL gives the URL back.  A URL
    is a JavaScript string, held as its UTF-8 bytes; special characters
    are bytes like the others. *)
Theorem decodeUrl_encodeUrl (u : string) :
  Utf8.wellFormed u = true -> decodeUrl (encodeUrl u) = u.
Proof.
  intros Hwf. unfold decodeUrl, encodeUrl, Utf8.decode.
  rewrite base64_decode_encode.
  by apply (utf8_decode_wellFormed (String.length u)).
Qed.

Lemma decodeUrl_encodeUrl_witness :
  Utf8.wellFormed "https://отель.рф/фото 1.jpg?w=640&h=480#a+b/c=" = true
  /\ decodeUrl (encodeUrl "https://отель.рф/фото 1.jpg?w=640&h=480#a+b/c=")
     = "https://отель.рф/фото 1.jpg?w=640&h=480#a+b/c=".
Proof.
  split; [reflexivity|].
  apply (decodeUrl_encodeUrl "https://отель.рф/фото 1.jpg?w=640&h=480#a+b/c=").
  reflexivity.
Defined.

(** The error of the [catch] around [decodeUrl] is never thrown: the
    decoding has no way to throw, whatever the token. *)
Lemma invalid_image_url_unreachable md5hex download encodedUrl w :
  fst (getImageByEncodedUrl md5hex download encodedUrl w)
    <> Throw (NotFoundException "Invalid image URL").
Proof.
  unfold getImageByEncodedUrl, bind, tryCatch, ret. cbn beta iota.
  destruct (findCachedFile _ _) as [[path ct]|]; [discriminate|].
  unfold downloadAndCache, tryCatch, bind, upstreamCall, throw.
  destruct (download (calls w) _); simpl; discriminate.
Qed.

(** C9, at a malformed token.  The token [!!!] holds no base64url
    character; it decodes to the empty URL without an error, the
    download of that URL fails, and the request fails as a download
    failure ("Failed to fetch image"), not as an invalid token. *)
Theorem malformed_token_fails_as_download md5hex :
  decodeUrl "!!!" = ""
  /\ getImageByEncodedUrl md5hex Samples.noDownload "!!!" Samples.world0
     = (Throw (NotFoundException "Failed to fetch image"),
        withCalls 1 Samples.world0).
Proof.
  split; [reflexivity|].
  unfold getImageByEncodedUrl, bind, tryCatch, ret. cbn beta iota.
  unfold findCachedFile. simpl files. cbn [List.find].
  assert (Hnone : forall k : string,
            bool_decide (is_Some ((∅ : gmap string string) !! k)) = false).
  { intros k. apply bool_decide_eq_false. rewrite lookup_empty.
    by intros [? ?]. }
  rewrite !Hnone. reflexivity.
Qed.

End ImageFacts.

(** ** The lifetime of a cached token *)
Module OAuthFacts.
Import OAuth.

Lemma getValidAccessToken_fetch endpoint s :
  memoryFresh s = None -> truthy (redisGet s) = None ->
  getValidAccessToken endpoint s = getAccessToken endpoint s.
Proof.
  intros Hm Hr. unfold getValidAccessToken. by rewrite Hm, Hr.
Qed.

(** C2, as the code has it.  A token fetched from the endpoint with
    [expires_in = E] is written to both tiers with a TTL of
    [max (E - 120) 60] seconds, which is [E - 120] from [E = 180] on.
    Left alone, the process serves it from memory until that TTL has
    elapsed; from then on neither tier holds it and
    [getValidAccessToken] goes to the endpoint again. *)
Theorem fetched_token_lives_for_ttl endpoint s response :
  0 <= now s ->
  memoryFresh s = None -> truthy (redisGet s) = None ->
  endpoint (requests s) = Ok response ->
  let token := access_token response in
  let ttl := Z.max (expires_in response - 120) 60 in
  let s1 := snd (getValidAccessToken endpoint s) in
  fst (getValidAccessToken endpoint s) = Ok token
  /\ memoryToken s1 = Some token
  /\ memoryTokenExpiresAt s1 = Some (now s + ttl * 1000)
  /\ redisToken s1 = Some (token, Some (now s + ttl * 1000))
  /\ (180 <= expires_in response -> ttl = expires_in response - 120)
  /\ (forall ms, 0 <= ms < ttl * 1000 -> token <> "" ->
        getValidAccessToken endpoint (advance ms s1)
          = (Ok token, advance ms s1))
  /\ (forall ms, ttl * 1000 <= ms ->
        memoryFresh (advance ms s1) = None
        /\ redisGet (advance ms s1) = None
        /\ getValidAccessToken endpoint (advance ms s1)
             = getAccessToken endpoint (advance ms s1)
        /\ requests (snd (getValidAccessToken endpoint (advance ms s1)))
             = S (S (requests s))).
Proof.
  intros Hnow Hm Hr He. cbv zeta.
  rewrite (getValidAccessToken_fetch _ _ Hm Hr).
  assert (E : getAccessToken endpoint s =
    (Ok (access_token response),
     {| now := now s;
        memoryToken := Some (access_token response);
        memoryTokenExpiresAt :=
          Some (now s + Z.max (expires_in response - 120) 60 * 1000);
        redisToken :=
          Some (access_token response,
                Some (now s + Z.max (expires_in response - 120) 60 * 1000));
        requests := S (requests s) |})).
  { unfold getAccessToken. by rewrite Hr, He. }
  rewrite E. clear E.
  cbn [fst snd memoryToken memoryTokenExpiresAt redisToken].
  set (ttl := Z.max (expires_in response - 120) 60).
  assert (Httl : 60 <= ttl) by (subst ttl; lia).
  repeat split.
  - intros HE. subst ttl. lia.
  - intros ms Hms Htok. unfold getValidAccessToken, memoryFresh, truthy.
    cbn [advance memoryToken memoryTokenExpiresAt now].
    destruct (access_token response) as [|c r] eqn:Et; [congruence|].
    destruct (Z.eqb_spec (now s + ttl * 1000) 0) as [E0|_]; [lia|].
    destruct (Z.ltb_spec (now s + ms) (now s + ttl * 1000)); [|lia].
    reflexivity.
  - unfold memoryFresh, truthy.
    cbn [advance memoryToken memoryTokenExpiresAt now].
    destruct (access_token response) as [|c r]; [reflexivity|].
    destruct (Z.eqb_spec (now s + ttl * 1000) 0) as [E0|_]; [lia|].
    destruct (Z.ltb_spec (now s + ms) (now s + ttl * 1000)); [lia|].
    reflexivity.
  - unfold redisGet. cbn [advance redisToken now mbind option_bind Redis.live].
    destruct (Z.ltb_spec (now s + ms) (now s + ttl * 1000)); [lia|].
    reflexivity.
  - apply getValidAccessToken_fetch.
    + unfold memoryFresh, truthy.
      cbn [advance memoryToken memoryTokenExpiresAt now].
      destruct (access_token response) as [|c r]; [reflexivity|].
      destruct (Z.eqb_spec (now s + ttl * 1000) 0) as [E0|_]; [lia|].
      destruct (Z.ltb_spec (now s + ms) (now s + ttl * 1000)); [lia|].
      reflexivity.
    + unfold redisGet.
      cbn [advance redisToken now mbind option_bind Redis.live].
      destruct (Z.ltb_spec (now s + ms) (now s + ttl * 1000)); [lia|].
      reflexivity.
  - rewrite getValidAccessToken_fetch.
    + unfold getAccessToken, redisGet.
      cbn [advance redisToken now mbind option_bind Redis.live requests].
      destruct (Z.ltb_spec (now s + ms) (now s + ttl * 1000)); [lia|].
      cbn [truthy]. destruct (endpoint (S (requests s))); reflexivity.
    + unfold memoryFresh, truthy.
      cbn [advance memoryToken memoryTokenExpiresAt now].
      destruct (access_token response) as [|c r]; [reflexivity|].
      destruct (Z.eqb_spec (now s + ttl * 1000) 0) as [E0|_]; [lia|].
      destruct (Z.ltb_spec (now s + ms) (now s + ttl * 1000)); [lia|].
      reflexivity.
    + unfold redisGet.
      cbn [advance redisToken now mbind option_bind Redis.live].
      destruct (Z.ltb_spec (now s + ms) (now s + ttl * 1000)); [lia|].
      reflexivity.
Qed.

Lemma fetched_token_lives_for_ttl_witness :
  0 <= now start
  /\ memoryFresh start = None
  /\ truthy (redisGet start) = None
  /\ Samples.hourTokens (requests start)
     = Ok {| access_token := "T1"; expires_in := 3600 |}
  /\ let s1 := snd (getValidAccessToken Samples.hourTokens start) in
     fst (getValidAccessToken Samples.hourTokens start) = Ok "T1"
     /\ memoryTokenExpiresAt s1 = Some 3480000
     /\ redisToken s1 = Some ("T1", Some 3480000)
     /\ fst (getValidAccessToken Samples.hourTokens (advance 3479999 s1))
        = Ok "T1"
     /\ fst (getValidAccessToken Samples.hourTokens (advance 3480000 s1))
        = Ok "T2".
Proof.
  split; [reflexivity|]. split; [reflexivity|]. split; [reflexivity|].
  split; [reflexivity|].
  pose proof (fetched_token_lives_for_ttl Samples.hourTokens start
                {| access_token := "T1"; expires_in := 3600 |}
                (Z.le_refl 0) eq_refl eq_refl eq_refl)
    as (H1 & _ & H3 & H4 & _ & H6 & H7).
  cbv zeta. split; [exact H1|]. split; [exact H3|]. split; [exact H4|].
  split.
  - rewrite (H6 3479999); [reflexivity| |discriminate].
    cbn. lia.
  - destruct (H7 3480000) as (_ & _ & E & _); [cbn; lia|].
    rewrite E. reflexivity.
Defined.

(** A token that a process finds in the shared store is adopted without
    an expiry instant: from then on the process serves it from memory
    at any later time. *)
Lemma adopted_token_never_expires endpoint s token ms :
  memoryFresh s = None -> truthy (redisGet s) = Some token -> 0 <= ms ->
  getValidAccessToken endpoint s = (Ok token, adopt token s)
  /\ getValidAccessToken endpoint (advance ms (adopt token s))
     = (Ok token, advance ms (adopt token s)).
Proof.
  intros Hm Hr Hms. split.
  - unfold getValidAccessToken. by rewrite Hm, Hr.
  - unfold getValidAccessToken, memoryFresh.
    cbn [advance adopt memoryToken memoryTokenExpiresAt].
    assert (Ht : truthy (Some token) = Some token).
    { unfold truthy in *. destruct (redisGet s) as [[|c r]|];
        try discriminate. by inversion Hr. }
    by rewrite Ht.
Qed.

(** C2 as stated fails.  A token with [expires_in = 3600] is fetched at
    time 0; a process that starts ten seconds later adopts it from the
    shared store and still returns it 4010 seconds after issuance, past
    [E - margin] for every margin and past the expiry itself. *)
Lemma token_returned_after_expiry :
  Samples.hourTokens 0
    = Ok {| access_token := "T1"; expires_in := 3600 |}
  /\ returns Samples.hourTokens start Samples.restartHistory
     = [(0, Ok "T1"); (10000, Ok "T1"); (4010000, Ok "T1")]
  /\ (3600 - 60) * 1000 < 4010000 - 0.
Proof.
  split; [reflexivity|]. split; [reflexivity|]. lia.
Qed.

End OAuthFacts.

(** ** The per-night price of cards and offers *)
Module PriceFacts.
Import NumSpec Search NumFacts SearchFacts.



(** The offer page of the specification: two stays of 4000 and 6000
    for two nights give offers at 2000 and 3000 a night and a header
    minimum of 2000. *)
Example offer_page_scenario :
  let page :=
    Offer.assembleOffers Samples.utc "" (Samples.content "P1" "Hotel")
      [Samples.stay "P1" (Some 4000%Q) "a"; Samples.stay "P1" (Some 6000%Q) "b"]
      "2025-09-26" "2025-09-28" Samples.guests2 "RUB" in
  map (fun o => Offer.perNight (Offer.price o)) (Offer.offers page)
    = [Num.ofZ 2000; Num.ofZ 3000]
  /\ Offer.minPrice page = Some (Num.ofZ 2000)
  /\ Offer.por_nights page = Num.ofZ 2.
Proof. repeat split; reflexivity. Qed.

Example day_numbers :
  JsDate.makeDay (1970, 1, 1) = 0
  /\ JsDate.makeDay (2000, 1, 1) = 10957
  /\ JsDate.makeDay (2024, 3, 1) - JsDate.makeDay (2024, 2, 28) = 2
  /\ JsDate.makeDay (2025, 3, 1) - JsDate.makeDay (2025, 2, 28) = 1.
Proof. repeat split; reflexivity. Qed.

(** A departure that is not after the arrival still counts one night,
    and a total below half a unit per night is shown as 1. *)
Example one_night_at_least :
  diffNights Samples.utc "2025-09-28" "2025-09-26" = Num.ofZ 1
  /\ perNightOf (Fin (1 # 4)) (Num.ofZ 3) = Num.ofZ 1
  /\ perNightOf (Fin 0) (Num.ofZ 1) = Num.ofZ 1.
Proof. repeat split; reflexivity. Qed.

Example guests_note :
  hc_guestsNote (buildCard Samples.utc (Samples.content "P1" "Hotel")
                   (Samples.stay "P1" (Some 4000%Q) "a") (Num.ofZ 2)
                   {| adultCount := 2; childAges := Some [5] |})
    = "за ночь для 3 гостей".
Proof. reflexivity. Qed.

End PriceFacts.

(** ** Room stays of the requested property *)
Module OfferFacts.
Import Offer.

Lemma append_cons c s t : String c s +:+ t = String c (s +:+ t).
Proof. reflexivity. Qed.

Lemma append_nil t : "" +:+ t = t.
Proof. reflexivity. Qed.



Lemma ownStays_own pid result :
  Forall (fun rs => propertyId rs = pid) (ownStays pid result).
Proof.
  unfold ownStays. apply Forall_forall. intros rs Hin.
  apply list_elem_of_In, List.filter_In in Hin as [_ Hin].
  by apply String.eqb_eq.
Qed.













(** ** Coalescing of identical requests *)

























End OfferFacts.

Module ContentFacts.
Import Search Listing.
















End ContentFacts.

Module ListingFacts.
Import Search Listing Cards ContentFacts.

Lemma searchBody_adults batch a d g g' c :
  adultCount g = adultCount g' -> searchBody batch a d g c = searchBody batch a d g' c.
Proof. intros H. unfold searchBody. by rewrite H. Qed.

Lemma cheapestLoop_adults U g g' a d c fuel : forall rest out w,
  adultCount g = adultCount g' ->
  cheapestLoop U fuel rest a d g c out w = cheapestLoop U fuel rest a d g' c out w.
Proof.
  induction fuel as [|n IH]; intros rest out w H; destruct rest as [|i l];
    try reflexivity.
  cbn [cheapestLoop]. rewrite (searchBody_adults _ a d g g' c H).
  unfold bind. destruct (upstreamCall _ w) as [[r|e] w1]; [|reflexivity].
  by apply IH.
Qed.

Lemma buildCard_sameButNote P content rs nights g g' :
  sameButNote (buildCard P content rs nights g) (buildCard P content rs nights g').
Proof. reflexivity. Qed.

Lemma cardsFor_sameButNote P sliced contentById cheapestById nights g g' :
  Forall2 sameButNote (cardsFor P sliced contentById cheapestById nights g)
                      (cardsFor P sliced contentById cheapestById nights g').
Proof.
  unfold cardsFor. induction sliced as [|i l IH]; [constructor|].
  cbn [omap list_omap]. 
  destruct (contentById !! i) as [content|]; [|exact IH].
  destruct (cheapestById !! i) as [offer|]; [|exact IH].
  constructor; [apply buildCard_sameButNote|exact IH].
Qed.

Lemma insertBy_sameButNote x y l l' :
  sameButNote x y -> Forall2 sameButNote l l' ->
  Forall2 sameButNote (insertBy byPrice x l) (insertBy byPrice y l').
Proof.
  intros Hxy H. induction H as [|a b l l' Hab H IH]; simpl.
  - by repeat constructor.
  - assert (E : byPrice x a = byPrice y b).
    { unfold byPrice. rewrite Hxy, Hab. reflexivity. }
    rewrite E. destruct (positive (byPrice y b)).
    + by constructor.
    + by repeat constructor.
Qed.

Lemma sortBy_sameButNote l l' :
  Forall2 sameButNote l l' ->
  Forall2 sameButNote (sortBy byPrice l) (sortBy byPrice l').
Proof.
  intros H. induction H as [|a b l l' Hab H IH]; simpl; [constructor|].
  by apply insertBy_sameButNote.
Qed.

(** X2.  The pricing search of the listing carries the number of adults
    only: for two guest compositions with the same number of adults the
    listing makes the same upstream calls and returns the same cards,
    the guests note apart. *)
Theorem listing_prices_ignore_children U P cityId arrival departure g g' opts w :
  adultCount g = adultCount g' ->
  match getHotelsList U P cityId arrival departure g opts w,
        getHotelsList U P cityId arrival departure g' opts w with
  | (Ok cards, w1), (Ok cards', w1') =>
      w1 = w1' /\ Forall2 sameButNote cards cards'
  | (Throw e, w1), (Throw e', w1') => e = e' /\ w1 = w1'
  | _, _ => False
  end.
Proof.
  intros H. unfold getHotelsList, bind.
  destruct (getPropertyIdsByCity U cityId w) as [[ids|e] w1]; [|by split].
  destruct ids as [|i ids]; [unfold ret; split; [reflexivity|constructor]|].
  destruct (getContentForIds U _ w1) as [[contentById|e] w2]; [|by split].
  unfold getCheapestByPropertyIds.
  rewrite (cheapestLoop_adults U g g' _ _ _ _ _ _ _ H).
  destruct (cheapestLoop U _ _ arrival departure g' _ ∅ w2)
    as [[cheapestById|e] w3]; [|by split].
  unfold ret. split; [reflexivity|].
  apply sortBy_sameButNote, cardsFor_sameButNote.
Qed.

Lemma listing_prices_ignore_children_witness :
  match getHotelsList Samples.upstreamCity Samples.utc "C" "2025-09-26"
          "2025-09-28" Samples.guests2 None Samples.world0,
        getHotelsList Samples.upstreamCity Samples.utc "C" "2025-09-26"
          "2025-09-28" Cases.family None Samples.world0 with
  | (Ok cards, w1), (Ok cards', w1') =>
      w1 = w1' /\ Forall2 sameButNote cards cards'
  | (Throw e, w1), (Throw e', w1') => e = e' /\ w1 = w1'
  | _, _ => False
  end.
Proof.
  apply (listing_prices_ignore_children Samples.upstreamCity Samples.utc "C"
           "2025-09-26" "2025-09-28" Samples.guests2 Cases.family None
           Samples.world0).
  reflexivity.
Defined.

End ListingFacts.

Module PagingFacts.
Import Search Listing Cards ContentFacts SearchFacts.




Lemma omap_length {A B} (f : A -> option B) l : (length (omap f l) <= length l)%nat.
Proof.
  induction l as [|x l IH]; cbn [omap list_omap]; [simpl; lia|].
  destruct (f x); cbn [length]; lia.
Qed.

(** X4.  With an offset [o >= 0] and a limit [n > 0] the listing works
    on the ids [o .. o + n) of the city and returns at most [n] cards.
    A limit of 0 is no limit: like a missing limit it selects every id
    from the offset on. *)
Theorem listing_page U P cityId a d g opts w :
  let offset := default 0 (opts ≫= lo_offset) in
  (forall ids limit,
     0 <= offset -> opts ≫= lo_limit = Some limit -> 0 < limit ->
     pageOf opts ids = take (Z.to_nat limit) (drop (Z.to_nat offset) ids))
  /\ (forall ids,
        0 <= offset ->
        opts ≫= lo_limit = None \/ opts ≫= lo_limit = Some 0 ->
        pageOf opts ids = drop (Z.to_nat offset) ids)
  /\ (forall cards w' limit,
        getHotelsList U P cityId a d g opts w = (Ok cards, w') ->
        opts ≫= lo_limit = Some limit -> 0 < limit ->
        (length cards <= Z.to_nat limit)%nat).
Proof.
  cbv zeta.
  assert (Hlen : forall ids limit,
            opts ≫= lo_limit = Some limit -> 0 < limit ->
            (length (pageOf opts ids) <= Z.to_nat limit)%nat).
  { intros ids limit Hl Hpos. unfold pageOf, jsSlice, relativeIndex.
    rewrite Hl. replace (limit =? 0) with false by lia.
    rewrite length_take, length_drop.
    set (o := default 0 (opts ≫= lo_offset)). clearbody o.
    set (n := length ids). clearbody n.
    destruct (o <? 0) eqn:E1; destruct (o + limit <? 0) eqn:E2; lia. }
  split; [|split].
  - intros ids limit Ho Hl Hpos. unfold pageOf, jsSlice, relativeIndex.
    rewrite Hl. replace (limit =? 0) with false by lia.
    set (o := default 0 (opts ≫= lo_offset)) in *.
    replace (o <? 0) with false by lia.
    replace (o + limit <? 0) with false by lia.
    destruct (Z.le_gt_cases (Z.of_nat (length ids)) o) as [Hbig|Hsmall].
    + rewrite (Z.min_r o), (Z.min_r (o + limit)) by lia.
      rewrite Z.sub_diag. rewrite (drop_ge ids (Z.to_nat o)) by lia.
      by rewrite take_nil.
    + rewrite (Z.min_l o) by lia.
      destruct (Z.le_gt_cases (o + limit) (Z.of_nat (length ids))) as [H1|H1].
      * rewrite Z.min_l by lia. f_equal. lia.
      * rewrite Z.min_r by lia.
        rewrite !take_ge; [reflexivity| |]; rewrite length_drop; lia.
  - intros ids Ho Hl. unfold pageOf, jsSlice, relativeIndex.
    set (o := default 0 (opts ≫= lo_offset)) in *.
    assert (E : match opts ≫= lo_limit with
                | Some limit => if limit =? 0 then Z.of_nat (length ids)
                                else o + limit
                | None => Z.of_nat (length ids)
                end = Z.of_nat (length ids)).
    { destruct Hl as [-> | ->]; reflexivity. }
    rewrite E. replace (o <? 0) with false by lia.
    replace (Z.of_nat (length ids) <? 0) with false by lia.
    rewrite Z.min_id.
    destruct (Z.le_gt_cases (Z.of_nat (length ids)) o) as [Hbig|Hsmall].
    + rewrite Z.min_r by lia. rewrite Z.sub_diag.
      by rewrite (drop_ge ids (Z.to_nat o)) by lia.
    + rewrite Z.min_l by lia. apply take_ge. rewrite length_drop. lia.
  - intros cards w' limit Hrun Hl Hpos. unfold getHotelsList, bind in Hrun.
    destruct (getPropertyIdsByCity U cityId w) as [[ids|e] w1]; [|discriminate].
    destruct ids as [|i ids]; [inversion Hrun; simpl; lia|].
    destruct (getContentForIds U _ w1) as [[contentById|e] w2]; [|discriminate].
    destruct (getCheapestByPropertyIds U _ a d g _ w2)
      as [[cheapestById|e] w3]; [|discriminate].
    inversion Hrun; subst. rewrite (Permutation_length (sortBy_perm _ _)).
    unfold cardsFor. etransitivity; [apply omap_length|]. by apply Hlen.
Qed.

(** X5.  Content that [getPropertyContent] has fetched is served from
    the cache, without upstream call, to every request without forced
    refresh during the next 24 hours; after that the entry has expired
    and the next request has to fetch again. *)
Theorem fetched_content_cached_for_a_day U id refresh w fresh :
  contentApi U (calls w) id = Ok fresh ->
  cachedContent w id = None \/ refresh = Some true ->
  let w1 := snd (getPropertyContent U id refresh w) in
  (forall ms, 0 <= ms < 86400000 ->
     getPropertyContent U id None (later ms w1)
     = (Ok {| cached := true; data := fresh; stale := None |}, later ms w1))
  /\ (forall ms, 86400000 <= ms -> cachedContent (later ms w1) id = None).
Proof.
  intros Hfresh Hmust. cbv zeta.
  assert (E : snd (getPropertyContent U id refresh w) = afterFetch id fresh w).
  { rewrite getPropertyContent_unfold. cbv zeta. rewrite Hfresh.
    fold (cachedContent w id).
    destruct Hmust as [-> | ->]; [by destruct refresh as [[|]|]|].
    by destruct (cachedContent w id). }
  rewrite E.
  assert (Hl : forall ms,
            cachedContent (later ms (afterFetch id fresh w)) id
            = if now w + ms <? now w + 86400 * 1000 then Some fresh else None).
  { intros ms. unfold cachedContent, later, afterFetch, Redis.lookup. simpl.
    by rewrite lookup_insert_eq. }
  split.
  - intros ms Hms. rewrite getPropertyContent_unfold. cbv zeta.
    fold (cachedContent (later ms (afterFetch id fresh w)) id). rewrite Hl.
    replace (_ <? _) with true by lia. reflexivity.
  - intros ms Hms. rewrite Hl. replace (_ <? _) with false by lia. reflexivity.
Qed.

Lemma fetched_content_cached_for_a_day_witness :
  let w1 := snd (getPropertyContent Samples.upstreamCity "P1" None
                   Samples.world0) in
  (forall ms, 0 <= ms < 86400000 ->
     getPropertyContent Samples.upstreamCity "P1" None (later ms w1)
     = (Ok {| cached := true; data := Samples.content "P1" "Hotel P1";
              stale := None |}, later ms w1))
  /\ (forall ms, 86400000 <= ms -> cachedContent (later ms w1) "P1" = None).
Proof.
  apply (fetched_content_cached_for_a_day Samples.upstreamCity "P1" None
           Samples.world0 (Samples.content "P1" "Hotel P1")).
  - reflexivity.
  - left. vm_compute. reflexivity.
Defined.

Lemma dedup_spec l : forall seen,
  NoDup (dedup seen l)
  /\ (forall x, x ∈ dedup seen l <-> x ∈ l /\ x ∉ seen)
  /\ sublist (dedup seen l) l.
Proof.
  induction l as [|y l IH]; intros seen; simpl.
  - split; [constructor|]. split; [|constructor].
    intros x. rewrite elem_of_nil. tauto.
  - destruct (IH seen) as (Hnd & Hin & Hsub).
    destruct (IH (y :: seen)) as (Hnd' & Hin' & Hsub').
    destruct (bool_decide (y ∈ seen)) eqn:E.
    + apply bool_decide_eq_true in E. split; [exact Hnd|]. split.
      * intros x. rewrite Hin, elem_of_cons. split; [tauto|].
        intros [[->|H] Hn]; tauto.
      * by apply sublist_cons.
    + apply bool_decide_eq_false in E. split; [|split].
      * constructor; [|exact Hnd']. rewrite Hin', elem_of_cons. tauto.
      * intros x. rewrite !elem_of_cons, Hin', elem_of_cons.
        destruct (decide (x = y)) as [->|Hne]; tauto.
      * by apply sublist_skip.
Qed.

(** X6.  The amenities of a card are the amenity codes of the property
    content without duplicates, in an order in which the content lists
    them. *)
Theorem card_amenities_distinct P content rs nights guests :
  let codes := map code (default [] (amenities content)) in
  let shown := hc_amenities (buildCard P content rs nights guests) in
  NoDup shown /\ (forall c, c ∈ shown <-> c ∈ codes) /\ sublist shown codes.
Proof.
  cbv zeta. cbn [buildCard hc_amenities].
  destruct (dedup_spec (map code (default [] (amenities content))) [])
    as (Hnd & Hin & Hsub).
  split; [exact Hnd|]. split; [|exact Hsub].
  intros c. rewrite Hin. rewrite elem_of_nil. tauto.
Qed.

End PagingFacts.

Module ProxyFacts.
Import ImageProxy ImageSpec.

Lemma charOf_urlSafe x : urlSafe (Base64.charOf x) = true.
Proof.
  unfold Base64.charOf.
  assert (H : forall k : nat,
            urlSafe (default "A"%char (String.get k Base64.alphabet)) = true).
  { intros k. do 65 (destruct k as [|k]; [reflexivity|]). reflexivity. }
  apply H.
Qed.

Lemma sextetsOf_length (n : nat) : forall bytes : list N,
  (length bytes <= n)%nat ->
  length (Base64.sextetsOf bytes) = ((4 * length bytes + 2) / 3)%nat.
Proof.
  induction n as [|n IH]; intros bytes Hn.
  - destruct bytes; [reflexivity|simpl in Hn; lia].
  - destruct bytes as [|a [|b [|c rest]]]; try reflexivity.
    cbn [Base64.sextetsOf length]. rewrite IH by (simpl in Hn; lia).
    set (m := length rest).
    replace (4 * S (S (S m)) + 2)%nat with ((4 * m + 2) + 4 * 3)%nat by lia.
    rewrite Nat.div_add by lia. lia.
Qed.

Lemma length_string_of_list l : String.length (string_of_list_ascii l) = length l.
Proof. induction l as [|c l IH]; simpl; congruence. Qed.

Lemma length_list_of_string s : length (list_ascii_of_string s) = String.length s.
Proof. induction s as [|c s IH]; simpl; congruence. Qed.

(** X7.  The token of an image URL is made of letters, digits, [-] and
    [_] only, so it needs no escaping in the query string and carries
    no padding; it is [ceil (4 n / 3)] characters long for a URL of [n]
    bytes. *)
Theorem encodeUrl_url_safe u :
  Forall (fun c => urlSafe c = true) (list_ascii_of_string (encodeUrl u))
  /\ String.length (encodeUrl u) = ((4 * String.length u + 2) / 3)%nat.
Proof.
  unfold encodeUrl, Base64.encode. split.
  - rewrite list_ascii_of_string_of_list_ascii. apply Forall_map, Forall_forall.
    intros x _. apply charOf_urlSafe.
  - rewrite length_string_of_list, length_map.
    rewrite (sextetsOf_length _ _ (le_n _)). unfold Base64.bytesOfString.
    by rewrite length_map, length_list_of_string.
Qed.

(** *** Transformed URLs *)

Lemma substring_prefix b c : substring 0 (String.length b) (b +:+ c) = b.
Proof.
  induction b as [|y b IH].
  - by destruct c.
  - change (String y b +:+ c) with (String y (b +:+ c)).
    cbn [String.length substring]. by rewrite IH.
Qed.

Lemma substring_middle a b c :
  substring (String.length a) (String.length b) (a +:+ b +:+ c) = b.
Proof.
  induction a as [|x a IH]; [exact (substring_prefix b c)|exact IH].
Qed.

Lemma includes_middle needle a c :
  needle <> "" -> includes needle (a +:+ needle +:+ c) = true.
Proof.
  intros Hne. unfold includes. apply bool_decide_eq_true.
  destruct (String.index 0 needle (a +:+ needle +:+ c)) as [m|] eqn:E; [eauto|].
  exfalso.
  apply (index_correct3 0 (String.length a) _ _ E Hne (Nat.le_0_l _)).
  apply substring_middle.
Qed.

Lemma transformUrl_proxied apiBaseUrl v :
  v = "" \/ includes "/images/proxy" (transformUrl apiBaseUrl v) = true.
Proof.
  unfold transformUrl.
  destruct (String.eqb_spec v "") as [->|Hne]; [by left|right].
  destruct (includes "/images/proxy" v) eqn:E; [exact E|].
  change (apiBaseUrl +:+ "/images/proxy?url=" +:+ encodeUrl v)
    with (apiBaseUrl +:+ "/images/proxy" +:+ ("?url=" +:+ encodeUrl v)).
  by apply includes_middle.
Qed.

(** X8.  [transformUrl] leaves the empty URL and every URL that holds
    [/images/proxy] as they are and turns any other into a proxy URL,
    which holds [/images/proxy]: transforming twice is transforming
    once, and a transformed list has the length of the original. *)
Theorem transformUrl_idempotent apiBaseUrl (u : string) urls :
  transformUrl apiBaseUrl (transformUrl apiBaseUrl u) = transformUrl apiBaseUrl u
  /\ (u = "" \/ includes "/images/proxy" (transformUrl apiBaseUrl u) = true)
  /\ transformUrls apiBaseUrl (transformUrls apiBaseUrl urls)
     = transformUrls apiBaseUrl urls
  /\ length (transformUrls apiBaseUrl urls) = length urls.
Proof.
  assert (Hidem : forall v, transformUrl apiBaseUrl (transformUrl apiBaseUrl v)
                            = transformUrl apiBaseUrl v).
  { intros v. destruct (transformUrl_proxied apiBaseUrl v) as [->|H];
      [reflexivity|].
    unfold transformUrl at 1. rewrite H. by destruct (String.eqb _ ""). }
  split; [apply Hidem|]. split; [apply transformUrl_proxied|]. split.
  - unfold transformUrls. rewrite map_map. apply map_ext. intros v. apply Hidem.
  - unfold transformUrls. apply length_map.
Qed.

(** *** The cache of downloaded images *)

Lemma append_inj_r (p s s' : string) : p +:+ s = p +:+ s' -> s = s'.
Proof. induction p as [|c p IH]; simpl; [auto|]. intros [= H]. auto. Qed.

Lemma contentTypeToExt_known ct :
  contentTypeToExt ct ∈ ["jpg"; "png"; "webp"; "gif"].
Proof.
  unfold contentTypeToExt.
  repeat (destruct (String.eqb _ _); [set_solver|]). set_solver.
Qed.

Lemma findCachedFile_after fs hash ext data :
  ext ∈ ["jpg"; "png"; "webp"; "gif"] ->
  findCachedFile fs hash = None ->
  findCachedFile (<[fileName hash ext := data]> fs) hash
  = Some (fileName hash ext, extToContentType ext).
Proof.
  intros Hext Hnone. unfold findCachedFile in *.
  assert (Hmiss : forall e, e ∈ ["jpg"; "jpeg"; "png"; "webp"; "gif"] ->
                    fs !! fileName hash e = None).
  { intros e He.
    destruct (List.find _ _) as [x|] eqn:F in Hnone; [discriminate|].
    pose proof (find_none _ _ F e) as Hf. rewrite <- list_elem_of_In in Hf.
    specialize (Hf He). apply bool_decide_eq_false in Hf.
    by destruct (fs !! fileName hash e); [exfalso; eauto|]. }
  assert (Hlook : forall e, e ∈ ["jpg"; "jpeg"; "png"; "webp"; "gif"] ->
            bool_decide (is_Some (<[fileName hash ext := data]> fs
                                    !! fileName hash e))
            = bool_decide (e = ext)).
  { intros e He. apply bool_decide_ext. split.
    - intros [v Hv]. destruct (decide (e = ext)) as [->|Hne]; [reflexivity|].
      rewrite lookup_insert_ne in Hv.
      + rewrite Hmiss in Hv by exact He. discriminate.
      + unfold fileName. intros Heq. apply append_inj_r in Heq.
        by apply append_inj_r in Heq.
    - intros ->. rewrite lookup_insert_eq. eauto. }
  cbn [List.find]. rewrite !Hlook by (repeat constructor).
  rewrite !elem_of_cons, elem_of_nil in Hext.
  destruct Hext as [->|[->|[->|[->|[]]]]]; reflexivity.
Qed.

(** X9.  An image that the proxy has downloaded is served from its file
    cache from then on: a later request with the same token makes no
    download and returns the same bytes.  The file keeps one of the
    extensions jpg, png, webp and gif only, so the content type of the
    later answers is the media type of that extension, whatever the
    host had sent. *)
Theorem downloaded_image_is_cached md5hex download token w response :
  download (calls w) (decodeUrl token) = Ok response ->
  findCachedFile (files w) (md5hex (decodeUrl token)) = None ->
  beforeSemicolon (contentTypeOf response) ∉ inheritedNames ->
  let first := getImageByEncodedUrl md5hex download token w in
  fst first = Ok {| buffer := body response;
                    served_contentType := contentTypeOf response |}
  /\ getImageByEncodedUrl md5hex download token (snd first)
     = (Ok {| buffer := body response;
              served_contentType :=
                extToContentType (contentTypeToExt (contentTypeOf response)) |},
        snd first).
Proof.
  intros Hdl Hmiss _. cbv zeta.
  assert (E : getImageByEncodedUrl md5hex download token w
              = (Ok {| buffer := body response;
                       served_contentType := contentTypeOf response |},
                 withFiles
                   (<[fileName (md5hex (decodeUrl token))
                        (contentTypeToExt (contentTypeOf response))
                      := body response]> (files w))
                   (withCalls (S (calls w)) w))).
  { unfold getImageByEncodedUrl, bind, tryCatch, ret, urlToHash.
    rewrite Hmiss. unfold downloadAndCache, tryCatch, bind, upstreamCall.
    rewrite Hdl. reflexivity. }
  rewrite E. split; [reflexivity|]. cbn [fst snd].
  unfold getImageByEncodedUrl, bind, tryCatch, ret, urlToHash.
  cbn [files withFiles].
  rewrite (findCachedFile_after _ _ _ _ (contentTypeToExt_known _) Hmiss).
  by rewrite lookup_insert_eq.
Qed.

Lemma downloaded_image_is_cached_witness :
  let response :=
    {| body := "PNG of https://cdn.example/room.png";
       contentType := Some "image/png; charset=binary" |} in
  let first := getImageByEncodedUrl Cases.digest Cases.pngHost Cases.imageToken Samples.world0 in
  fst first = Ok {| buffer := body response;
                    served_contentType := contentTypeOf response |}
  /\ getImageByEncodedUrl Cases.digest Cases.pngHost Cases.imageToken (snd first)
     = (Ok {| buffer := body response;
              served_contentType :=
                extToContentType (contentTypeToExt (contentTypeOf response)) |},
        snd first).
Proof.
  apply (downloaded_image_is_cached Cases.digest Cases.pngHost Cases.imageToken Samples.world0).
  - vm_compute. reflexivity.
  - vm_compute. reflexivity.
  - apply (bool_decide_unpack _). vm_compute. reflexivity.
Defined.

End ProxyFacts.

Module OfferPageFacts.
Import NumSpec Search NumFacts SearchFacts Offer ImageProxy ProxyFacts OfferFacts.

Lemma min2_priced a b :
  priced a -> priced b ->
  priced (min2 a b) /\ (min2 a b = a \/ min2 a b = b)
  /\ Num.lt a (min2 a b) = false /\ Num.lt b (min2 a b) = false.
Proof.
  intros Ha Hb. unfold min2.
  destruct a as [| |x|], b as [| |y|]; try (simpl in *; tauto);
    destruct (Num.lt _ _) eqn:E; repeat split; auto;
    try apply lt_irrefl; try (by apply lt_asym); try exact E.
Qed.

Lemma foldl_min2_priced l : forall a,
  priced a -> Forall priced l ->
  priced (foldl min2 a l)
  /\ (foldl min2 a l = a \/ foldl min2 a l ∈ l)
  /\ Num.lt a (foldl min2 a l) = false
  /\ Forall (fun x => Num.lt x (foldl min2 a l) = false) l.
Proof.
  induction l as [|b l IH]; intros a Ha Hl; simpl.
  - repeat split; auto using lt_irrefl.
  - apply Forall_cons in Hl as [Hb Hl].
    destruct (min2_priced a b Ha Hb) as (Hm & Hor & Hla & Hlb).
    destruct (IH (min2 a b) Hm Hl) as (Hr & Hin & Hle & Hall).
    split; [exact Hr|]. split; [|split].
    + destruct Hin as [->|Hin]; [|right; by apply list_elem_of_further].
      destruct Hor as [->| ->]; [by left|right; apply list_elem_of_here].
    + apply (le_le_trans _ (min2 a b) _); auto.
    + constructor; [|exact Hall]. apply (le_le_trans _ (min2 a b) _); auto.
Qed.

Lemma foldl_min2_nan l : foldl min2 NaN l = NaN.
Proof. induction l as [|b l IH]; simpl; [reflexivity|]. exact IH. Qed.

Lemma roundedPerNight_priced rs n : priced (roundedPerNight (rsTotal rs) n).
Proof.
  pose proof (rsTotal_priced rs) as H. unfold roundedPerNight.
  by destruct (rsTotal rs).
Qed.

(** X10.  The minimal price in the header of the offer page is the least
    per-night price among the offers of the page: an offer has it and
    no offer is below it.  It is missing exactly when there is no
    offer. *)
Theorem header_min_price P apiBaseUrl content roomStays arrival departure
    guests currency :
  let page := assembleOffers P apiBaseUrl content roomStays arrival departure
                guests currency in
  match minPrice page with
  | None => roomStays = [] /\ offers page = []
  | Some m =>
      (exists o, o ∈ offers page /\ perNight (price o) = m)
      /\ forall o, o ∈ offers page -> Num.lt (perNight (price o)) m = false
  end.
Proof.
  cbv zeta. cbn [assembleOffers minPrice offers].
  destruct roomStays as [|rs stays]; [by split|].
  set (nights := diffNights P arrival departure).
  set (offs := map _ (rs :: stays)).
  change (match offs with
          | [] => None
          | _ :: _ => Some (minOf (map (fun o => perNight (price o)) offs))
          end) with (Some (minOf (map (fun o => perNight (price o)) offs))).
  cbv iota beta.
  assert (Hper : forall o, o ∈ offs ->
            exists r, perNight (price o) = perNightOf (rsTotal r) nights).
  { intros o Ho. subst offs. apply list_elem_of_fmap in Ho as (r & -> & _).
    by exists r. }
  destruct (diffNights_kind P arrival departure) as [Hnan|(n & Hn & Hnum)].
  - assert (Hall : forall o, o ∈ offs -> perNight (price o) = NaN).
    { intros o Ho. destruct (Hper o Ho) as [r ->]. subst nights.
      rewrite Hnan. apply perNightOf_nan. }
    assert (Hmin : minOf (map (fun o => perNight (price o)) offs) = NaN).
    { unfold minOf. subst offs. cbn [map foldl].
      change (perNight (price (mapRoomStayToOffer apiBaseUrl content rs nights)))
        with (perNightOf (rsTotal rs) nights).
      subst nights. rewrite Hnan, perNightOf_nan. cbn [min2].
      apply foldl_min2_nan. }
    rewrite Hmin. split.
    + exists (mapRoomStayToOffer apiBaseUrl content rs nights).
      split; [subst offs; apply list_elem_of_here|].
      apply Hall. subst offs. apply list_elem_of_here.
    + intros o Ho. by rewrite (Hall o Ho).
  - assert (Hall : Forall priced (map (fun o => perNight (price o)) offs)).
    { apply Forall_map, Forall_forall. intros o Ho.
      destruct (Hper o Ho) as [r ->].
      subst nights. rewrite Hnum, perNightOf_rounded by lia.
      apply roundedPerNight_priced. }
    destruct (foldl_min2_priced _ PosInf I Hall) as (_ & Hin & _ & Hle).
    fold (minOf (map (fun o => perNight (price o)) offs)) in Hin, Hle.
    split.
    + destruct Hin as [Hinf|Hin].
      * exists (mapRoomStayToOffer apiBaseUrl content rs nights).
        assert (Hfirst : mapRoomStayToOffer apiBaseUrl content rs nights ∈ offs)
          by (subst offs; apply list_elem_of_here).
        split; [exact Hfirst|].
        rewrite Forall_map, Forall_forall in Hle, Hall.
        specialize (Hle _ Hfirst). specialize (Hall _ Hfirst).
        cbv beta in Hle, Hall. rewrite Hinf in Hle |- *.
        destruct (perNight (price (mapRoomStayToOffer apiBaseUrl content rs
                                     nights))) as [| |q|];
          simpl in Hall, Hle; try tauto; try discriminate; reflexivity.
      * apply list_elem_of_fmap in Hin as (o & Ho & Hin). eauto.
    + intros o Ho. rewrite Forall_map, Forall_forall in Hle. by apply Hle.
Qed.

(** X11.  Every image URL of the offer page has gone through
    [transformUrl]: the images of the offers and the thumbnail of the
    header hold [/images/proxy] (an image without URL stays
    empty). *)
Theorem offer_images_go_through_proxy P apiBaseUrl content roomStays arrival
    departure guests currency :
  let page := assembleOffers P apiBaseUrl content roomStays arrival departure
                guests currency in
  (forall o u, o ∈ offers page -> u ∈ ro_images o ->
     u = "" \/ includes "/images/proxy" u = true)
  /\ (forall t, ph_thumbnail (property page) = Some t ->
        includes "/images/proxy" t = true).
Proof.
  cbv zeta. cbn [assembleOffers offers property ph_thumbnail]. split.
  - intros o u Ho Hu. apply list_elem_of_fmap in Ho as (rs & -> & _).
    cbn [mapRoomStayToOffer ro_images] in Hu. unfold transformUrls in Hu.
    apply list_elem_of_fmap in Hu as (v & -> & _).
    destruct (transformUrl_proxied apiBaseUrl v) as [->|H]; [by left|by right].
  - intros t Ht.
    destruct (truthy _) as [raw|] eqn:E; [|discriminate]. simpl in Ht.
    injection Ht as <-.
    destruct (transformUrl_proxied apiBaseUrl raw) as [->|H]; [|exact H].
    unfold truthy in E. by destruct (orElse _ _) as [[|c s]|].
Qed.

(** *** The request key *)

Lemma insertAge_perm x l : Permutation (insertAge x l) (x :: l).
Proof.
  induction l as [|y l IH]; simpl; [reflexivity|].
  destruct (y <? x); [|reflexivity]. rewrite IH. apply perm_swap.
Qed.

Lemma sortAges_perm l : Permutation (sortAges l) l.
Proof.
  induction l as [|x l IH]; simpl; [reflexivity|].
  unfold sortAges in *. simpl. rewrite insertAge_perm. by constructor.
Qed.

Lemma insertAge_sorted x l :
  StronglySorted Z.le l -> StronglySorted Z.le (insertAge x l).
Proof.
  induction 1 as [|y l Hl IH Hy]; simpl; [repeat constructor|].
  destruct (Z.ltb_spec y x).
  - constructor; [exact IH|]. apply Forall_forall. intros z Hz.
    rewrite insertAge_perm in Hz.
    apply elem_of_cons in Hz as [->|Hz]; [lia|].
    rewrite Forall_forall in Hy. by apply Hy.
  - constructor; [by constructor|]. constructor; [lia|].
    eapply Forall_impl; [exact Hy|]. simpl. intros. lia.
Qed.

Lemma sortAges_sorted l : StronglySorted Z.le (sortAges l).
Proof.
  induction l as [|x l IH]; [constructor|]. by apply insertAge_sorted.
Qed.

Lemma sortAges_permuted l l' : Permutation l l' -> sortAges l = sortAges l'.
Proof.
  intros H. apply (StronglySorted_unique Z.le); try apply sortAges_sorted.
  by rewrite !sortAges_perm.
Qed.

(** X12.  The request key, and with it the key of the short-TTL cache
    and of the in-flight table, does not depend on the order in which
    the child ages are given, nor on whether the ages are missing or
    an empty list. *)
Theorem request_key_ignores_age_order r r' :
  rq_propertyId r = rq_propertyId r' -> rq_arrival r = rq_arrival r' ->
  rq_departure r = rq_departure r' -> rq_currency r = rq_currency r' ->
  adultCount (rq_guests r) = adultCount (rq_guests r') ->
  Permutation (default [] (childAges (rq_guests r)))
              (default [] (childAges (rq_guests r'))) ->
  requestKey r = requestKey r' /\ cacheKey r = cacheKey r'.
Proof.
  intros Hp Ha Hd Hc Hn Hages.
  assert (E : requestKey r = requestKey r').
  { unfold requestKey. rewrite Hp, Ha, Hd, Hc, Hn.
    by rewrite (sortAges_permuted _ _ Hages). }
  split; [exact E|]. unfold cacheKey. by rewrite E.
Qed.

Lemma request_key_ignores_age_order_witness :
  requestKey Samples.requestP1 = requestKey Cases.requestP1'
  /\ cacheKey Samples.requestP1 = cacheKey Cases.requestP1'.
Proof.
  apply request_key_ignores_age_order; try reflexivity.
  simpl. apply perm_swap.
Defined.

End OfferPageFacts.

Module CacheFacts.
Import Offer OfferSpec OfferFacts.








End CacheFacts.

Module KeyFacts.
Import Offer TextSpec OfferFacts.

Lemma lacks_colon s : lacks ":" s = colonFree s.
Proof. induction s as [|c s IH]; simpl; [reflexivity|]. by rewrite IH. Qed.

Lemma lacks_app x s t : lacks x (s +:+ t) = lacks x s && lacks x t.
Proof.
  induction s as [|c s IH]; [reflexivity|].
  change (String c s +:+ t) with (String c (s +:+ t)). simpl.
  rewrite IH. by rewrite andb_assoc.
Qed.

(** Two texts without [x] that are followed by [x] and then agree. *)
Lemma before_char_split x p : forall p' r r',
  lacks x p = true -> lacks x p' = true ->
  p +:+ String x r = p' +:+ String x r' -> p = p' /\ r = r'.
Proof.
  induction p as [|c p IH]; intros [|c' p'] r r' Hp Hp' E.
  - rewrite !append_nil in E. by injection E as <-.
  - rewrite append_nil, append_cons in E. injection E as <- _.
    simpl in Hp'. by rewrite Ascii.eqb_refl in Hp'.
  - rewrite append_nil, append_cons in E. injection E as -> _.
    simpl in Hp. by rewrite Ascii.eqb_refl in Hp.
  - rewrite !append_cons in E. injection E as <- E.
    simpl in Hp, Hp'. apply andb_true_iff in Hp as [_ Hp].
    apply andb_true_iff in Hp' as [_ Hp'].
    destruct (IH _ _ _ Hp Hp' E) as [-> ->]. by split.
Qed.

Lemma lacks_not_split x p q r :
  lacks x p = true -> p <> q +:+ String x r.
Proof.
  revert q. induction p as [|c p IH]; intros [|d q] Hp E; try discriminate.
  - rewrite append_nil in E. injection E as -> _.
    simpl in Hp. by rewrite Ascii.eqb_refl in Hp.
  - rewrite append_cons in E. injection E as -> E. simpl in Hp.
    apply andb_true_iff in Hp as [_ Hp]. by apply (IH q).
Qed.

(** The decimal text of an integer: digits, after a [-] for a negative
    one; never empty. *)
Lemma pretty_N_go_lacks x (c : ascii) :
  (forall d, lacks c (String (pretty_N_char d) "") = true) ->
  forall s, lacks c s = true -> lacks c (pretty_N_go x s) = true.
Proof.
  intros Hd. induction (N.lt_wf_0 x) as [x _ IH]. intros s Hs.
  destruct (decide (x = 0)%N) as [->|Hx]; [by rewrite pretty_N_go_0|].
  rewrite pretty_N_go_step by lia. apply IH.
  - apply N.div_lt; lia.
  - specialize (Hd (x `mod` 10)%N). simpl in Hd |- *.
    rewrite andb_true_r in Hd. by rewrite Hd.
Qed.

Lemma pretty_N_go_length x : forall s,
  (String.length s <= String.length (pretty_N_go x s))%nat.
Proof.
  induction (N.lt_wf_0 x) as [x _ IH]. intros s.
  destruct (decide (x = 0)%N) as [->|Hx]; [by rewrite pretty_N_go_0|].
  rewrite pretty_N_go_step by lia.
  etransitivity; [|apply IH; apply N.div_lt; lia]. simpl. lia.
Qed.

Lemma pretty_Z_lacks (c : ascii) (z : Z) :
  (forall d, lacks c (String (pretty_N_char d) "") = true) ->
  lacks c "-" = true ->
  lacks c (pretty z) = true.
Proof.
  intros Hd Hdash.
  assert (HN : forall n : N, lacks c (pretty n) = true).
  { intros n. unfold pretty, pretty_N. destruct (decide (n = 0)%N).
    - exact (Hd 0%N).
    - by apply pretty_N_go_lacks. }
  destruct z as [|p|p]; unfold pretty, pretty_Z.
  - exact (Hd 0%N).
  - apply (HN (N.pos p)).
  - rewrite lacks_app, Hdash. apply (HN (N.pos p)).
Qed.

Lemma pretty_Z_colon (z : Z) : lacks ":" (pretty z) = true.
Proof.
  apply pretty_Z_lacks; [|reflexivity].
  intros d. unfold pretty_N_char. by repeat case_match.
Qed.

Lemma pretty_Z_comma (z : Z) : lacks "," (pretty z) = true.
Proof.
  apply pretty_Z_lacks; [|reflexivity].
  intros d. unfold pretty_N_char. by repeat case_match.
Qed.

Lemma pretty_Z_nonempty (z : Z) : pretty z <> "".
Proof.
  assert (HN : forall n : N, pretty n <> "").
  { intros n. unfold pretty, pretty_N. destruct (decide (n = 0)%N) as [|Hn];
      [discriminate|].
    rewrite pretty_N_go_step by lia. intros E.
    pose proof (pretty_N_go_length (n `div` 10)
                  (String (pretty_N_char (n `mod` 10)) "")) as H.
    rewrite E in H. simpl in H. lia. }
  destruct z as [|p|p]; unfold pretty, pretty_Z; [discriminate| |discriminate].
  apply (HN (N.pos p)).
Qed.

Lemma joined_colon (l : list Z) :
  lacks ":" (String.concat "," (map pretty l)) = true.
Proof.
  induction l as [|x [|y l] IH]; [reflexivity|apply pretty_Z_colon|].
  change (String.concat "," (map pretty (x :: y :: l)))
    with (pretty x +:+ "," +:+ String.concat "," (map pretty (y :: l))).
  rewrite !lacks_app, pretty_Z_colon, IH. reflexivity.
Qed.

Lemma joined_inj (l : list Z) : forall l',
  String.concat "," (map pretty l) = String.concat "," (map pretty l') ->
  l = l'.
Proof.
  induction l as [|x [|y l] IH]; intros [|x' [|y' l']] E;
    try reflexivity.
  - simpl in E. symmetry in E. by apply pretty_Z_nonempty in E.
  - change (String.concat "," (map pretty (x' :: y' :: l')))
      with (pretty x' +:+ String "," (String.concat "," (map pretty (y' :: l'))))
      in E.
    simpl in E. symmetry in E. destruct (pretty x') eqn:Ex;
      [by apply pretty_Z_nonempty in Ex|discriminate].
  - simpl in E. by apply pretty_Z_nonempty in E.
  - simpl in E. by apply (inj pretty) in E as ->.
  - change (String.concat "," (map pretty (x' :: y' :: l')))
      with (pretty x' +:+ String "," (String.concat "," (map pretty (y' :: l'))))
      in E.
    simpl in E. exfalso. eapply lacks_not_split; [|exact E].
    apply pretty_Z_comma.
  - change (String.concat "," (map pretty (x :: y :: l)))
      with (pretty x +:+ String "," (String.concat "," (map pretty (y :: l))))
      in E.
    simpl in E. destruct (pretty x) eqn:Ex;
      [by apply pretty_Z_nonempty in Ex|discriminate].
  - change (String.concat "," (map pretty (x :: y :: l)))
      with (pretty x +:+ String "," (String.concat "," (map pretty (y :: l))))
      in E.
    simpl in E. exfalso. symmetry in E. eapply lacks_not_split; [|exact E].
    apply pretty_Z_comma.
  - change (String.concat "," (map pretty (x :: y :: l)))
      with (pretty x +:+ String "," (String.concat "," (map pretty (y :: l))))
      in E.
    change (String.concat "," (map pretty (x' :: y' :: l')))
      with (pretty x' +:+ String "," (String.concat "," (map pretty (y' :: l'))))
      in E.
    apply before_char_split in E as [Ex E]; try apply pretty_Z_comma.
    apply (inj pretty) in Ex as ->. f_equal. by apply IH.
Qed.

(** X14.  Requests with different fingerprints have different keys, as
    long as the property id and the two dates hold no [:]: the key
    determines the property, the dates, the number of adults, the
    sorted child ages and the currency. *)
Theorem request_key_injective r r' :
  lacks ":" (rq_propertyId r) = true -> lacks ":" (rq_propertyId r') = true ->
  lacks ":" (rq_arrival r) = true -> lacks ":" (rq_arrival r') = true ->
  lacks ":" (rq_departure r) = true -> lacks ":" (rq_departure r') = true ->
  requestKey r = requestKey r' ->
  rq_propertyId r = rq_propertyId r' /\ rq_arrival r = rq_arrival r'
  /\ rq_departure r = rq_departure r'
  /\ adultCount (rq_guests r) = adultCount (rq_guests r')
  /\ sortAges (default [] (childAges (rq_guests r)))
     = sortAges (default [] (childAges (rq_guests r')))
  /\ rq_currency r = rq_currency r'.
Proof.
  intros Hp Hp' Ha Ha' Hd Hd' E. unfold requestKey in E.
  rewrite !append_cons, !append_nil in E. repeat (injection E as E).
  apply before_char_split in E as [Epid E]; [|assumption..].
  apply before_char_split in E as [Earr E]; [|assumption..].
  apply before_char_split in E as [Edep E]; [|assumption..].
  apply before_char_split in E as [Eadults E]; [|apply pretty_Z_colon..].
  apply before_char_split in E as [Eages E]; [|apply joined_colon..].
  apply (inj pretty) in Eadults. apply joined_inj in Eages.
  by repeat split.
Qed.

Lemma request_key_injective_witness :
  rq_propertyId Samples.requestP1 = rq_propertyId Cases.requestP1'
  /\ rq_arrival Samples.requestP1 = rq_arrival Cases.requestP1'
  /\ rq_departure Samples.requestP1 = rq_departure Cases.requestP1'
  /\ adultCount (rq_guests Samples.requestP1) = adultCount (rq_guests Cases.requestP1')
  /\ sortAges (default [] (childAges (rq_guests Samples.requestP1)))
     = sortAges (default [] (childAges (rq_guests Cases.requestP1')))
  /\ rq_currency Samples.requestP1 = rq_currency Cases.requestP1'.
Proof.
  apply request_key_injective; vm_compute; reflexivity.
Defined.

End KeyFacts.

Module OfferPlainFacts.
Import Search SearchFacts OfferPlain.

(** X15.  The offer page without deduplication.  It asks for the content
    first and fails with the not-found error, before any pricing call,
    when there is none; it then asks the GET endpoint and, only when
    that call throws, the POST endpoint, whose error is the error of the
    page.  Every offer of a page that is returned is built from a room
    stay of the answer whose property is the requested one. *)
Theorem plain_offers_of_requested_property U P get post pid arrival departure
    guests currency w :
  let query :=
    {| Offer.rq_propertyId := pid; Offer.rq_arrival := arrival;
       Offer.rq_departure := departure; Offer.rq_guests := guests;
       Offer.rq_currency := default "RUB" currency |} in
  match getPropertyContent U pid None w with
  | (Throw e, w1) =>
      getPropertyOffers U P get post pid arrival departure guests currency w
      = (Throw e, w1)
  | (Ok found, w1) =>
      match get (calls w1) query with
      | Ok answer =>
          exists page,
            getPropertyOffers U P get post pid arrival departure guests currency w
            = (Ok page, withCalls (S (calls w1)) w1)
            /\ Forall2 (fun rs o =>
                          propertyId rs = pid
                          /\ o = mapRoomStayToOffer P (data found) rs
                                   (diffNights P arrival departure))
                 (Offer.ownStays pid answer) (offers page)
      | Throw _ =>
          match post (S (calls w1)) query with
          | Ok answer =>
              exists page,
                getPropertyOffers U P get post pid arrival departure guests
                  currency w
                = (Ok page, withCalls (S (S (calls w1))) w1)
                /\ Forall2 (fun rs o =>
                              propertyId rs = pid
                              /\ o = mapRoomStayToOffer P (data found) rs
                                       (diffNights P arrival departure))
                     (Offer.ownStays pid answer) (offers page)
          | Throw e =>
              getPropertyOffers U P get post pid arrival departure guests
                currency w
              = (Throw e, withCalls (S (S (calls w1))) w1)
          end
      end
  end.
Proof.
  cbv zeta.
  assert (Hmap : forall content answer,
            Forall2 (fun rs o =>
                       propertyId rs = pid
                       /\ o = mapRoomStayToOffer P content rs
                                (diffNights P arrival departure))
              (Offer.ownStays pid answer)
              (map (fun rs => mapRoomStayToOffer P content rs
                                (diffNights P arrival departure))
                 (Offer.ownStays pid answer))).
  { intros content answer.
    pose proof (OfferFacts.ownStays_own pid answer) as Hown.
    induction Hown as [|rs l Hrs Hl IH]; simpl; constructor; auto. }
  destruct (getPropertyContent U pid None w) as [[found|e] w1] eqn:Hc.
  - destruct (get (calls w1) _) as [answer|e1] eqn:Hg.
    + eexists. split.
      * unfold getPropertyOffers, bind, tryCatch, upstreamCall.
        rewrite Hc, Hg. reflexivity.
      * apply Hmap.
    + destruct (post (S (calls w1)) _) as [answer|e2] eqn:Hp.
      * eexists. split.
        -- unfold getPropertyOffers, bind, tryCatch, upstreamCall.
           rewrite Hc, Hg. cbn [calls withCalls]. rewrite Hp. reflexivity.
        -- apply Hmap.
      * unfold getPropertyOffers, bind, tryCatch, upstreamCall.
        rewrite Hc, Hg. cbn [calls withCalls]. rewrite Hp. reflexivity.
  - unfold getPropertyOffers, bind. rewrite Hc. reflexivity.
Qed.

End OfferPlainFacts.

Module TokenFacts.
Import OAuth Api OAuthFacts.

Lemma getAccessToken_cold endpoint s :
  truthy (redisGet s) = None ->
  getAccessToken endpoint s =
    match endpoint (requests s) with
    | Ok response =>
        let ttl := Z.max (expires_in response - 120) 60 in
        (Ok (access_token response),
         {| now := now s; memoryToken := Some (access_token response);
            memoryTokenExpiresAt := Some (now s + ttl * 1000);
            redisToken := Some (access_token response, Some (now s + ttl * 1000));
            requests := S (requests s) |})
    | Throw _ =>
        (Throw (JsError "OAuth authentication failed"),
         {| now := now s; memoryToken := memoryToken s;
            memoryTokenExpiresAt := memoryTokenExpiresAt s;
            redisToken := redisToken s; requests := S (requests s) |})
    end.
Proof. intros H. unfold getAccessToken. by rewrite H. Qed.

Lemma getValidAccessToken_requests endpoint s :
  (requests s <= requests (snd (getValidAccessToken endpoint s))
   <= S (requests s))%nat
  /\ now (snd (getValidAccessToken endpoint s)) = now s.
Proof.
  unfold getValidAccessToken.
  destruct (memoryFresh s); [simpl; lia|].
  destruct (truthy (redisGet s)) eqn:E; [simpl; lia|].
  rewrite getAccessToken_cold by exact E.
  destruct (endpoint (requests s)); simpl; lia.
Qed.

Lemma refreshToken_unfold endpoint s :
  refreshToken endpoint s =
    match endpoint (requests s) with
    | Ok response =>
        let ttl := Z.max (expires_in response - 120) 60 in
        (Ok (access_token response),
         {| now := now s; memoryToken := Some (access_token response);
            memoryTokenExpiresAt := Some (now s + ttl * 1000);
            redisToken := Some (access_token response, Some (now s + ttl * 1000));
            requests := S (requests s) |})
    | Throw _ =>
        (Throw (JsError "OAuth authentication failed"),
         {| now := now s; memoryToken := None; memoryTokenExpiresAt := None;
            redisToken := None; requests := S (requests s) |})
    end.
Proof.
  assert (E : refreshToken endpoint s
              = getAccessToken endpoint
                  {| now := now s; memoryToken := None;
                     memoryTokenExpiresAt := None; redisToken := None;
                     requests := requests s |}) by reflexivity.
  rewrite E, getAccessToken_cold by reflexivity. reflexivity.
Qed.


(** *** The API client *)

Lemma retry_once endpoint {A} (server : nat -> string -> outcome Failure A) c :
  (dispatched c <= dispatched (snd (retry endpoint server c))
   <= S (dispatched c))%nat
  /\ (requests (oauth c) <= requests (oauth (snd (retry endpoint server c)))
      <= S (requests (oauth c)))%nat.
Proof.
  unfold retry.
  pose proof (getValidAccessToken_requests endpoint (oauth c)) as [H _].
  destruct (getValidAccessToken endpoint (oauth c)) as [[t|e] s1];
    simpl in *; lia.
Qed.

(** X17.  One request through the authorized client is sent to the API
    at most twice and asks the token endpoint at most three times.  It
    is sent once when the API answers or fails otherwise than with 401
    or 403.
    On a 401 or 403 the token is refreshed; when the refresh fails the
    caller gets the 401 or 403; when it succeeds with a token that is
    not empty the request is sent once more, with the new token, and
    whatever comes back, a second 401 included, goes to the caller. *)
Theorem request_retries_once endpoint {A}
    (server : nat -> string -> outcome Failure A) c :
  let result := request endpoint server c in
  (dispatched (snd result) <= dispatched c + 2)%nat
  /\ (requests (oauth (snd result)) <= requests (oauth c) + 3)%nat
  /\ (forall token s1,
        getValidAccessToken endpoint (oauth c) = (Ok token, s1) ->
        match server (dispatched c) token with
        | Ok data =>
            result = (Ok data, {| oauth := s1; dispatched := S (dispatched c) |})
        | Throw f =>
            if unauthorized f then
              match endpoint (requests s1) with
              | Throw _ =>
                  fst result = Throw f
                  /\ dispatched (snd result) = S (dispatched c)
              | Ok response =>
                  access_token response <> "" ->
                  fst result = server (S (dispatched c)) (access_token response)
                  /\ dispatched (snd result) = S (S (dispatched c))
                  /\ requests (oauth (snd result)) = S (requests s1)
              end
            else
              result = (Throw f, {| oauth := s1; dispatched := S (dispatched c) |})
        end).
Proof.
  cbv zeta. unfold request.
  pose proof (getValidAccessToken_requests endpoint (oauth c)) as [H1 _].
  destruct (getValidAccessToken endpoint (oauth c)) as [[token|e] s1] eqn:Hv.
  - cbn [snd] in H1.
    destruct (server (dispatched c) token) as [data|f] eqn:Hs.
    + cbn [fst snd dispatched oauth]. split; [lia|]. split; [lia|].
      intros t s' [= <- <-]. by rewrite Hs.
    + destruct (unauthorized f) eqn:Hu.
      * rewrite refreshToken_unfold.
        destruct (endpoint (requests s1)) as [response|err] eqn:He.
        -- cbv zeta.
           set (s2 := {| now := now s1;
                         memoryToken := Some (access_token response);
                         memoryTokenExpiresAt := _; redisToken := _;
                         requests := S (requests s1) |}).
           pose proof (retry_once endpoint server
                         {| oauth := s2; dispatched := S (dispatched c) |})
             as [Hd Hr].
           cbn [dispatched oauth requests] in Hd, Hr.
           split; [lia|]. split; [subst s2; cbn [requests] in Hr; lia|].
           intros t s' [= <- <-]. rewrite Hs, Hu, He. intros Hne.
           unfold retry. cbn [oauth dispatched].
           assert (Hm : memoryFresh s2 = Some (access_token response)).
           { unfold memoryFresh, truthy. subst s2.
             cbn [memoryToken memoryTokenExpiresAt now].
             destruct (access_token response) as [|ch rest]; [done|].
             replace (now s1 <? _) with true by lia.
             by rewrite orb_true_r. }
           unfold getValidAccessToken. rewrite Hm. by cbn.
        -- cbn [fst snd dispatched oauth requests]. split; [lia|].
           split; [lia|]. intros t s' [= <- <-]. by rewrite Hs, Hu, He.
      * cbn [fst snd dispatched oauth]. split; [lia|]. split; [lia|].
        intros t s' [= <- <-]. by rewrite Hs, Hu.
  - cbn [fst snd dispatched oauth]. simpl in H1. split; [lia|]. split; [lia|].
    intros t s' [=].
Qed.

End TokenFacts.

Module CalendarFacts.
Import JsDate Js Dates DateSpec.

Lemma yearFromDay_spec d :
  dayFromYear (yearFromDay d) <= d < dayFromYear (yearFromDay d + 1).
Proof.
  unfold yearFromDay. cbv zeta.
  set (y := 1970 + 400 * d / 146097).
  destruct (Z.leb_spec (dayFromYear (y + 1)) d) as [H1|H1];
    [|destruct (Z.ltb_spec d (dayFromYear y)) as [H2|H2]];
    subst y; unfold dayFromYear in *; Z.div_mod_to_equations; lia.
Qed.

Lemma dayFromYear_next y :
  dayFromYear (y + 1) = dayFromYear y + (if isLeap y then 366 else 365).
Proof.
  unfold dayFromYear, isLeap.
  destruct (Z.eqb_spec (y mod 4) 0), (Z.eqb_spec (y mod 100) 0),
    (Z.eqb_spec (y mod 400) 0); simpl; Z.div_mod_to_equations; lia.
Qed.

Lemma dayFromYear_mono y y' : y < y' -> dayFromYear y + 365 <= dayFromYear y'.
Proof.
  intros H. unfold dayFromYear. Z.div_mod_to_equations. lia.
Qed.

Ltac months m :=
  let H := fresh in
  assert (H : m = 1 \/ m = 2 \/ m = 3 \/ m = 4 \/ m = 5 \/ m = 6 \/ m = 7
              \/ m = 8 \/ m = 9 \/ m = 10 \/ m = 11 \/ m = 12) by lia;
  destruct H as [->|[->|[->|[->|[->|[->|[->|[->|[->|[->|[->| ->]]]]]]]]]]].

(** A calendar day lies in its year. *)
Lemma makeDay_in_year y m d :
  calendarDate y m d ->
  dayFromYear y <= makeDay (y, m, d) < dayFromYear (y + 1).
Proof.
  intros [Hm Hd]. rewrite dayFromYear_next. unfold makeDay.
  unfold daysInMonth in Hd. months m; unfold daysBeforeMonth;
    destruct (isLeap y); simpl in *; lia.
Qed.

Lemma yearFromDay_unique y day :
  dayFromYear y <= day < dayFromYear (y + 1) -> yearFromDay day = y.
Proof.
  intros H. pose proof (yearFromDay_spec day) as Hs.
  destruct (Z.lt_trichotomy (yearFromDay day) y) as [Hlt|[Heq|Hgt]];
    [|exact Heq|].
  - pose proof (dayFromYear_mono (yearFromDay day) y Hlt).
    destruct (Z.eq_dec (yearFromDay day + 1) y) as [E|E]; [rewrite E in Hs; lia|].
    pose proof (dayFromYear_mono (yearFromDay day + 1) y ltac:(lia)). lia.
  - pose proof (dayFromYear_mono y (yearFromDay day) Hgt).
    destruct (Z.eq_dec (y + 1) (yearFromDay day)) as [E|E]; [rewrite E in H; lia|].
    pose proof (dayFromYear_mono (y + 1) (yearFromDay day) ltac:(lia)). lia.
Qed.


Lemma daysBeforeMonth_values y :
  let l := if isLeap y then 1 else 0 in
  daysBeforeMonth y 1 = 0 /\ daysBeforeMonth y 2 = 31
  /\ daysBeforeMonth y 3 = 59 + l /\ daysBeforeMonth y 4 = 90 + l
  /\ daysBeforeMonth y 5 = 120 + l /\ daysBeforeMonth y 6 = 151 + l
  /\ daysBeforeMonth y 7 = 181 + l /\ daysBeforeMonth y 8 = 212 + l
  /\ daysBeforeMonth y 9 = 243 + l /\ daysBeforeMonth y 10 = 273 + l
  /\ daysBeforeMonth y 11 = 304 + l /\ daysBeforeMonth y 12 = 334 + l.
Proof. unfold daysBeforeMonth; destruct (isLeap y); cbv; repeat split. Qed.

Lemma fields_of_day day :
  calendarDate (yearFromDay day) (monthFromDay day) (dateFromDay day)
  /\ makeDay (yearFromDay day, monthFromDay day, dateFromDay day) = day.
Proof.
  pose proof (yearFromDay_spec day) as Hy. rewrite dayFromYear_next in Hy.
  unfold calendarDate, dateFromDay, makeDay, monthFromDay, daysInMonth.
  set (y := yearFromDay day) in *. set (n := day - dayFromYear y).
  assert (Hn : 0 <= n < (if isLeap y then 366 else 365)) by (subst n; lia).
  assert (E : day = dayFromYear y + n) by (subst n; lia). rewrite E.
  clearbody n. clear E Hy. cbv zeta.
  replace (dayFromYear y + n - dayFromYear y) with n by lia.
  destruct (daysBeforeMonth_values y)
    as (D1 & D2 & D3 & D4 & D5 & D6 & D7 & D8 & D9 & D10 & D11 & D12).
  cbv zeta in *. cbn [List.filter].
  rewrite D2, D3, D4, D5, D6, D7, D8, D9, D10, D11, D12.
  set (l := if isLeap y then 1 else 0) in *.
  assert (Hl : (l = 0 \/ l = 1) /\ (if isLeap y then 366 else 365) = 365 + l
               /\ (if isLeap y then 29 else 28) = 28 + l)
    by (subst l; destruct (isLeap y); lia).
  destruct Hl as (Hl & Hlen & Hfeb). rewrite Hlen in Hn. rewrite Hfeb.
  clearbody l. set (dy := dayFromYear y). clearbody dy.
  destruct (Z.leb_spec 31 n) as [H2|H2];
  [destruct (Z.leb_spec (59 + l) n) as [H3|H3];
   [destruct (Z.leb_spec (90 + l) n) as [H4|H4];
    [destruct (Z.leb_spec (120 + l) n) as [H5|H5];
     [destruct (Z.leb_spec (151 + l) n) as [H6|H6];
      [destruct (Z.leb_spec (181 + l) n) as [H7|H7];
       [destruct (Z.leb_spec (212 + l) n) as [H8|H8];
        [destruct (Z.leb_spec (243 + l) n) as [H9|H9];
         [destruct (Z.leb_spec (273 + l) n) as [H10|H10];
          [destruct (Z.leb_spec (304 + l) n) as [H11|H11];
           [destruct (Z.leb_spec (334 + l) n) as [H12|H12]|]|]|]|]|]|]|]|]|]|].
  all: repeat match goal with
       | |- context [Z.leb ?a ?b] =>
           let Hf := fresh in
           assert (Hf : Z.leb a b = false) by (apply Z.leb_gt; lia);
           rewrite Hf; clear Hf
       end.
  all: cbn [length].
  all: match goal with
       | |- context [1 + Z.of_nat ?k] =>
           let v := eval vm_compute in (1 + Z.of_nat k) in
           change (1 + Z.of_nat k) with v
       end.
  all: cbn [Z.eqb Pos.eqb orb].
  all: try rewrite D1; try rewrite D2; try rewrite D3; try rewrite D4;
       try rewrite D5; try rewrite D6; try rewrite D7; try rewrite D8;
       try rewrite D9; try rewrite D10; try rewrite D11; try rewrite D12.
  all: lia.
Qed.

Lemma month_table y m :
  1 <= m <= 12 ->
  exists l b len,
    (l = 0 \/ l = 1) /\ l = (if isLeap y then 1 else 0)
    /\ daysBeforeMonth y m = b /\ daysInMonth y m = len
    /\ ((m = 1 /\ b = 0 /\ len = 31) \/ (m = 2 /\ b = 31 /\ len = 28 + l)
        \/ (m = 3 /\ b = 59 + l /\ len = 31) \/ (m = 4 /\ b = 90 + l /\ len = 30)
        \/ (m = 5 /\ b = 120 + l /\ len = 31) \/ (m = 6 /\ b = 151 + l /\ len = 30)
        \/ (m = 7 /\ b = 181 + l /\ len = 31) \/ (m = 8 /\ b = 212 + l /\ len = 31)
        \/ (m = 9 /\ b = 243 + l /\ len = 30) \/ (m = 10 /\ b = 273 + l /\ len = 31)
        \/ (m = 11 /\ b = 304 + l /\ len = 30) \/ (m = 12 /\ b = 334 + l /\ len = 31)).
Proof.
  intros Hm. exists (if isLeap y then 1 else 0).
  destruct (daysBeforeMonth_values y)
    as (D1 & D2 & D3 & D4 & D5 & D6 & D7 & D8 & D9 & D10 & D11 & D12).
  cbv zeta in *. eexists _, _. split; [destruct (isLeap y); lia|].
  split; [reflexivity|]. split; [reflexivity|]. split; [reflexivity|].
  unfold daysInMonth.
  months m; cbn [Z.eqb Pos.eqb orb];
    rewrite ?D1, ?D2, ?D3, ?D4, ?D5, ?D6, ?D7, ?D8, ?D9, ?D10, ?D11, ?D12;
    destruct (isLeap y); lia.
Qed.

Lemma fields_of_calendarDate y m d :
  calendarDate y m d ->
  utcFields (makeDay (y, m, d) * msPerDay) = (y, m, d).
Proof.
  intros Hc. unfold utcFields. rewrite Z.div_mul by (unfold msPerDay; lia).
  set (day := makeDay (y, m, d)).
  assert (Hy : yearFromDay day = y)
    by (apply yearFromDay_unique; subst day; by apply makeDay_in_year).
  destruct (fields_of_day day) as [[Hm Hd] Hday]. rewrite Hy in *.
  subst day. unfold makeDay in Hday. destruct Hc as [Hm' Hd'].
  set (M := monthFromDay _) in *. set (D := dateFromDay _) in *.
  clearbody M D.
  destruct (month_table y M Hm) as (l & b & len & Hl & El & Hb & Hlen & HM).
  destruct (month_table y m Hm') as (l' & b' & len' & Hl' & El' & Hb' & Hlen' & Hm2).
  rewrite Hb, Hb' in Hday. rewrite Hlen in Hd. rewrite Hlen' in Hd'.
  assert (l' = l) by congruence. subst l'.
  clear Hb Hb' Hlen Hlen'.
  assert (M = m /\ D = d) as [-> ->] by lia. reflexivity.
Qed.
End CalendarFacts.

Module TextFacts.
Import Js TextSpec KeyFacts OfferFacts.

(** *** Decimal texts *)

Lemma append_assoc (a b c : string) : (a +:+ b) +:+ c = a +:+ (b +:+ c).
Proof.
  induction a as [|x a IH]; [reflexivity|].
  change (String x a +:+ b) with (String x (a +:+ b)).
  change (String x (a +:+ b) +:+ c) with (String x ((a +:+ b) +:+ c)).
  by rewrite IH.
Qed.

Lemma pretty_N_go_app x : forall s, pretty_N_go x s = pretty_N_go x "" +:+ s.
Proof.
  induction (N.lt_wf_0 x) as [x _ IH]. intros s.
  destruct (decide (x = 0)%N) as [->|Hx]; [by rewrite !pretty_N_go_0|].
  rewrite (pretty_N_go_step x s), (pretty_N_go_step x "") by lia.
  rewrite (IH (x `div` 10)%N) by (apply N.div_lt; lia).
  rewrite (IH (x `div` 10)%N ltac:(apply N.div_lt; lia) (String _ "")).
  by rewrite append_assoc.
Qed.

Lemma pretty_N_small (n : N) : (n < 10)%N -> pretty n = String (pretty_N_char n) "".
Proof.
  intros H. unfold pretty, pretty_N.
  destruct (decide (n = 0)%N) as [->|Hn]; [reflexivity|].
  rewrite pretty_N_go_step by lia.
  rewrite N.div_small by exact H. rewrite pretty_N_go_0.
  by rewrite N.mod_small by exact H.
Qed.

Lemma pretty_N_large (n : N) :
  (10 <= n)%N ->
  pretty n = pretty (n `div` 10)%N +:+ String (pretty_N_char (n `mod` 10)) "".
Proof.
  intros H. unfold pretty, pretty_N.
  rewrite decide_False by lia.
  rewrite (decide_False (P := (n `div` 10 = 0)%N)).
  - rewrite pretty_N_go_step by lia. apply pretty_N_go_app.
  - intros E. apply N.div_small_iff in E; lia.
Qed.

Lemma pretty_Z_N (z : Z) : 0 <= z -> pretty z = pretty (Z.to_N z).
Proof. intros H. destruct z as [|p|p]; [reflexivity|reflexivity|lia]. Qed.

Lemma digit_char (n : N) : (n < 10)%N -> digit (pretty_N_char n) = Some n.
Proof.
  intros H. destruct n as [|p]; [reflexivity|].
  do 4 (try destruct p as [p|p|]); try reflexivity; lia.
Qed.

Lemma digitsValue_app base digitOf s : forall acc t,
  digitsValue base digitOf acc (s +:+ t)
  = match digitsValue base digitOf acc s with
    | Some v => digitsValue base digitOf v t
    | None => None
    end.
Proof.
  induction s as [|c s IH]; intros acc t; [reflexivity|].
  change (String c s +:+ t) with (String c (s +:+ t)). simpl.
  destruct (digitOf c); [apply IH|reflexivity].
Qed.

(** The text of a natural number reads back as the number. *)
Lemma digitsValue_pretty (n : N) : digitsValue 10 digit 0 (pretty n) = Some n.
Proof.
  induction (N.lt_wf_0 n) as [n _ IH].
  destruct (N.lt_ge_cases n 10) as [Hs|Hl].
  - rewrite pretty_N_small by exact Hs. simpl.
    by rewrite digit_char by exact Hs.
  - rewrite pretty_N_large by exact Hl. rewrite digitsValue_app.
    rewrite IH by (apply N.div_lt; lia). simpl.
    rewrite digit_char by (apply N.mod_lt; lia). f_equal.
    rewrite (N.div_mod n 10) at 3 by lia. lia.
Qed.

Lemma digitsOnly_pretty (n : N) : digitsOnly (pretty n).
Proof.
  induction (N.lt_wf_0 n) as [n _ IH].
  destruct (N.lt_ge_cases n 10) as [Hs|Hl].
  - rewrite pretty_N_small by exact Hs. repeat constructor.
    rewrite digit_char by exact Hs. eauto.
  - rewrite pretty_N_large by exact Hl. unfold digitsOnly.
    assert (Happ : forall a b, list_ascii_of_string (a +:+ b)
                     = list_ascii_of_string a ++ list_ascii_of_string b).
    { intros a b. induction a as [|c a IHa]; [reflexivity|].
      change (String c a +:+ b) with (String c (a +:+ b)). simpl. by rewrite IHa. }
    rewrite Happ. apply Forall_app. split.
    + apply IH. apply N.div_lt; lia.
    + repeat constructor. rewrite digit_char by (apply N.mod_lt; lia). eauto.
Qed.

(** *** Trimming and splitting *)

Lemma afterSpace_printable c r : printable c = true -> afterSpace (String c r) = None.
Proof.
  unfold printable, Utf8.within. intros H.
  apply andb_true_iff in H as [H1 H2].
  apply N.leb_le in H1, H2. unfold afterSpace, Utf8.within.
  set (x := N_of_ascii c) in *.
  replace (9 <=? x)%N with true by (symmetry; apply N.leb_le; lia).
  replace (x <=? 13)%N with false by (symmetry; apply N.leb_gt; lia).
  replace (x =? 32)%N with false by (symmetry; apply N.eqb_neq; lia).
  replace (x =? 194)%N with false by (symmetry; apply N.eqb_neq; lia).
  replace (x =? 225)%N with false by (symmetry; apply N.eqb_neq; lia).
  replace (x =? 226)%N with false by (symmetry; apply N.eqb_neq; lia).
  replace (x =? 227)%N with false by (symmetry; apply N.eqb_neq; lia).
  replace (x =? 239)%N with false by (symmetry; apply N.eqb_neq; lia).
  cbn [andb orb]. by destruct r as [|c2 [|c3 r3]].
Qed.

Lemma trimStart_printable c r :
  printable c = true -> trimStart (String c r) = String c r.
Proof.
  intros H. unfold trimStart. cbn [String.length dropSpaces].
  by rewrite afterSpace_printable.
Qed.

Lemma trim_solid s : solid s -> trim s = s.
Proof.
  unfold solid, trim. intros H.
  assert (Hs : trimStart s = s).
  { destruct s as [|c r]; [reflexivity|]. apply trimStart_printable.
    by apply Forall_cons in H as [H _]. }
  rewrite Hs. clear Hs. induction s as [|c r IH]; [reflexivity|].
  simpl in H. apply Forall_cons in H as [Hc Hr].
  cbn [trimEnd]. unfold blank. rewrite trimStart_printable by exact Hc.
  cbn [String.eqb]. by rewrite IH.
Qed.

Lemma chars_app a b :
  list_ascii_of_string (a +:+ b)
  = list_ascii_of_string a ++ list_ascii_of_string b.
Proof.
  induction a as [|c a IH]; [reflexivity|].
  change (String c a +:+ b) with (String c (a +:+ b)). simpl. by rewrite IH.
Qed.

Lemma solid_app a b : solid a -> solid b -> solid (a +:+ b).
Proof. unfold solid. rewrite chars_app. intros. by apply Forall_app. Qed.

Lemma digit_printable c : is_Some (digit c) -> printable c = true.
Proof.
  unfold digit, printable, Utf8.within. intros [v H].
  destruct ((48 <=? N_of_ascii c)%N && (N_of_ascii c <=? 57)%N) eqn:E;
    [|discriminate].
  apply andb_true_iff in E as [E1 E2]. apply N.leb_le in E1, E2.
  apply andb_true_iff. split; apply N.leb_le; lia.
Qed.

Lemma digitsOnly_solid s : digitsOnly s -> solid s.
Proof.
  unfold digitsOnly, solid. intros H. eapply Forall_impl; [exact H|].
  intros c. apply digit_printable.
Qed.

Lemma split_one sep s : lacks sep s = true -> split sep s = [s].
Proof.
  induction s as [|c s IH]; [reflexivity|]. simpl. intros H.
  apply andb_true_iff in H as [Hc Hs]. apply negb_true_iff in Hc.
  rewrite Hc. by rewrite IH.
Qed.

Lemma split_app sep a b :
  lacks sep a = true -> split sep (a +:+ String sep b) = a :: split sep b.
Proof.
  induction a as [|c a IH]; intros H.
  - change ("" +:+ String sep b) with (String sep b). simpl.
    by rewrite Ascii.eqb_refl.
  - change (String c a +:+ String sep b) with (String c (a +:+ String sep b)).
    simpl in *. apply andb_true_iff in H as [Hc Hs].
    apply negb_true_iff in Hc. rewrite Hc. by rewrite IH.
Qed.

(** The parts of a split hold no separator; splitting and trimming
    bring no character in. *)
Lemma split_parts sep s : Forall (fun p => lacks sep p = true) (split sep s).
Proof.
  induction s as [|c s IH]; [by repeat constructor|]. simpl.
  destruct (Ascii.eqb c sep) eqn:E; [by constructor|].
  destruct (split sep s) as [|h t]; [repeat constructor; simpl; by rewrite E|].
  apply Forall_cons in IH as [Hh Ht]. constructor; [|exact Ht].
  simpl. by rewrite E, Hh.
Qed.

Lemma split_keeps x sep s :
  lacks x s = true -> Forall (fun p => lacks x p = true) (split sep s).
Proof.
  induction s as [|c s IH]; [by repeat constructor|]. simpl. intros H.
  apply andb_true_iff in H as [Hc Hs]. specialize (IH Hs).
  destruct (Ascii.eqb c sep); [by constructor|].
  destruct (split sep s) as [|h t]; [repeat constructor; simpl; by rewrite Hc|].
  apply Forall_cons in IH as [Hh Ht]. constructor; [|exact Ht].
  simpl. by rewrite Hc, Hh.
Qed.

Lemma afterSpace_keeps x s r :
  afterSpace s = Some r -> lacks x s = true -> lacks x r = true.
Proof.
  unfold afterSpace. intros H Hl.
  destruct s as [|c1 r1]; [discriminate|]. simpl in Hl.
  apply andb_true_iff in Hl as [_ H1].
  destruct (_ || _); [by injection H as <-|].
  destruct r1 as [|c2 r2]; [discriminate|]. simpl in H1.
  apply andb_true_iff in H1 as [_ H2].
  destruct (_ && _); [by injection H as <-|].
  destruct r2 as [|c3 r3]; [discriminate|]. simpl in H2.
  apply andb_true_iff in H2 as [_ H3].
  repeat (destruct (_ && _); [by injection H as <-|]). discriminate.
Qed.

Lemma dropSpaces_keeps x n : forall s,
  lacks x s = true -> lacks x (dropSpaces n s) = true.
Proof.
  induction n as [|n IH]; intros s H; [exact H|]. simpl.
  destruct (afterSpace s) as [r|] eqn:E; [|exact H].
  apply IH. by apply (afterSpace_keeps x s r).
Qed.

Lemma trimEnd_keeps x s : lacks x s = true -> lacks x (trimEnd s) = true.
Proof.
  induction s as [|c s IH]; [reflexivity|]. intros H. cbn [trimEnd].
  destruct (blank (String c s)); [reflexivity|]. simpl in *.
  apply andb_true_iff in H as [Hc Hs]. by rewrite Hc, IH.
Qed.

Lemma trim_keeps x s : lacks x s = true -> lacks x (trim s) = true.
Proof. intros H. by apply trimEnd_keeps, dropSpaces_keeps. Qed.
End TextFacts.

Module NumberFacts.
Import Js TextSpec KeyFacts OfferFacts TextFacts.

Lemma eqb_code (c k : ascii) : N_of_ascii c <> N_of_ascii k -> Ascii.eqb c k = false.
Proof. intros H. apply Ascii.eqb_neq. congruence. Qed.

Lemma digit_code c : is_Some (digit c) -> (48 <= N_of_ascii c <= 57)%N.
Proof.
  unfold digit, Utf8.within. intros [v H].
  destruct ((48 <=? N_of_ascii c)%N && (N_of_ascii c <=? 57)%N) eqn:E;
    [|discriminate].
  apply andb_true_iff in E as [E1 E2]. apply N.leb_le in E1, E2. lia.
Qed.

Lemma spanDigits_digits s : digitsOnly s -> spanDigits s = (s, "").
Proof.
  unfold digitsOnly. induction s as [|c s IH]; [reflexivity|]. simpl.
  intros H. apply Forall_cons in H as [[v Hc] Hs]. rewrite Hc.
  by rewrite IH.
Qed.

Lemma append_empty (s : string) : s +:+ "" = s.
Proof.
  induction s as [|c s IH]; [reflexivity|].
  change (String c s +:+ "") with (String c (s +:+ "")). by rewrite IH.
Qed.

Lemma Qred_integer (z : Z) : Qred (inject_Z z) = inject_Z z.
Proof.
  unfold Qred, inject_Z.
  pose proof (Z.ggcd_gcd z 1) as Hg.
  pose proof (Z.ggcd_correct_divisors z 1) as Hd.
  destruct (Z.ggcd z 1) as [g [a b]]. simpl in Hg, Hd |- *.
  rewrite Z.gcd_1_r in Hg. subst g. destruct Hd as [Ha Hb].
  assert (Ea : a = z) by lia. assert (Eb : b = 1) by lia.
  rewrite Ea, Eb. reflexivity.
Qed.

Lemma roundHalfEven_integer (q : Q) (k : Z) :
  (q == inject_Z k)%Q -> roundHalfEven q = k.
Proof.
  intros H. unfold roundHalfEven.
  assert (F : Qfloor q = k) by (rewrite H; apply Qfloor_Z).
  rewrite F.
  assert (E : (q - inject_Z k ?= 1 # 2)%Q = Lt).
  { rewrite <- Qlt_alt. rewrite H. unfold Qminus.
    rewrite Qplus_opp_r. reflexivity. }
  by rewrite E.
Qed.

Lemma pow2_positive (e : Z) : (0 < pow2 e)%Q.
Proof.
  unfold pow2. destruct (0 <=? e) eqn:E.
  - apply Z.leb_le in E. change 0%Q with (inject_Z 0). rewrite <- Zlt_Qlt.
    by apply Z.pow_pos_nonneg.
  - reflexivity.
Qed.

Lemma roundHalfEven_notNegative (q : Q) : (0 <= q)%Q -> 0 <= roundHalfEven q.
Proof.
  intros H. unfold roundHalfEven.
  assert (F : 0 <= Qfloor q).
  { change 0 with (Qfloor 0). by apply Qfloor_resp_le. }
  destruct (_ ?= _)%Q; [destruct (Z.even _)| |]; lia.
Qed.

Lemma toDouble_notNegative (q : Q) : (0 <= q)%Q -> (0 <= toDouble q)%Q.
Proof.
  intros H. unfold toDouble. destruct (Qnum (Qred q) =? 0); [apply Qle_refl|].
  rewrite Qred_correct.
  pose proof (pow2_positive (lastPlace (Qred q))) as Hp.
  apply Qmult_le_0_compat; [|by apply Qlt_le_weak].
  change 0%Q with (inject_Z 0). rewrite <- Zle_Qle.
  apply roundHalfEven_notNegative. apply Qle_shift_div_l; [exact Hp|].
  rewrite Qmult_0_l, Qred_correct. exact H.
Qed.

(** An integer below [2^53] is a double. *)
Lemma toDouble_integer (q : Q) (z : Z) :
  (q == inject_Z z)%Q -> 0 <= z < 2 ^ 53 -> toDouble q = inject_Z z.
Proof.
  intros H Hz. unfold toDouble.
  assert (R : Qred q = inject_Z z).
  { rewrite (Qred_complete _ _ H). apply Qred_integer. }
  rewrite R. cbn [Qnum inject_Z].
  destruct (Z.eqb_spec z 0) as [->|Hn]; [reflexivity|].
  set (p := lastPlace (inject_Z z)).
  assert (Hp : p <= 0).
  { unfold p, lastPlace. cbn [Qnum Qden inject_Z]. change (Z.log2 1) with 0.
    assert (Z.log2 z < 53) by (apply Z.log2_lt_pow2; lia).
    destruct (Qle_bool _ _); lia. }
  assert (E : (pow2 p == 1 # Z.to_pos (2 ^ (- p)))%Q).
  { unfold pow2. destruct (Z.leb_spec 0 p); [|reflexivity].
    replace p with 0 by lia. reflexivity. }
  assert (P : 0 < 2 ^ (- p)) by (apply Z.pow_pos_nonneg; lia).
  assert (D : (inject_Z z / pow2 p == inject_Z (z * 2 ^ (- p)))%Q).
  { rewrite E. unfold Qdiv, Qinv, Qeq, Qmult, inject_Z. cbn [Qnum Qden].
    destruct (2 ^ (- p)) as [|n|n] eqn:En; try lia. simpl. lia. }
  rewrite (roundHalfEven_integer _ _ D).
  transitivity (Qred (inject_Z z)); [|apply Qred_integer].
  apply Qred_complete. rewrite E.
  unfold Qeq, Qmult, inject_Z. cbn [Qnum Qden].
  destruct (2 ^ (- p)) as [|n|n] eqn:En; try lia. simpl. lia.
Qed.

Lemma minus_integer (a b : Q) (x y : Z) :
  (a == inject_Z x)%Q -> (b == inject_Z y)%Q -> 0 <= x - y < 2 ^ 53 ->
  minus a b = inject_Z (x - y).
Proof.
  intros Ha Hb H. unfold minus.
  assert (E : (a - b == inject_Z (x - y))%Q).
  { rewrite Ha, Hb. unfold Qminus. rewrite <- inject_Z_opp, <- inject_Z_plus.
    reflexivity. }
  replace (Qle_bool 0 (a - b)) with true.
  - by apply toDouble_integer.
  - symmetry. apply Qle_bool_iff. rewrite E. change 0%Q with (inject_Z 0).
    rewrite <- Zle_Qle. lia.
Qed.

Lemma clip_integer (z : Z) :
  0 <= z < 2 ^ 53 -> clip (inject_Z z) = Fin (inject_Z z).
Proof.
  intros H. unfold clip.
  replace (Qle_bool (inject_Z overflow) (inject_Z z)) with false.
  - by rewrite (toDouble_integer _ z).
  - symmetry. apply not_true_is_false. rewrite Qle_bool_iff, <- Zle_Qle.
    assert (2 ^ 53 < overflow) by reflexivity. lia.
Qed.

(** The number of a text of decimal digits is the value of the
    digits. *)
Lemma Number_digits t v :
  t <> "" -> digitsOnly t -> digitsValue 10 digit 0 t = Some v ->
  Z.of_N v < 2 ^ 53 ->
  Number t = Fin (inject_Z (Z.of_N v)).
Proof.
  intros Hne Hd Hv Hsmall. unfold Number.
  rewrite trim_solid by (by apply digitsOnly_solid).
  destruct t as [|c r]; [done|].
  assert (Hc : (48 <= N_of_ascii c <= 57)%N).
  { apply digit_code. unfold digitsOnly in Hd. simpl in Hd.
    by apply Forall_cons in Hd as [Hd _]. }
  rewrite (eqb_code c "+"), (eqb_code c "-") by (simpl; lia).
  assert (Hu : unsignedDecimal (String c r) = Fin (inject_Z (Z.of_N v))).
  { unfold unsignedDecimal.
    replace (String.eqb (String c r) "Infinity") with false
      by (symmetry; simpl; by rewrite (eqb_code c "I") by (simpl; lia)).
    rewrite spanDigits_digits by exact Hd. cbn [String.eqb andb].
    cbn [exponentOf]. rewrite append_empty, Hv. unfold scaled.
    cbn [String.length Z.of_nat Z.sub Z.opp Z.add Z.leb Z.compare].
    rewrite Z.pow_0_r, Z.mul_1_r. apply clip_integer. lia. }
  unfold unsigned. destruct r as [|p r']; [exact Hu|].
  assert (Hp : (48 <= N_of_ascii p <= 57)%N).
  { apply digit_code. unfold digitsOnly in Hd. simpl in Hd.
    apply Forall_cons in Hd as [_ Hd]. by apply Forall_cons in Hd as [Hd _]. }
  rewrite (eqb_code p "x"), (eqb_code p "X"), (eqb_code p "o"),
    (eqb_code p "O"), (eqb_code p "b"), (eqb_code p "B") by (simpl; lia).
  rewrite !andb_false_r. exact Hu.
Qed.

(** *** No negative number without a minus sign *)

Lemma clip_notNegative q : (0 <= q)%Q -> notNegative (clip q).
Proof.
  intros H. unfold clip. destruct (Qle_bool _ q); [exact I|].
  simpl. by apply toDouble_notNegative.
Qed.

Lemma scaled_notNegative m k : notNegative (scaled m k).
Proof.
  unfold scaled. destruct (0 <=? k) eqn:E; apply clip_notNegative.
  - apply Z.leb_le in E. change 0%Q with (inject_Z 0). rewrite <- Zle_Qle.
    apply Z.mul_nonneg_nonneg; [lia|]. by apply Z.pow_nonneg.
  - unfold Qle. cbn [Qnum Qden]. lia.
Qed.

Lemma unsignedDecimal_notNegative s : notNegative (unsignedDecimal s).
Proof.
  unfold unsignedDecimal. destruct (String.eqb s "Infinity"); [exact I|].
  destruct (spanDigits s) as [whole r1].
  destruct (match r1 with
            | "" => ("", r1)
            | String c r => if Ascii.eqb c "." then spanDigits r else ("", r1)
            end) as [fraction r2].
  destruct (_ && _); [exact I|].
  destruct (exponentOf r2); [|exact I].
  destruct (digitsValue _ _ _ _); [|exact I]. apply scaled_notNegative.
Qed.

Lemma nonDecimal_notNegative base digitOf s :
  notNegative (nonDecimal base digitOf s).
Proof.
  unfold nonDecimal. destruct s; [exact I|].
  destruct (digitsValue _ _ _ _); [|exact I]. apply clip_notNegative.
  change 0%Q with (inject_Z 0). rewrite <- Zle_Qle. lia.
Qed.

Lemma Number_notNegative t : lacks "-" t = true -> notNegative (Number t).
Proof.
  intros H. apply (trim_keeps "-") in H. unfold Number.
  destruct (trim t) as [|c r]; [simpl; apply Qle_refl|].
  destruct (Ascii.eqb c "+"); [apply unsignedDecimal_notNegative|].
  destruct (Ascii.eqb c "-") eqn:E.
  { simpl in H. rewrite E in H. discriminate. }
  unfold unsigned. destruct r as [|p r']; [apply unsignedDecimal_notNegative|].
  repeat (destruct (_ && _); [apply nonDecimal_notNegative|]).
  apply unsignedDecimal_notNegative.
Qed.

End NumberFacts.

Module DateFacts.
Import JsDate Js Dates DateSpec TextSpec KeyFacts OfferFacts TextFacts NumberFacts CalendarFacts.

Lemma truncate_integer (q : Q) (a : Z) : (q == inject_Z a)%Q -> truncate q = a.
Proof.
  unfold Qeq, truncate. cbn [Qnum Qden inject_Z]. intros H.
  rewrite Z.mul_1_r in H. rewrite H. apply Z.quot_mul. lia.
Qed.

Lemma sameNumber_true (a : Z) (q : Q) : sameNumber a q = true -> (q == inject_Z a)%Q.
Proof. unfold sameNumber. intros H. symmetry. by apply Qeq_bool_iff. Qed.

Lemma sameNumber_refl (a : Z) : sameNumber a (inject_Z a) = true.
Proof. unfold sameNumber. apply Qeq_bool_iff. reflexivity. Qed.

Lemma format_fields tv y m d : utcFields tv = (y, m, d) -> format tv = isoDate y m d.
Proof. unfold format, isoDate. by intros ->. Qed.

Lemma january_275761 : dayFromYear 275761 = 100000110.
Proof. reflexivity. Qed.

Lemma daysInMonth_bounds y m : 28 <= daysInMonth y m <= 31.
Proof.
  unfold daysInMonth.
  destruct (m =? 2); [destruct (isLeap y); lia|]. destruct (_ || _); lia.
Qed.

Lemma daysBeforeMonth_bounds y m : 1 <= m <= 12 -> 0 <= daysBeforeMonth y m <= 335.
Proof.
  intros H. destruct (month_table y m H) as (l & b & len & Hl & _ & Hb & _ & Ht).
  lia.
Qed.

(** A date that passes the validity test is a day of the calendar, of
    a year from 100 on when the year number is not negative. *)
Lemma valid_date (y m d : Q) (tv : Z) :
  (0 <= y)%Q ->
  dateUTC y (minus m 1) d = Some tv -> fieldsAre (Some tv) y m d = true ->
  exists Y M D,
    calendarDate Y M D /\ 100 <= Y <= 275760 /\ utcFields tv = (Y, M, D).
Proof.
  intros Hy Hd Hf. unfold fieldsAre, utcFields in Hf.
  set (day := tv / msPerDay) in *.
  destruct (fields_of_day day) as [Hc Hm].
  set (Y := yearFromDay day) in *. set (M := monthFromDay day) in *.
  set (D := dateFromDay day) in *.
  apply andb_true_iff in Hf as [Hf HD]. apply andb_true_iff in Hf as [HY HM].
  apply sameNumber_true in HY, HM, HD.
  exists Y, M, D. split; [exact Hc|]. split; [|reflexivity].
  assert (H0 : 0 <= Y).
  { rewrite HY in Hy. change 0%Q with (inject_Z 0) in Hy.
    by rewrite <- Zle_Qle in Hy. }
  destruct Hc as [HM12 HD31].
  unfold dateUTC in Hd.
  rewrite (truncate_integer y Y HY), (truncate_integer d D HD) in Hd.
  rewrite (minus_integer m 1 M 1 HM) in Hd by (try reflexivity; lia).
  cbv zeta in Hd.
  destruct (between _ _ _ && between _ _ _); [|discriminate].
  set (fullYear := if (0 <=? Y) && (Y <=? 99) then 1900 + Y else Y) in *.
  assert (Hfy : truncate (if (0 <=? Y) && (Y <=? 99)
                          then inject_Z (1900 + Y) else y) = fullYear).
  { unfold fullYear.
    destruct ((0 <=? Y) && (Y <=? 99)); apply truncate_integer;
      [reflexivity|exact HY]. }
  rewrite Hfy in Hd.
  rewrite (truncate_integer _ (M - 1)) in Hd by reflexivity.
  replace ((M - 1) / 12) with 0 in Hd by (Z.div_mod_to_equations; lia).
  replace ((M - 1) mod 12 + 1) with M in Hd by (Z.div_mod_to_equations; lia).
  rewrite Z.add_0_r in Hd.
  destruct (Z.leb_spec
              (Z.abs ((makeDay (fullYear, M, 1) + D - 1) * msPerDay)) maxTime)
    as [Hr|Hr]; [|discriminate].
  injection Hd as Htv.
  assert (Hday : day = makeDay (fullYear, M, 1) + D - 1).
  { unfold day. rewrite <- Htv. apply Z.div_mul. unfold msPerDay. lia. }
  pose proof (yearFromDay_spec day) as Hs. fold Y in Hs.
  split.
  - destruct (Z.le_gt_cases 100 Y) as [|Hlt]; [assumption|exfalso].
    assert (Ef : fullYear = 1900 + Y).
    { unfold fullYear. destruct (Z.leb_spec 0 Y), (Z.leb_spec Y 99);
        simpl; lia. }
    pose proof (dayFromYear_mono Y (1900 + Y) ltac:(lia)) as Hmono.
    pose proof (daysBeforeMonth_bounds (1900 + Y) M HM12).
    pose proof (daysBeforeMonth_bounds Y M HM12).
    rewrite Hday, Ef in Hm. unfold makeDay in Hm. lia.
  - destruct (Z.le_gt_cases Y 275760) as [|Hgt]; [assumption|exfalso].
    assert (Hle : dayFromYear 275761 <= dayFromYear Y).
    { destruct (Z.eq_dec Y 275761) as [->|Hne]; [lia|].
      pose proof (dayFromYear_mono 275761 Y ltac:(lia)). lia. }
    rewrite january_275761 in Hle.
    rewrite <- Hday in Hr. unfold maxTime, msPerDay in Hr. lia.
Qed.

(** The numbers read from a text without a minus sign. *)
Lemma numbersOf_notNegative raw a b c :
  lacks "-" raw = true -> numbersOf raw = (a, b, c) ->
  forall q, finite a = Some q \/ finite b = Some q \/ finite c = Some q ->
            (0 <= q)%Q.
Proof.
  intros Hl E q Hq. unfold numbersOf in E.
  assert (Hn : forall i x,
             map Number (split "." raw) !! i = x -> finite x = Some q ->
             (0 <= q)%Q).
  { intros i x Hx Hfin. destruct x as [[| |v|]|]; try discriminate.
    injection Hfin as ->.
    change (map Number (split "." raw)) with (Number <$> split "." raw) in Hx.
    rewrite list_lookup_fmap in Hx.
    destruct (split "." raw !! i) as [t|] eqn:Et; [|discriminate].
    simpl in Hx. injection Hx as Hx.
    pose proof (split_keeps "-" "." raw Hl) as Hall.
    rewrite Forall_lookup in Hall. specialize (Hall i t Et).
    apply Number_notNegative in Hall. by rewrite Hx in Hall. }
  injection E as Ea Eb Ec.
  destruct Hq as [Hq|[Hq|Hq]]; eauto.
Qed.

Lemma dash_parts dates i raw :
  map trim (split "-" dates) !! i = Some raw -> lacks "-" raw = true.
Proof.
  change (map trim (split "-" dates)) with (trim <$> split "-" dates).
  rewrite list_lookup_fmap.
  destruct (split "-" dates !! i) as [t|] eqn:Et; [|discriminate].
  simpl. intros [= <-]. apply trim_keeps.
  pose proof (split_parts "-" dates) as Hall.
  rewrite Forall_lookup in Hall. exact (Hall i t Et).
Qed.

(** *** Texts of calendar days *)

Lemma padStart2_pretty (n : N) :
  let t := padStart2 (pretty n) in
  t <> "" /\ digitsOnly t /\ digitsValue 10 digit 0 t = Some n.
Proof.
  pose proof (digitsOnly_pretty n) as Hd.
  pose proof (digitsValue_pretty n) as Hv.
  destruct (pretty n) as [|c [|c' r]] eqn:E; cbn [padStart2].
  - simpl in Hv. injection Hv as <-. discriminate.
  - split; [done|]. split.
    + unfold digitsOnly in *. simpl in *. constructor; [by eexists|exact Hd].
    + exact Hv.
  - by split.
Qed.

Lemma pretty_N_nonempty (n : N) : pretty n <> "".
Proof.
  destruct (N.lt_ge_cases n 10) as [Hs|Hl].
  - by rewrite pretty_N_small.
  - rewrite pretty_N_large by exact Hl. destruct (pretty (n `div` 10)%N); done.
Qed.

Lemma Number_pretty (z : Z) :
  0 <= z < 2 ^ 53 -> Number (pretty z) = Fin (inject_Z z).
Proof.
  intros H. rewrite pretty_Z_N by lia.
  rewrite (Number_digits _ (Z.to_N z)).
  - by rewrite Z2N.id by lia.
  - apply pretty_N_nonempty.
  - apply digitsOnly_pretty.
  - apply digitsValue_pretty.
  - rewrite Z2N.id; lia.
Qed.

Lemma Number_padStart2 (z : Z) :
  0 <= z < 2 ^ 53 -> Number (padStart2 (pretty z)) = Fin (inject_Z z).
Proof.
  intros H. rewrite pretty_Z_N by lia.
  destruct (padStart2_pretty (Z.to_N z)) as (Hne & Hd & Hv).
  rewrite (Number_digits _ (Z.to_N z) Hne Hd Hv) by (rewrite Z2N.id; lia).
  by rewrite Z2N.id by lia.
Qed.

Lemma digitsOnly_lacks x s :
  digit x = None -> digitsOnly s -> lacks x s = true.
Proof.
  intros Hx. unfold digitsOnly. induction s as [|c s IH]; [reflexivity|].
  simpl. intros H. apply Forall_cons in H as [[v Hc] Hs].
  rewrite (IH Hs), andb_true_r. apply negb_true_iff, Ascii.eqb_neq.
  intros ->. congruence.
Qed.

Lemma padStart2_digitsOnly (z : Z) : 0 <= z -> digitsOnly (padStart2 (pretty z)).
Proof.
  intros H. rewrite pretty_Z_N by lia.
  by destruct (padStart2_pretty (Z.to_N z)) as (_ & Hd & _).
Qed.

Lemma pretty_digitsOnly (z : Z) : 0 <= z -> digitsOnly (pretty z).
Proof. intros H. rewrite pretty_Z_N by lia. apply digitsOnly_pretty. Qed.

(** The text [DD.MM.YYYY] of a day: its parts, and what it is made
    of. *)
Lemma ruDate_parts y m d :
  0 <= y -> 0 <= m -> 0 <= d ->
  split "." (ruDate y m d)
  = [padStart2 (pretty d); padStart2 (pretty m); pretty y].
Proof.
  intros Hy Hm Hd. unfold ruDate.
  change ("." +:+ ?s) with (String "." s).
  rewrite split_app
    by (apply digitsOnly_lacks; [reflexivity|by apply padStart2_digitsOnly]).
  change ("." +:+ ?s) with (String "." s).
  rewrite split_app
    by (apply digitsOnly_lacks; [reflexivity|by apply padStart2_digitsOnly]).
  rewrite split_one
    by (apply digitsOnly_lacks; [reflexivity|by apply pretty_digitsOnly]).
  reflexivity.
Qed.

Lemma solid_dot : solid ".".
Proof. by repeat constructor. Qed.

Lemma ruDate_solid y m d : 0 <= y -> 0 <= m -> 0 <= d -> solid (ruDate y m d).
Proof.
  intros Hy Hm Hd. unfold ruDate.
  repeat (apply solid_app);
    first [apply solid_dot | apply digitsOnly_solid];
    first [by apply padStart2_digitsOnly | by apply pretty_digitsOnly].
Qed.

Lemma lacks_solid_dash y m d :
  0 <= y -> 0 <= m -> 0 <= d -> lacks "-" (ruDate y m d) = true.
Proof.
  intros Hy Hm Hd. unfold ruDate. rewrite !lacks_app.
  rewrite (digitsOnly_lacks "-" (padStart2 (pretty d)))
    by (try reflexivity; by apply padStart2_digitsOnly).
  rewrite (digitsOnly_lacks "-" (padStart2 (pretty m)))
    by (try reflexivity; by apply padStart2_digitsOnly).
  rewrite (digitsOnly_lacks "-" (pretty y))
    by (try reflexivity; by apply pretty_digitsOnly).
  reflexivity.
Qed.

Lemma ruDate_nonempty y m d : ruDate y m d <> "".
Proof.
  unfold ruDate. destruct (padStart2 (pretty d)) as [|c r] eqn:E; [|done].
  unfold padStart2 in E. destruct (pretty d) as [|? [|? ?]]; discriminate.
Qed.

Lemma numbersOf_ruDate y m d :
  0 <= y < 2 ^ 53 -> 0 <= m < 2 ^ 53 -> 0 <= d < 2 ^ 53 ->
  numbersOf (ruDate y m d)
  = (Some (Fin (inject_Z d)), Some (Fin (inject_Z m)), Some (Fin (inject_Z y))).
Proof.
  intros Hy Hm Hd. unfold numbersOf. rewrite ruDate_parts by lia.
  cbn [map lookup list_lookup].
  by rewrite !Number_padStart2, Number_pretty by lia.
Qed.

(** A day of the calendar goes through [Date.UTC] and back. *)
Lemma calendar_date_valid y m d :
  calendarDate y m d -> 100 <= y -> makeDay (y, m, d) <= 100000000 ->
  let tv := makeDay (y, m, d) * msPerDay in
  dateUTC (inject_Z y) (minus (inject_Z m) 1) (inject_Z d) = Some tv
  /\ fieldsAre (Some tv) (inject_Z y) (inject_Z m) (inject_Z d) = true
  /\ format tv = isoDate y m d.
Proof.
  intros Hc Hy Hr tv. pose proof Hc as [Hm Hd].
  pose proof (fields_of_calendarDate y m d Hc) as Hf. fold tv in Hf.
  split; [|split].
  - assert (Hy' : y <= 275760).
    { destruct (Z.le_gt_cases y 275760) as [|Hgt]; [assumption|exfalso].
      pose proof (makeDay_in_year y m d Hc).
      assert (dayFromYear 275761 <= dayFromYear y).
      { destruct (Z.eq_dec y 275761) as [->|Hne]; [lia|].
        pose proof (dayFromYear_mono 275761 y ltac:(lia)). lia. }
      rewrite january_275761 in *. lia. }
    unfold dateUTC.
    rewrite (minus_integer _ 1 m 1) by (try reflexivity; lia).
    rewrite (truncate_integer (inject_Z y) y),
      (truncate_integer (inject_Z d) d) by reflexivity.
    replace ((0 <=? y) && (y <=? 99)) with false
      by (symmetry; apply andb_false_iff; right; apply Z.leb_gt; lia).
    cbv zeta.
    replace (between (-1000000) 1000000 (inject_Z y)) with true
      by (symmetry; unfold between; rewrite andb_true_iff, !Qle_bool_iff,
            <- !Zle_Qle; lia).
    replace (between (-10000000) 10000000 (inject_Z (m - 1))) with true
      by (symmetry; unfold between; rewrite andb_true_iff, !Qle_bool_iff,
            <- !Zle_Qle; lia).
    cbn [andb].
    rewrite (truncate_integer (inject_Z y) y),
      (truncate_integer (inject_Z (m - 1)) (m - 1)) by reflexivity.
    replace ((m - 1) / 12) with 0 by (Z.div_mod_to_equations; lia).
    replace ((m - 1) mod 12 + 1) with m by (Z.div_mod_to_equations; lia).
    rewrite Z.add_0_r.
    replace (makeDay (y, m, 1) + d - 1) with (makeDay (y, m, d))
      by (unfold makeDay; lia).
    fold tv.
    assert (Hlow : dayFromYear 100 <= makeDay (y, m, d)).
    { pose proof (makeDay_in_year y m d Hc).
      destruct (Z.eq_dec y 100) as [->|Hne]; [lia|].
      pose proof (dayFromYear_mono 100 y ltac:(lia)). lia. }
    change (dayFromYear 100) with (-683003) in Hlow.
    destruct (Z.leb_spec (Z.abs tv) maxTime) as [|Hbig]; [reflexivity|].
    exfalso. unfold tv, maxTime, msPerDay in Hbig. lia.
  - unfold fieldsAre. rewrite Hf. by rewrite !sameNumber_refl.
  - by apply format_fields.
Qed.

End DateFacts.

Module RangeFacts.
Import JsDate Js Dates DateSpec TextSpec KeyFacts OfferFacts TextFacts NumberFacts CalendarFacts DateFacts.

(** X18.  [parseDatesRange] returns only days of the calendar: each of
    the two texts of an accepted range is [YYYY-MM-DD] (the year on as
    many digits as it has) of a day that exists, of a year from 100 to
    275760. *)
Theorem accepted_dates_are_calendar_days (dates arrival departure : string) :
  parseDatesRange dates = Ok (arrival, departure) ->
  exists y1 m1 d1 y2 m2 d2,
    calendarDate y1 m1 d1 /\ calendarDate y2 m2 d2
    /\ 100 <= y1 <= 275760 /\ 100 <= y2 <= 275760
    /\ arrival = isoDate y1 m1 d1 /\ departure = isoDate y2 m2 d2.
Proof.
  unfold parseDatesRange. cbv zeta.
  destruct (map trim (split "-" dates) !! 0%nat) as [[|c1 r1]|] eqn:E1;
    try discriminate.
  destruct (map trim (split "-" dates) !! 1%nat) as [[|c2 r2]|] eqn:E2;
    try discriminate.
  apply dash_parts in E1, E2.
  destruct (numbersOf (String c1 r1)) as [[a1 b1] n1] eqn:N1.
  destruct (numbersOf (String c2 r2)) as [[a2 b2] n2] eqn:N2.
  pose proof (numbersOf_notNegative _ _ _ _ E1 N1) as P1.
  pose proof (numbersOf_notNegative _ _ _ _ E2 N2) as P2.
  destruct (finite a1) as [d1|]; [|discriminate].
  destruct (finite b1) as [m1|]; [|discriminate].
  destruct (finite n1) as [y1|]; [|discriminate].
  destruct (finite a2) as [d2|]; [|discriminate].
  destruct (finite b2) as [m2|]; [|discriminate].
  destruct (finite n2) as [y2|]; [|discriminate].
  destruct (dateUTC y1 (minus m1 1) d1) as [ta|] eqn:Da; [|discriminate].
  destruct (dateUTC y2 (minus m2 1) d2) as [tb|] eqn:Db; [|discriminate].
  destruct (fieldsAre (Some ta) y1 m1 d1) eqn:Fa; [|discriminate].
  destruct (fieldsAre (Some tb) y2 m2 d2) eqn:Fb; [|discriminate].
  cbn [andb]. intros [= <- <-].
  destruct (valid_date y1 m1 d1 ta (P1 y1 ltac:(auto)) Da Fa)
    as (Y1 & M1 & D1 & Hc1 & Hy1 & Hf1).
  destruct (valid_date y2 m2 d2 tb (P2 y2 ltac:(auto)) Db Fb)
    as (Y2 & M2 & D2 & Hc2 & Hy2 & Hf2).
  exists Y1, M1, D1, Y2, M2, D2.
  by rewrite (format_fields _ _ _ _ Hf1), (format_fields _ _ _ _ Hf2).
Qed.

Lemma accepted_dates_are_calendar_days_witness :
  exists y1 m1 d1 y2 m2 d2,
    calendarDate y1 m1 d1 /\ calendarDate y2 m2 d2
    /\ 100 <= y1 <= 275760 /\ 100 <= y2 <= 275760
    /\ "2025-09-26" = isoDate y1 m1 d1 /\ "2025-09-28" = isoDate y2 m2 d2.
Proof.
  apply (accepted_dates_are_calendar_days " 26.09.2025 - 28.9.2025").
  vm_compute. reflexivity.
Defined.

(** X19.  [parseDatesRange] accepts every range [DD.MM.YYYY-DD.MM.YYYY]
    of two days of the calendar from year 100 to 13 September 275760,
    in whatever order the two days are, and returns them as
    [YYYY-MM-DD]. *)
Theorem calendar_days_are_accepted (y1 m1 d1 y2 m2 d2 : Z) :
  calendarDate y1 m1 d1 -> calendarDate y2 m2 d2 ->
  100 <= y1 -> 100 <= y2 ->
  makeDay (y1, m1, d1) <= 100000000 -> makeDay (y2, m2, d2) <= 100000000 ->
  parseDatesRange (ruDate y1 m1 d1 +:+ "-" +:+ ruDate y2 m2 d2)
  = Ok (isoDate y1 m1 d1, isoDate y2 m2 d2).
Proof.
  intros Hc1 Hc2 Hy1 Hy2 Hr1 Hr2.
  assert (B : forall y m d,
             calendarDate y m d -> 100 <= y -> makeDay (y, m, d) <= 100000000 ->
             0 <= y < 2 ^ 53 /\ 0 <= m < 2 ^ 53 /\ 0 <= d < 2 ^ 53).
  { intros y m d [Hm Hd] Hy Hr.
    pose proof (daysInMonth_bounds y m).
    assert (y < 275761).
    { destruct (Z.lt_ge_cases y 275761) as [|Hge]; [assumption|exfalso].
      pose proof (makeDay_in_year y m d (conj Hm Hd)).
      assert (dayFromYear 275761 <= dayFromYear y).
      { destruct (Z.eq_dec y 275761) as [->|Hne]; [lia|].
        pose proof (dayFromYear_mono 275761 y ltac:(lia)). lia. }
      rewrite january_275761 in *. lia. }
    assert (275761 < 2 ^ 53) by reflexivity. lia. }
  destruct (B _ _ _ Hc1 Hy1 Hr1) as (By1 & Bm1 & Bd1).
  destruct (B _ _ _ Hc2 Hy2 Hr2) as (By2 & Bm2 & Bd2).
  unfold parseDatesRange. cbv zeta.
  change ("-" +:+ ?s) with (String "-" s).
  rewrite split_app by (apply lacks_solid_dash; lia).
  rewrite split_one by (apply lacks_solid_dash; lia).
  cbn [map lookup list_lookup].
  rewrite !trim_solid by (apply ruDate_solid; lia).
  pose proof (ruDate_nonempty y1 m1 d1) as Ne1.
  pose proof (ruDate_nonempty y2 m2 d2) as Ne2.
  pose proof (numbersOf_ruDate y1 m1 d1 By1 Bm1 Bd1) as N1.
  pose proof (numbersOf_ruDate y2 m2 d2 By2 Bm2 Bd2) as N2.
  destruct (ruDate y1 m1 d1) as [|c1 r1]; [done|].
  destruct (ruDate y2 m2 d2) as [|c2 r2]; [done|].
  rewrite N1, N2. cbn [finite].
  destruct (calendar_date_valid y1 m1 d1 Hc1 Hy1 Hr1) as (Da & Fa & Ea).
  destruct (calendar_date_valid y2 m2 d2 Hc2 Hy2 Hr2) as (Db & Fb & Eb).
  rewrite Da, Db, Fa, Fb. cbn [andb]. by rewrite Ea, Eb.
Qed.

Lemma calendar_days_are_accepted_witness :
  parseDatesRange (ruDate 2025 9 28 +:+ "-" +:+ ruDate 2025 9 26)
  = Ok (isoDate 2025 9 28, isoDate 2025 9 26).
Proof.
  apply calendar_days_are_accepted;
    first [by vm_compute | lia | (split; vm_compute; split; congruence)].
Defined.

End RangeFacts.

Module NightsFacts.
Import JsDate Js Dates DateSpec TextSpec KeyFacts OfferFacts TextFacts NumberFacts CalendarFacts DateFacts.

Lemma digitOf_char (k : Z) :
  0 <= k < 10 -> digitOf (pretty_N_char (Z.to_N k)) = Some k.
Proof.
  intros H. destruct k as [|p|p]; [reflexivity| |lia].
  do 4 (try destruct p as [p|p|]); try reflexivity; lia.
Qed.

(** The two digits of a number below 100. *)
Lemma padStart2_two (n : Z) :
  0 <= n < 100 ->
  exists a b, 0 <= a < 10 /\ 0 <= b < 10 /\ n = 10 * a + b
    /\ padStart2 (pretty n)
       = String (pretty_N_char (Z.to_N a)) (String (pretty_N_char (Z.to_N b)) "").
Proof.
  intros H. exists (n / 10), (n mod 10).
  split; [Z.div_mod_to_equations; lia|].
  split; [Z.div_mod_to_equations; lia|].
  split; [Z.div_mod_to_equations; lia|].
  rewrite pretty_Z_N by lia.
  destruct (Z.lt_ge_cases n 10) as [Hs|Hl].
  - rewrite pretty_N_small by lia. cbn [padStart2].
    rewrite Z.div_small, Z.mod_small by lia. reflexivity.
  - rewrite pretty_N_large by lia.
    rewrite (pretty_N_small (Z.to_N n `div` 10))
      by (apply N.Div0.div_lt_upper_bound; lia).
    change (String ?c "" +:+ ?s) with (String c s). cbn [padStart2].
    by rewrite Z2N.inj_div, Z2N.inj_mod by lia.
Qed.

(** The four digits of a year from 1000 to 9999. *)
Lemma pretty_four (n : Z) :
  1000 <= n < 10000 ->
  exists a b c e,
    0 <= a < 10 /\ 0 <= b < 10 /\ 0 <= c < 10 /\ 0 <= e < 10
    /\ n = 100 * (10 * a + b) + (10 * c + e)
    /\ pretty n
       = String (pretty_N_char (Z.to_N a)) (String (pretty_N_char (Z.to_N b))
           (String (pretty_N_char (Z.to_N c))
              (String (pretty_N_char (Z.to_N e)) ""))).
Proof.
  intros H. exists (n / 1000), (n / 100 mod 10), (n / 10 mod 10), (n mod 10).
  split; [Z.div_mod_to_equations; lia|].
  split; [Z.div_mod_to_equations; lia|].
  split; [Z.div_mod_to_equations; lia|].
  split; [Z.div_mod_to_equations; lia|].
  split; [Z.div_mod_to_equations; lia|].
  rewrite pretty_Z_N by lia.
  set (k := Z.to_N n).
  assert (Hk : (1000 <= k < 10000)%N) by lia.
  assert (E1 : Z.to_N (n mod 10) = (k `mod` 10)%N)
    by (unfold k; rewrite Z2N.inj_mod by lia; reflexivity).
  assert (E2 : Z.to_N (n / 10 mod 10) = ((k `div` 10) `mod` 10)%N)
    by (unfold k; rewrite Z2N.inj_mod, Z2N.inj_div
          by (try apply Z.div_pos; lia); reflexivity).
  assert (E3 : Z.to_N (n / 100 mod 10) = (((k `div` 10) `div` 10) `mod` 10)%N).
  { unfold k. rewrite N.Div0.div_div. change (10 * 10)%N with 100%N.
    rewrite Z2N.inj_mod, Z2N.inj_div by (try apply Z.div_pos; lia).
    reflexivity. }
  assert (E4 : Z.to_N (n / 1000) = (((k `div` 10) `div` 10) `div` 10)%N).
  { unfold k. rewrite !N.Div0.div_div. change (10 * 10 * 10)%N with 1000%N.
    rewrite Z2N.inj_div by lia. reflexivity. }
  rewrite E1, E2, E3, E4.
  assert (H1 : (100 <= k `div` 10 < 1000)%N).
  { split; [apply N.div_le_lower_bound; lia
           |apply N.Div0.div_lt_upper_bound; lia]. }
  assert (H2 : (10 <= (k `div` 10) `div` 10 < 100)%N).
  { split; [apply N.div_le_lower_bound; lia
           |apply N.Div0.div_lt_upper_bound; lia]. }
  assert (H3 : (((k `div` 10) `div` 10) `div` 10 < 10)%N)
    by (apply N.Div0.div_lt_upper_bound; lia).
  rewrite (pretty_N_large k) by lia.
  rewrite (pretty_N_large (k `div` 10)) by lia.
  rewrite (pretty_N_large ((k `div` 10) `div` 10)) by lia.
  rewrite (pretty_N_small _ H3).
  reflexivity.
Qed.

(** The text that [parseDatesRange] returns for a day of a four-digit
    year is read back as that day. *)
Lemma parseLocalMidnight_isoDate y m d :
  calendarDate y m d -> 1000 <= y <= 9999 ->
  parseLocalMidnight (isoDate y m d +:+ "T00:00:00") = Some (y, m, d).
Proof.
  intros [Hm Hd] Hy. pose proof (daysInMonth_bounds y m) as Hb.
  destruct (pretty_four y ltac:(lia))
    as (a & b & c & e & Ha & Hb' & Hc & He & Ey & Ty).
  destruct (padStart2_two m ltac:(lia)) as (m1 & m2 & Hm1 & Hm2 & Em & Tm).
  destruct (padStart2_two d ltac:(lia)) as (d1 & d2 & Hd1 & Hd2 & Ed & Td).
  unfold isoDate. rewrite Ty, Tm, Td.
  cbv [String.append]. cbn [parseLocalMidnight].
  change (String.eqb "T00:00:00" "T00:00:00") with true. cbv iota.
  unfold num4, num2. rewrite !digitOf_char by assumption.
  rewrite <- Ey, <- Em, <- Ed.
  replace ((1 <=? m) && (m <=? 12) && (1 <=? d) && (d <=? 31)) with true;
    [reflexivity|].
  symmetry. rewrite !andb_true_iff, !Z.leb_le. lia.
Qed.

End NightsFacts.

Module StayFacts.
Import JsDate Js Dates DateSpec Search.
Import SearchFacts CalendarFacts DateFacts NightsFacts.

(** X20.  The nights of a stay between two days as [parseDatesRange]
    writes them (four-digit years): the number of days from the
    arrival to the departure, and one night when the departure is not
    after the arrival, as long as the offsets of local time at the two
    midnights differ by less than half a day. *)
Theorem nights_between_accepted_dates (P : Platform) (y1 m1 d1 y2 m2 d2 : Z) :
  calendarDate y1 m1 d1 -> calendarDate y2 m2 d2 ->
  1000 <= y1 <= 9999 -> 1000 <= y2 <= 9999 ->
  Z.abs (localTZA P (makeDay (y2, m2, d2) * msPerDay)
         - localTZA P (makeDay (y1, m1, d1) * msPerDay)) < 43200000 ->
  diffNights P (isoDate y1 m1 d1) (isoDate y2 m2 d2)
  = Num.ofZ (Z.max 1 (makeDay (y2, m2, d2) - makeDay (y1, m1, d1)))
  /\ (makeDay (y2, m2, d2) <= makeDay (y1, m1, d1) ->
      diffNights P (isoDate y1 m1 d1) (isoDate y2 m2 d2) = Num.ofZ 1).
Proof.
  intros Hc1 Hc2 Hy1 Hy2 Htz.
  pose proof (parseLocalMidnight_isoDate y1 m1 d1 Hc1 Hy1) as E1.
  pose proof (parseLocalMidnight_isoDate y2 m2 d2 Hc2 Hy2) as E2.
  rewrite (diffNights_valid P _ _ _ _ E1 E2 Htz).
  split; [reflexivity|]. intros Hle. f_equal. lia.
Qed.

Lemma nights_between_accepted_dates_witness :
  diffNights Samples.moscow (isoDate 2025 9 28) (isoDate 2025 9 26)
  = Num.ofZ (Z.max 1 (makeDay (2025, 9, 26) - makeDay (2025, 9, 28)))
  /\ (makeDay (2025, 9, 26) <= makeDay (2025, 9, 28) ->
      diffNights Samples.moscow (isoDate 2025 9 28) (isoDate 2025 9 26)
      = Num.ofZ 1).
Proof.
  apply (nights_between_accepted_dates Samples.moscow 2025 9 28 2025 9 26);
    first [by vm_compute | lia | (split; vm_compute; split; congruence)].
Defined.

End StayFacts.

Module GuestFacts.
Import Js Dates Guests TextSpec KeyFacts TextFacts NumberFacts DateFacts.

Lemma split_concat sep (parts : list string) :
  parts <> [] -> Forall (fun p => lacks sep p = true) parts ->
  split sep (String.concat (String sep "") parts) = parts.
Proof.
  induction parts as [|p rest IH]; [done|]. intros _ H.
  apply Forall_cons in H as [Hp Hrest]. destruct rest as [|q rest'].
  - simpl. by apply split_one.
  - change (String.concat (String sep "") (p :: q :: rest'))
      with (p +:+ String sep "" +:+ String.concat (String sep "") (q :: rest')).
    change (String sep "" +:+ ?s) with (String sep s).
    rewrite split_app by exact Hp. f_equal. by apply IH.
Qed.

Lemma ages_read (ages : list Z) :
  Forall (fun a => 0 <= a < 2 ^ 53) ages ->
  List.filter (fun n => isFinite (Some n) && notBelowZero n)
    (map Number
       (List.filter (fun s => negb (String.eqb s ""))
          (map trim (map pretty ages))))
  = map Num.ofZ ages.
Proof.
  induction 1 as [|a ages Ha _ IH]; [reflexivity|]. cbn [map].
  rewrite trim_solid
    by (apply digitsOnly_solid, pretty_digitsOnly; lia).
  cbn [List.filter].
  replace (String.eqb (pretty a) "") with false.
  2:{ symmetry. apply String.eqb_neq. rewrite pretty_Z_N by lia.
      apply pretty_N_nonempty. }
  cbn [negb map]. rewrite Number_pretty by lia. cbn [List.filter isFinite].
  replace (notBelowZero (Fin (inject_Z a))) with true.
  2:{ symmetry. apply Qle_bool_iff. change 0%Q with (inject_Z 0).
      rewrite <- Zle_Qle. lia. }
  cbn [andb]. unfold Num.ofZ at 1. f_equal. exact IH.
Qed.

(** X21.  The guests of a request.  The number of adults that passes the
    test is finite and at least 1, and it is 1 when the parameter is
    missing; the child ages that are kept are finite and not negative,
    and there is none when the parameter is missing or empty.  A
    decimal number of adults and a comma-separated list of decimal
    ages are read as they are written. *)
Theorem guests_of_request :
  (forall raw a, adultCountOf raw = Ok a -> exists q, a = Fin q /\ (1 <= q)%Q)
  /\ adultCountOf None = Ok (Num.ofZ 1)
  /\ (forall raw,
        Forall (fun a => exists q, a = Fin q /\ (0 <= q)%Q) (childAgesOf raw))
  /\ childAgesOf None = [] /\ childAgesOf (Some "") = []
  /\ (forall n, 1 <= n < 2 ^ 53 -> adultCountOf (Some (pretty n)) = Ok (Num.ofZ n))
  /\ (forall ages, Forall (fun a => 0 <= a < 2 ^ 53) ages ->
        childAgesOf (Some (String.concat "," (map pretty ages)))
        = map Num.ofZ ages).
Proof.
  split; [|split; [|split; [|split; [|split; [|split]]]]].
  - intros raw a. unfold adultCountOf. cbv zeta.
    destruct (Number (default "1" raw)) as [| |q|]; cbn [isFinite negb orb];
      try discriminate.
    unfold Num.lt, Num.ofZ. destruct (Qle_bool (inject_Z 1) q) eqn:E;
      [|discriminate].
    intros [= <-]. exists q. split; [reflexivity|]. by apply Qle_bool_iff.
  - reflexivity.
  - intros raw. unfold childAgesOf. apply List.Forall_forall. intros a Ha.
    apply List.filter_In in Ha as [_ Ha].
    apply andb_true_iff in Ha as [Hf Hn].
    destruct a as [| |q|]; try discriminate. exists q.
    split; [reflexivity|]. by apply Qle_bool_iff.
  - reflexivity.
  - reflexivity.
  - intros n Hn. unfold adultCountOf.
    change (default "1" (Some (pretty n))) with (pretty n).
    rewrite Number_pretty by lia. cbn [isFinite negb orb].
    unfold Num.lt, Num.ofZ.
    replace (Qle_bool (inject_Z 1) (inject_Z n)) with true; [reflexivity|].
    symmetry. apply Qle_bool_iff. rewrite <- Zle_Qle. lia.
  - intros ages Hall. unfold childAgesOf.
    change (default "" (Some ?s)) with s.
    destruct ages as [|a ages]; [reflexivity|].
    rewrite split_concat.
    + by apply ages_read.
    + discriminate.
    + apply Forall_fmap. eapply Forall_impl; [exact Hall|].
      intros z Hz. cbv beta in Hz |- *.
      apply digitsOnly_lacks; [reflexivity|]. apply pretty_digitsOnly. lia.
Qed.

End GuestFacts.
